(** * GeometryPipeline: a shallow embedding of Source/Core/GeometryPipeline.js

    The pipeline functions of [GeometryPipeline.js] are embedded as Rocq
    functions over a model of the JavaScript values they handle:

    - a JavaScript value that is either a number or [undefined] is an
      [option]; [None] is [undefined];
    - a JavaScript array is a [list (option A)]: a hole and a stored
      [undefined] read alike, and a read outside the array is [undefined];
    - index values and counters are integers of [Z];
    - attribute components are IEEE doubles, Rocq's primitive [float];
    - a thrown exception is the [Throw] case of [result];
    - the modules the file imports and that are not part of the sources at
      hand (ComponentDatatype, Matrix4, BoundingSphere, Tipsify, Cartesian3)
      are the fields of the class [Imports]. *)

From stdpp Require Import base option list strings gmap.
From Stdlib Require Import ZArith QArith PrimFloat.

Local Open Scope Z_scope.

(** ** JavaScript values, errors and arrays *)

Module JS.

Definition undefined {A : Type} : option A := None.

Inductive Error : Type :=
| DeveloperError (message : string)
| TypeError
| RangeError.

Inductive result (A : Type) : Type :=
| Return (a : A)
| Throw (e : Error).
Global Arguments Return {A} a.
Global Arguments Throw {A} e.

Definition bind {A B : Type} (m : result A) (k : A → result B) : result B :=
  match m with
  | Return a => k a
  | Throw e => Throw e
  end.

(** [for (x of l) { s = f(s, x) }] where the body may throw. *)
Fixpoint foldM {S A : Type} (f : S → A → result S) (s : S) (l : list A) : result S :=
  match l with
  | [] => Return s
  | x :: l' => bind (f s x) (λ s', foldM f s' l')
  end.

(** [a.length] *)
Definition len {A : Type} (a : list A) : Z := Z.of_nat (length a).

(** [a[k]] for an array [a]; the key [k] is itself a JavaScript value.
    Only the elements of an array are modelled: where the pipeline writes a
    property that is not an element (a negative key), it never reads that
    key again. *)
Definition get {A : Type} (a : list (option A)) (k : option Z) : option A :=
  match k with
  | Some i => if decide (0 ≤ i) then mjoin (a !! Z.to_nat i) else undefined
  | None => undefined
  end.

(** [a[i] = v] for a plain [Array]: a write at or past the end extends the
    array, leaving holes; a negative key sets a property that is not an
    element, so the elements and the length stay as they were. *)
Definition set {A : Type} (a : list (option A)) (i : Z) (v : option A) : list (option A) :=
  if decide (i < 0) then a
  else if decide (i < len a) then <[Z.to_nat i := v]> a
  else a ++ replicate (Z.to_nat i - length a) undefined ++ [v].

(** [a[i] = v] for a typed array: the length is fixed, a write outside is
    dropped. *)
Definition setFixed {A : Type} (a : list (option A)) (i : Z) (v : option A) : list (option A) :=
  if decide (0 ≤ i < len a) then <[Z.to_nat i := v]> a else a.

(** The integers [start, start+1, ..., stop-1] of a counting loop. *)
Definition range (start stop : Z) : list Z := seqZ start (stop - start).

Global Arguments len : simpl never.
Global Arguments get : simpl never.
Global Arguments set : simpl never.
Global Arguments setFixed : simpl never.
Global Arguments range : simpl never.

End JS.

Import JS.

Global Instance result_ret : MRet result := @Return.
Global Instance result_bind : MBind result := λ A B k m, JS.bind m k.

(** ** The data model *)

(** Modelled from the spec: PrimitiveType (PrimitiveType.js is not among the
    sources): the primitive topology enumeration of the Mesh data model. *)
Inductive PrimitiveType : Type :=
| POINTS | LINES | LINE_STRIP | LINE_LOOP | TRIANGLES | TRIANGLE_STRIP | TRIANGLE_FAN.

Global Instance PrimitiveType_eq_dec : EqDecision PrimitiveType.
Proof. solve_decision. Defined.

(** A [Cartesian3] object; a component may hold [undefined] when it was read
    outside an array. *)
Record Cartesian3 : Type := mkCartesian3 {
  x : option float;
  y : option float;
  z : option float
}.

(** The imported modules whose sources are not at hand. *)
Class Imports : Type := {
  (** ComponentDatatype: an enumeration compared with [===] *)
  ComponentDatatype : Type;
  ComponentDatatype_eq_dec :: EqDecision ComponentDatatype;
  FLOAT : ComponentDatatype;
  (** [datatype.createTypedArray(n)]: the value a fresh typed array holds at
      every index, and the conversion a store into it applies *)
  typedArrayInitial : ComponentDatatype → option float;
  typedArrayStore : ComponentDatatype → option float → option float;
  (** Matrix4 *)
  Matrix4 : Type;
  Matrix4_equals : Matrix4 → Matrix4 → bool;
  (** BoundingSphere *)
  BoundingSphere : Type;
  BoundingSphere_clone : BoundingSphere → BoundingSphere;
  BoundingSphere_union : BoundingSphere → BoundingSphere → BoundingSphere;
  (** [Tipsify.tipsify({indices, maximumIndex, cacheSize})] *)
  Tipsify_tipsify : list (option Z) → Z → option Z → result (list (option Z));
  (** Cartesian3 *)
  Cartesian3_ZERO : Cartesian3;
  Cartesian3_subtract : Cartesian3 → Cartesian3 → Cartesian3;
  Cartesian3_cross : Cartesian3 → Cartesian3 → Cartesian3;
  Cartesian3_add : Cartesian3 → Cartesian3 → Cartesian3;
  Cartesian3_normalize : Cartesian3 → Cartesian3
}.

Section DataModel.
Context `{Imports}.

Record GeometryAttribute : Type := mkGeometryAttribute {
  componentDatatype : ComponentDatatype;
  componentsPerAttribute : nat;
  normalize : bool;
  values : option (list (option float))
}.

(** [attributes] is a JavaScript object used as a map from names to
    attributes; [for (name in attributes)] visits it in insertion order. *)
Record Geometry : Type := mkGeometry {
  attributes : list (string * GeometryAttribute);
  indexList : option (list (option Z));
  primitiveType : PrimitiveType;
  boundingSphere : option BoundingSphere
}.

Record GeometryInstance : Type := mkGeometryInstance {
  geometry : Geometry;
  modelMatrix : Matrix4
}.

(** [attributes[name]] *)
Fixpoint lookupAttribute (name : string) (attrs : list (string * GeometryAttribute))
  : option GeometryAttribute :=
  match attrs with
  | [] => undefined
  | (n, a) :: attrs' => if decide (n = name) then Some a else lookupAttribute name attrs'
  end.

(** [attributes[name] = a]: an existing property keeps its place, a new
    one goes last. *)
Fixpoint setAttribute (name : string) (a : GeometryAttribute)
    (attrs : list (string * GeometryAttribute)) : list (string * GeometryAttribute) :=
  match attrs with
  | [] => [(name, a)]
  | (n, b) :: attrs' =>
      if decide (n = name) then (n, a) :: attrs' else (n, b) :: setAttribute name a attrs'
  end.

Definition withIndexList (g : Geometry) (l : option (list (option Z))) : Geometry :=
  mkGeometry (attributes g) l (primitiveType g) (boundingSphere g).

Definition withPrimitiveType (g : Geometry) (t : PrimitiveType) : Geometry :=
  mkGeometry (attributes g) (indexList g) t (boundingSphere g).

Definition withAttributes (g : Geometry) (attrs : list (string * GeometryAttribute)) : Geometry :=
  mkGeometry attrs (indexList g) (primitiveType g) (boundingSphere g).

Definition withValues (a : GeometryAttribute) (v : option (list (option float))) : GeometryAttribute :=
  mkGeometryAttribute (componentDatatype a) (componentsPerAttribute a) (normalize a) v.

End DataModel.

(** ** toWireframe *)

Section ToWireframe.
Context `{Imports}.

Definition addTriangle (lines : list (option Z)) (i0 i1 i2 : option Z) : list (option Z) :=
  lines ++ [i0; i1; i1; i2; i2; i0].

(** [for (i = 0; i < count; i += 3) addTriangle(lines, t[i], t[i+1], t[i+2])] *)
Definition trianglesToLines (triangles : list (option Z)) : list (option Z) :=
  let count := len triangles in
  foldl (λ lines k,
           let i := 3 * k in
           addTriangle lines (get triangles (Some i)) (get triangles (Some (i + 1)))
                       (get triangles (Some (i + 2))))
        [] (range 0 ((count + 2) / 3)).

Definition triangleStripToLines (triangles : list (option Z)) : list (option Z) :=
  let count := len triangles in
  if decide (3 ≤ count) then
    foldl (λ lines i,
             addTriangle lines (get triangles (Some (i - 1))) (get triangles (Some i))
                         (get triangles (Some (i - 2))))
          (addTriangle [] (get triangles (Some 0)) (get triangles (Some 1))
                       (get triangles (Some 2)))
          (range 3 count)
  else [].

Definition triangleFanToLines (triangles : list (option Z)) : list (option Z) :=
  if decide (0 < len triangles) then
    let base := get triangles (Some 0) in
    let count := len triangles - 1 in
    foldl (λ lines i,
             addTriangle lines base (get triangles (Some i)) (get triangles (Some (i + 1))))
          [] (range 1 count)
  else [].

Definition toWireframe (g : Geometry) : Geometry :=
  match indexList g with
  | Some indices =>
      let g1 :=
        match primitiveType g with
        | TRIANGLES => withIndexList g (Some (trianglesToLines indices))
        | TRIANGLE_STRIP => withIndexList g (Some (triangleStripToLines indices))
        | TRIANGLE_FAN => withIndexList g (Some (triangleFanToLines indices))
        | _ => g
        end in
      withPrimitiveType g1 LINES
  | None => g
  end.

End ToWireframe.

(** ** reorderForPreVertexCache *)

Section ReorderForPreVertexCache.
Context `{Imports}.

(** Modelled from the spec: the vertex count of one attribute (for
    Geometry.computeNumberOfVertices, see below),
    [values.length / componentsPerAttribute], defined when the length is a
    multiple of the component count. *)
Definition attributeVertexCount (a : GeometryAttribute) (vs : list (option float)) : option Z :=
  let c := Z.of_nat (componentsPerAttribute a) in
  if decide (c ≠ 0 ∧ len vs `mod` c = 0) then Some (len vs / c) else None.

(** Modelled from the spec: one attribute of the loop of
    Geometry.computeNumberOfVertices (see below); [n] is the vertex count of
    the attributes seen so far, if any had values. *)
Definition countStep (n : option Z) (p : string * GeometryAttribute) : result (option Z) :=
  match values p.2 with
  | None => Return n
  | Some vs =>
      match attributeVertexCount p.2 vs, n with
      | None, _ =>
          Throw (DeveloperError "All attribute lists must have the same number of attributes.")
      | Some num, None => Return (Some num)
      | Some num, Some m =>
          if decide (m = num) then Return (Some num)
          else Throw (DeveloperError "All attribute lists must have the same number of attributes.")
      end
  end.

(** Modelled from the spec: Geometry.computeNumberOfVertices (Geometry.js is
    not among the sources). The number N of vertices is attribute length /
    components; every attribute's length is a multiple of its component
    count and all attributes that have values agree on the vertex count,
    a violation being a contract error. A geometry none of whose attributes
    has values has no vertex. *)
Definition computeNumberOfVertices (g : Geometry) : result Z :=
  n ← foldM countStep None (attributes g);
  Return (default 0 n).

(** The variables of the scan over the index list. *)
Record Scan : Type := mkScan {
  indexCrossReferenceOldToNew : list (option Z);
  indicesOut : list (option Z);
  intoIndicesOut : Z;
  nextIndex : Z
}.

(** [tempIndex >= numVertices] for a [tempIndex] that may be [undefined]. *)
Definition geNumber (v : option Z) (n : Z) : bool :=
  match v with
  | Some i => bool_decide (n ≤ i)
  | None => false
  end.

(** [a[k] = v] where the key is a JavaScript value; the key [undefined] names
    a property that is not an element. *)
Definition setAt {A : Type} (a : list (option A)) (k : option Z) (v : option A) : list (option A) :=
  match k with
  | Some i => JS.set a i v
  | None => a
  end.

(** One turn of [while (intoIndicesIn < numIndices)]; [index] is
    [indicesIn[intoIndicesIn]]. *)
Definition scanStep (numVertices : Z) (s : Scan) (index : option Z) : result Scan :=
  let tempIndex := get (indexCrossReferenceOldToNew s) index in
  if decide (tempIndex ≠ Some (-1)) then
    Return (mkScan (indexCrossReferenceOldToNew s)
                   (JS.set (indicesOut s) (intoIndicesOut s) tempIndex)
                   (intoIndicesOut s + 1)
                   (nextIndex s))
  else
    let tempIndex := index in
    if geNumber tempIndex numVertices then
      Throw (DeveloperError "Each attribute array in geometry.attributes must have the same number of attributes.")
    else
      Return (mkScan (setAt (indexCrossReferenceOldToNew s) tempIndex (Some (nextIndex s)))
                     (JS.set (indicesOut s) (intoIndicesOut s) (Some (nextIndex s)))
                     (intoIndicesOut s + 1)
                     (nextIndex s + 1)).

Definition scanStart (numVertices : Z) : Scan :=
  mkScan (replicate (Z.to_nat numVertices) (Some (-1))) [] 0 0.

(** The inner loop over the components of one vertex:
    [elementsOut[numComponents * temp + i] = elementsIn[numComponents * intoElementsIn + i]]. *)
Definition moveVertex (numComponents : Z) (elementsIn : list (option float))
    (temp : option Z) (intoElementsIn : Z) (elementsOut : list (option float))
  : list (option float) :=
  foldl (λ out i,
           match temp with
           | Some t => JS.set out (numComponents * t + i)
                              (get elementsIn (Some (numComponents * intoElementsIn + i)))
           | None => out
           end)
        elementsOut (range 0 numComponents).

(** [while (intoElementsIn < numVertices)] for one attribute. *)
Definition reorderValues (numVertices : Z) (cross : list (option Z))
    (numComponents : Z) (elementsIn : list (option float)) : list (option float) :=
  foldl (λ elementsOut intoElementsIn,
           moveVertex numComponents elementsIn (get cross (Some intoElementsIn))
                      intoElementsIn elementsOut)
        [] (range 0 numVertices).

Definition reorderAttribute (numVertices : Z) (cross : list (option Z))
    (a : GeometryAttribute) : GeometryAttribute :=
  match values a with
  | Some elementsIn =>
      withValues a (Some (reorderValues numVertices cross
                                        (Z.of_nat (componentsPerAttribute a)) elementsIn))
  | None => a
  end.

Definition reorderForPreVertexCache (g : Geometry) : result Geometry :=
  numVertices ← computeNumberOfVertices g;
  let start := scanStart numVertices in
  '(cross, g1) ← match indexList g with
                  | Some indicesIn =>
                      s ← foldM (scanStep numVertices) start indicesIn;
                      Return (indexCrossReferenceOldToNew s,
                              withIndexList g (Some (indicesOut s)))
                  | None => Return (indexCrossReferenceOldToNew start, g)
                  end;
  Return (withAttributes g1
            (prod_map id (reorderAttribute numVertices cross) <$> attributes g1)).

End ReorderForPreVertexCache.

(** ** reorderForPostVertexCache *)

Section ReorderForPostVertexCache.
Context `{Imports}.

(** [indices[j] > maximumIndex]; a comparison with [undefined] is false. *)
Definition gtNumber (v : option Z) (n : Z) : bool :=
  match v with
  | Some i => bool_decide (n < i)
  | None => false
  end.

Definition maximumIndexOf (indices : list (option Z)) : Z :=
  foldl (λ maximumIndex v, if gtNumber v maximumIndex then default maximumIndex v else maximumIndex)
        0 indices.

Definition reorderForPostVertexCache (g : Geometry) (cacheCapacity : option Z)
  : result Geometry :=
  match indexList g with
  | Some indices =>
      if decide (primitiveType g = TRIANGLES) then
        reordered ← Tipsify_tipsify indices (maximumIndexOf indices) cacheCapacity;
        Return (withIndexList g (Some reordered))
      else Return g
  | None => Return g
  end.

End ReorderForPostVertexCache.

(** ** fitToUnsignedShortIndices *)

Section FitToUnsignedShortIndices.
Context `{Imports}.

Definition copyAttributesDescriptions (attrs : list (string * GeometryAttribute))
  : list (string * GeometryAttribute) :=
  foldl (λ newAttributes p,
           match values p.2 with
           | Some _ =>
               setAttribute p.1
                 (mkGeometryAttribute (componentDatatype p.2) (componentsPerAttribute p.2)
                                      (normalize p.2) (Some []))
                 newAttributes
           | None => newAttributes
           end)
        [] attrs.

(** [destinationAttributes[name].values.push(v)]; a [TypeError] when the
    destination has no such attribute or the attribute has no values. *)
Fixpoint pushValue (name : string) (v : option float)
    (dest : list (string * GeometryAttribute)) : result (list (string * GeometryAttribute)) :=
  match dest with
  | [] => Throw TypeError
  | (n, a) :: dest' =>
      if decide (n = name) then
        match values a with
        | Some vs => Return ((n, withValues a (Some (vs ++ [v]))) :: dest')
        | None => Throw TypeError
        end
      else
        d ← pushValue name v dest';
        Return ((n, a) :: d)
  end.

(** [attr.values[(index * attr.componentsPerAttribute) + k]]; with [index]
    [undefined] the key is [NaN] and the read is [undefined]. *)
Definition componentOf (vs : list (option float)) (index : option Z) (c k : Z) : option float :=
  get vs ((λ i, i * c + k) <$> index).

Definition copyVertex (destinationAttributes sourceAttributes : list (string * GeometryAttribute))
    (index : option Z) : result (list (string * GeometryAttribute)) :=
  foldM (λ dest p,
           match values p.2 with
           | Some vs =>
               let c := Z.of_nat (componentsPerAttribute p.2) in
               foldM (λ d k, pushValue p.1 (componentOf vs index c k) d) dest (range 0 c)
           | None => Return dest
           end)
        destinationAttributes sourceAttributes.

(** The variables of the splitting loop. [oldToNewIndex] is a sparse
    array: its keys are the values read from the index list, [undefined]
    among them. *)
Record Split : Type := mkSplit {
  oldToNewIndex : gmap (option Z) Z;
  newIndices : list (option Z);
  currentIndex : Z;
  newAttributes : list (string * GeometryAttribute);
  geometries : list Geometry
}.

Section Loop.
Variable sixtyFourK : Z.
Variable indicesPerPrimitive : Z.
Variable g : Geometry.
Variable originalIndices : list (option Z).

(** The body of [for (k = 0; k < indicesPerPrimitive; ++k)]. *)
Definition splitIndex (j : Z) (s : Split) (k : Z) : result Split :=
  let x := get originalIndices (Some (j + k)) in
  match oldToNewIndex s !! x with
  | Some i =>
      Return (mkSplit (oldToNewIndex s) (newIndices s ++ [Some i]) (currentIndex s)
                      (newAttributes s) (geometries s))
  | None =>
      let i := currentIndex s in
      attrs ← copyVertex (newAttributes s) (attributes g) x;
      Return (mkSplit (<[x := i]> (oldToNewIndex s)) (newIndices s ++ [Some i])
                      (currentIndex s + 1) attrs (geometries s))
  end.

(** The body of [for (j = 0; j < numberOfIndices; j += indicesPerPrimitive)]. *)
Definition splitPrimitive (s : Split) (j : Z) : result Split :=
  s1 ← foldM (splitIndex j) s (range 0 indicesPerPrimitive);
  if decide (currentIndex s1 + indicesPerPrimitive > sixtyFourK) then
    Return (mkSplit ∅ [] 0 (copyAttributesDescriptions (attributes g))
                    (geometries s1 ++
                       [mkGeometry (newAttributes s1) (Some (newIndices s1))
                                   (primitiveType g) None]))
  else Return s1.

(** The values [0, indicesPerPrimitive, 2 * indicesPerPrimitive, ...] that
    [j] takes below [numberOfIndices]. *)
Definition primitiveStarts (numberOfIndices : Z) : list Z :=
  (λ q, q * indicesPerPrimitive)
    <$> range 0 ((numberOfIndices + indicesPerPrimitive - 1) / indicesPerPrimitive).

Definition split : result (list Geometry) :=
  s ← foldM splitPrimitive
            (mkSplit ∅ [] 0 (copyAttributesDescriptions (attributes g)) [])
            (primitiveStarts (len originalIndices));
  if decide (len (newIndices s) ≠ 0) then
    Return (geometries s ++
              [mkGeometry (newAttributes s) (Some (newIndices s)) (primitiveType g) None])
  else Return (geometries s).

End Loop.

Definition indicesPerPrimitiveOf (t : PrimitiveType) : option Z :=
  match t with
  | TRIANGLES => Some 3
  | LINES => Some 2
  | POINTS => Some 1
  | _ => None
  end.

Definition fitToUnsignedShortIndices (g : Geometry) : result (list Geometry) :=
  match indexList g with
  | Some originalIndices =>
      match indicesPerPrimitiveOf (primitiveType g) with
      | None =>
          Throw (DeveloperError "geometry.primitiveType must equal to PrimitiveType.TRIANGLES, PrimitiveType.LINES, or PrimitiveType.POINTS.")
      | Some indicesPerPrimitive =>
          numberOfVertices ← computeNumberOfVertices g;
          let sixtyFourK := 64 * 1024 in
          if decide (numberOfVertices > sixtyFourK) then
            split sixtyFourK indicesPerPrimitive g originalIndices
          else Return [g]
      end
  | None =>
      numberOfVertices ← computeNumberOfVertices g;
      Return [g]
  end.

End FitToUnsignedShortIndices.

(** ** combine *)

(** The numbers that [combine] computes for its vertex offset. The quotient
    [values.length / componentsPerAttribute] is kept exact, as a double holds
    it whenever it is an integer; a division by zero and a sum with
    [undefined] give [Infinity] or [NaN], which a store into an integer typed
    array turns into 0 alike. *)
Module Number.

Inductive number : Type :=
| Finite (q : Q)
| NotFinite.

Definition ofZ (i : Z) : number := Finite (inject_Z i).

Definition add (a b : number) : number :=
  match a, b with
  | Finite p, Finite q => Finite (Qplus p q)
  | _, _ => NotFinite
  end.

(** [a + v] where [v] may be [undefined] *)
Definition addValue (a : number) (v : option Z) : number :=
  match v with
  | Some i => add a (ofZ i)
  | None => NotFinite
  end.

(** [length / count] for a length and a count that are not negative *)
Definition divide (length : Z) (count : nat) : number :=
  match count with
  | O => NotFinite
  | S _ => Finite (Qmake length (Pos.of_nat count))
  end.

(** The conversion of a store into a [Uint16Array] ([bits = 16]) or a
    [Uint32Array] ([bits = 32]): truncate, then wrap around. *)
Definition toUint (bits : Z) (a : number) : Z :=
  match a with
  | Finite q => Z.quot (Qnum q) (Zpos (Qden q)) `mod` 2 ^ bits
  | NotFinite => 0
  end.

Global Arguments ofZ : simpl never.
Global Arguments add : simpl never.
Global Arguments addValue : simpl never.
Global Arguments divide : simpl never.
Global Arguments toUint : simpl never.

End Number.

Section Combine.
Context `{Imports}.

(** [datatype.createTypedArray(n)] *)
Definition createTypedArray (datatype : ComponentDatatype) (n : Z) : list (option float) :=
  replicate (Z.to_nat n) (typedArrayInitial datatype).

(** [o.values.length] for an attribute [o]; a [TypeError] without values. *)
Definition valuesLength (a : GeometryAttribute) : result Z :=
  match values a with
  | Some vs => Return (len vs)
  | None => Throw TypeError
  end.

(** [for (i = 1; i < length; ++i)] of findAttributesInAllGeometries over the
    instances after the first: the total number of components when the
    attribute is in all geometries, [None] after the [break]. *)
Fixpoint inAllGeometries (name : string) (attribute : GeometryAttribute)
    (numberOfComponents : Z) (others : list GeometryInstance) : result (option Z) :=
  match others with
  | [] => Return (Some numberOfComponents)
  | instance :: others' =>
      match lookupAttribute name (attributes (geometry instance)) with
      | None => Return None
      | Some otherAttribute =>
          if decide (componentDatatype attribute ≠ componentDatatype otherAttribute
                     ∨ componentsPerAttribute attribute ≠ componentsPerAttribute otherAttribute
                     ∨ normalize attribute ≠ normalize otherAttribute)
          then Return None
          else
            n ← valuesLength otherAttribute;
            inAllGeometries name attribute (numberOfComponents + n) others'
      end
  end.

Definition findAttributesInAllGeometries (instance0 : GeometryInstance)
    (others : list GeometryInstance) : result (list (string * GeometryAttribute)) :=
  foldM (λ attributesInAllGeometries p,
           numberOfComponents ← valuesLength p.2;
           found ← inAllGeometries p.1 p.2 numberOfComponents others;
           match found with
           | Some n =>
               Return (setAttribute p.1
                         (mkGeometryAttribute (componentDatatype p.2) (componentsPerAttribute p.2)
                            (normalize p.2)
                            (Some (createTypedArray (componentDatatype p.2) n)))
                         attributesInAllGeometries)
           | None => Return attributesInAllGeometries
           end)
        [] (attributes (geometry instance0)).

(** [for (j = 0; j < sourceValuesLength; ++j) values[k++] = sourceValues[j]]
    into the typed array [values]; the result is the array and [k]. *)
Definition copyValues (datatype : ComponentDatatype) (sourceValues : list (option float))
    (acc : list (option float) * Z) : list (option float) * Z :=
  foldl (λ '(values, k) v, (setFixed values k (typedArrayStore datatype v), k + 1))
        acc sourceValues.

(** The loop over the instances for the attribute [name]. *)
Definition combineValues (name : string) (a : GeometryAttribute)
    (instances : list GeometryInstance) : result GeometryAttribute :=
  match values a with
  | None => Throw TypeError
  | Some values0 =>
      r ← foldM (λ acc instance,
                   match lookupAttribute name (attributes (geometry instance)) with
                   | Some source =>
                       match values source with
                       | Some sourceValues =>
                           Return (copyValues (componentDatatype a) sourceValues acc)
                       | None => Throw TypeError
                       end
                   | None => Throw TypeError
                   end)
                (values0, 0) instances;
      Return (withValues a (Some r.1))
  end.

(** The entries of [indexListsByPrimitiveType]. The typed array of an entry
    is shared with [combinedIndexLists], which is modelled as the list of
    the keys whose arrays it holds. *)
Record IndexBucket : Type := mkIndexBucket {
  bucketBits : Z;
  bucketValues : list (option Z);
  currentOffset : Z
}.

(** [map[key]] and [map[key] = v] for an object keyed by primitive type *)
Fixpoint lookupType {A : Type} (key : PrimitiveType) (m : list (PrimitiveType * A)) : option A :=
  match m with
  | [] => undefined
  | (k, v) :: m' => if decide (k = key) then Some v else lookupType key m'
  end.

Fixpoint setType {A : Type} (key : PrimitiveType) (v : A) (m : list (PrimitiveType * A))
  : list (PrimitiveType * A) :=
  match m with
  | [] => [(key, v)]
  | (k, w) :: m' => if decide (k = key) then (k, v) :: m' else (k, w) :: setType key v m'
  end.

(** "First, determine the size of a typed array per primitive type" *)
Definition countIndices (type0 : PrimitiveType) (instances : list GeometryInstance)
  : result (list (PrimitiveType * Z)) :=
  foldM (λ numberOfIndices instance,
           match indexList (geometry instance) with
           | None => Throw TypeError
           | Some indices =>
               Return (setType type0
                         (match lookupType type0 numberOfIndices with
                          | Some n => n + len indices
                          | None => len indices
                          end)
                         numberOfIndices)
           end)
        [] instances.

(** "Next, allocate a typed array for indices per primitive type" *)
Definition allocateIndexLists (numberOfIndices : list (PrimitiveType * Z))
  : list PrimitiveType * list (PrimitiveType * IndexBucket) :=
  foldl (λ '(combinedIndexLists, indexListsByPrimitiveType) p,
           let num := p.2 in
           let bits := if decide (num < 60 * 1024) then 16 else 32 in
           (combinedIndexLists ++ [p.1],
            setType p.1 (mkIndexBucket bits (replicate (Z.to_nat num) (Some 0)) 0)
                    indexListsByPrimitiveType))
        ([], []) numberOfIndices.

(** [for (k = 0; k < sourceValuesLength; ++k) destValues[n++] = offset + sourceValues[k]] *)
Definition copyIndices (offset : Number.number) (sourceValues : list (option Z))
    (b : IndexBucket) : IndexBucket :=
  foldl (λ b v,
           mkIndexBucket (bucketBits b)
             (setFixed (bucketValues b) (currentOffset b)
                       (Some (Number.toUint (bucketBits b) (Number.addValue offset v))))
             (currentOffset b + 1))
        b sourceValues.

(** The vertex count of the first attribute of the instance, by which the
    offset grows ([break] after the first property). *)
Definition firstAttributeVertexCount (attrs : list (string * GeometryAttribute))
  : result (option Number.number) :=
  match attrs with
  | [] => Return None
  | (_, a) :: _ =>
      n ← valuesLength a;
      Return (Some (Number.divide n (componentsPerAttribute a)))
  end.

(** "Finally, combine index lists with the same primitive type" *)
Definition combineIndices (type0 : PrimitiveType) (instances : list GeometryInstance)
    (indexListsByPrimitiveType : list (PrimitiveType * IndexBucket))
  : result (list (PrimitiveType * IndexBucket)) :=
  r ← foldM (λ '(buckets, offset) instance,
               match indexList (geometry instance), lookupType type0 buckets with
               | Some sourceValues, Some b =>
                   let buckets' := setType type0 (copyIndices offset sourceValues b) buckets in
                   count ← firstAttributeVertexCount (attributes (geometry instance));
                   Return (buckets', default offset (Number.add offset <$> count))
               | _, _ => Throw TypeError
               end)
            (indexListsByPrimitiveType, Number.ofZ 0) instances;
  Return r.1.

(** The bounding sphere that includes all instances; [undefined] as soon as
    one instance has none. *)
Fixpoint combineBoundingSpheres (sphere : option BoundingSphere)
    (instances : list GeometryInstance) : option BoundingSphere :=
  match instances with
  | [] => sphere
  | instance :: instances' =>
      match boundingSphere (geometry instance) with
      | None => undefined
      | Some bs =>
          combineBoundingSpheres
            (Some (match sphere with
                   | None => BoundingSphere_clone bs
                   | Some acc => BoundingSphere_union acc bs
                   end))
            instances'
      end
  end.

(** The index buffers that [combinedIndexLists] holds when [combine]
    returns, in order. *)
Definition combinedIndexLists (instances : list GeometryInstance)
  : result (list (list (option Z))) :=
  match instances with
  | [] => Throw (DeveloperError "instances is required and must have length greater than zero.")
  | instance0 :: _ =>
      let type0 := primitiveType (geometry instance0) in
      numberOfIndices ← countIndices type0 instances;
      let '(keys, buckets) := allocateIndexLists numberOfIndices in
      buckets' ← combineIndices type0 instances buckets;
      Return (omap (λ key, bucketValues <$> lookupType key buckets') keys)
  end.

Definition combine (instances : list GeometryInstance) : result Geometry :=
  match instances with
  | [] => Throw (DeveloperError "instances is required and must have length greater than zero.")
  | [instance0] => Return (geometry instance0)
  | instance0 :: others =>
      if forallb (λ instance, Matrix4_equals (modelMatrix instance) (modelMatrix instance0)) others
      then
        found ← findAttributesInAllGeometries instance0 others;
        combined ← foldM (λ attrs p,
                              a ← combineValues p.1 p.2 instances;
                              Return (attrs ++ [(p.1, a)]))
                           [] found;
        lists ← combinedIndexLists instances;
        Return (mkGeometry combined (head lists)
                           (primitiveType (geometry instance0))
                           (combineBoundingSpheres None instances))
      else Throw (DeveloperError "All instances must have the same modelMatrix.")
  end.

End Combine.

(** ** computeNormal *)

Section ComputeNormal.
Context `{Imports}.

(** The entries of [normalsPerVertex]. *)
Record VertexNormalData : Type := mkVertexNormalData {
  indexOffset : Z;
  count : Z;
  currentCount : Z
}.

(** [a[k]] where the element is then dereferenced: a [TypeError] when it is
    [undefined]. *)
Definition getObject {A : Type} (a : list (option A)) (k : option Z) : result A :=
  match get a k with
  | Some o => Return o
  | None => Throw TypeError
  end.

(** [a[k].field = ...] on the object [a[k]] *)
Definition updateObject {A : Type} (a : list (option A)) (k : option Z) (f : A → A)
  : result (list (option A)) :=
  o ← getObject a k;
  Return (setAt a k (Some (f o))).

(** [v.x = vertices[i3]; v.y = vertices[i3 + 1]; v.z = vertices[i3 + 2]] *)
Definition readVertex (vertices : list (option float)) (i : option Z) : Cartesian3 :=
  mkCartesian3 (get vertices ((λ i, i * 3) <$> i))
               (get vertices ((λ i, i * 3 + 1) <$> i))
               (get vertices ((λ i, i * 3 + 2) <$> i)).

Definition incrementCount (d : VertexNormalData) : VertexNormalData :=
  mkVertexNormalData (indexOffset d) (count d + 1) (currentCount d).

Definition incrementCurrentCount (d : VertexNormalData) : VertexNormalData :=
  mkVertexNormalData (indexOffset d) (count d) (currentCount d + 1).

Section Loops.
Variable vertices : list (option float).
Variable indices : list (option Z).

(** First loop: the face normal of every triangle and the number of
    triangles of every vertex. The state is [normalsPerVertex],
    [normalsPerTriangle]; [j] is the number of the triangle. *)
Definition faceStep (s : list (option VertexNormalData) * list (option Cartesian3)) (j : Z)
  : result (list (option VertexNormalData) * list (option Cartesian3)) :=
  let i := 3 * j in
  let i0 := get indices (Some i) in
  let i1 := get indices (Some (i + 1)) in
  let i2 := get indices (Some (i + 2)) in
  let v0 := readVertex vertices i0 in
  let v1 := readVertex vertices i1 in
  let v2 := readVertex vertices i2 in
  n0 ← updateObject s.1 i0 incrementCount;
  n1 ← updateObject n0 i1 incrementCount;
  n2 ← updateObject n1 i2 incrementCount;
  let v1 := Cartesian3_subtract v1 v0 in
  let v2 := Cartesian3_subtract v2 v0 in
  Return (n2, JS.set s.2 j (Some (Cartesian3_cross v1 v2))).

(** Second loop: the running sum of the counts. *)
Definition offsetStep (s : list (option VertexNormalData) * Z) (i : Z)
  : result (list (option VertexNormalData) * Z) :=
  d ← getObject s.1 (Some i);
  let d' := mkVertexNormalData (indexOffset d + s.2) (count d) (currentCount d) in
  Return (JS.set s.1 i (Some d'), s.2 + count d').

(** Third loop, for one corner of triangle [j]:
    [normalIndices[indexOffset + currentCount] = j; currentCount++]. *)
Definition cornerStep (j : Z) (s : list (option VertexNormalData) * list (option Z))
    (corner : Z) : result (list (option VertexNormalData) * list (option Z)) :=
  let k := get indices (Some (3 * j + corner)) in
  d ← getObject s.1 k;
  let index := indexOffset d + currentCount d in
  Return (setAt s.1 k (Some (incrementCurrentCount d)), JS.set s.2 index (Some j)).

Definition indexStep (s : list (option VertexNormalData) * list (option Z)) (j : Z)
  : result (list (option VertexNormalData) * list (option Z)) :=
  foldM (cornerStep j) s [0; 1; 2].

(** Last loop, for vertex [i]: the normal written at [i * 3]. *)
Definition vertexNormal (normalsPerTriangle : list (option Cartesian3))
    (normalIndices : list (option Z)) (d : VertexNormalData) : result Cartesian3 :=
  if decide (count d > 0) then
    normal ← foldM (λ normal j,
                      n ← getObject normalsPerTriangle
                                    (get normalIndices (Some (indexOffset d + j)));
                      Return (Cartesian3_add normal n))
                   Cartesian3_ZERO (range 0 (count d));
    Return (Cartesian3_normalize normal)
  else Return (mkCartesian3 (Some 0%float) (Some 0%float) (Some 1%float)).

Definition normalStep (normalsPerVertex : list (option VertexNormalData))
    (normalsPerTriangle : list (option Cartesian3)) (normalIndices : list (option Z))
    (normalValues : option (list (option float))) (i : Z)
  : result (option (list (option float))) :=
  let i3 := i * 3 in
  d ← getObject normalsPerVertex (Some i);
  normal ← vertexNormal normalsPerTriangle normalIndices d;
  match normalValues with
  | Some vs =>
      Return (Some (JS.set (JS.set (JS.set vs i3 (x normal)) (i3 + 1) (y normal))
                           (i3 + 2) (z normal)))
  | None => Throw TypeError
  end.

Definition computeNormals (normalValues : option (list (option float)))
  : result (option (list (option float))) :=
  let numVertices := len vertices / 3 in
  let numIndices := len indices in
  let normalsPerVertex :=
    replicate (Z.to_nat numVertices) (Some (mkVertexNormalData 0 0 0)) in
  let normalsPerTriangle := replicate (Z.to_nat (numIndices / 3)) undefined in
  let normalIndices := replicate (Z.to_nat numIndices) undefined in
  s1 ← foldM faceStep (normalsPerVertex, normalsPerTriangle) (range 0 (numIndices / 3));
  s2 ← foldM offsetStep (s1.1, 0) (range 0 numVertices);
  s3 ← foldM indexStep (s2.1, normalIndices) (range 0 (numIndices / 3));
  foldM (normalStep s3.1 s1.2 s3.2) normalValues (range 0 numVertices).

End Loops.

Definition computeNormal (g : Geometry) : result Geometry :=
  match lookupAttribute "position" (attributes g) with
  | None => Throw (DeveloperError "geometry.attributes.position.values is required")
  | Some position =>
      match values position with
      | None => Throw (DeveloperError "geometry.attributes.position.values is required")
      | Some vertices =>
          if decide (componentsPerAttribute position ≠ 3%nat ∨ len vertices `mod` 3 ≠ 0) then
            Throw (DeveloperError "geometry.attributes.position.values.length must be a multiple of 3")
          else
            match indexList g with
            | None => Return g
            | Some indices =>
                if decide (primitiveType g ≠ TRIANGLES ∨ len indices < 2
                           ∨ len indices `mod` 3 ≠ 0) then Return g
                else
                  let numVertices := len vertices / 3 in
                  let normal :=
                    match lookupAttribute "normal" (attributes g) with
                    | Some normal => normal
                    | None =>
                        mkGeometryAttribute FLOAT 3 false
                          (Some (replicate (Z.to_nat (numVertices * 3)) undefined))
                    end in
                  normalValues ← computeNormals vertices indices (values normal);
                  Return (withAttributes g
                            (setAttribute "normal" (withValues normal normalValues)
                                          (attributes g)))
            end
      end
  end.

End ComputeNormal.

(** ** First-reference order *)

(** The distinct values of an index list, in the order of their first
    occurrence. *)
Definition firstSeen (l : list Z) : list Z :=
  foldl (λ seen i, if decide (i ∈ seen) then seen else seen ++ [i]) [] l.

(** The position of the first occurrence of [i] in [l]. *)
Fixpoint indexOf (i : Z) (l : list Z) : option Z :=
  match l with
  | [] => None
  | j :: l' => if decide (j = i) then Some 0 else Z.succ <$> indexOf i l'
  end.

(** The rank of the first occurrence of [i] in the index list [l]: the number
    of distinct values that occur in [l] before [i] does. *)
Definition firstReferenceRank (l : list Z) (i : Z) : option Z :=
  indexOf i (firstSeen l).

(** The cross reference that the scan of [l] leaves for [numVertices]
    vertices: the rank of every referenced vertex, -1 for the others. *)
Definition crossReference (numVertices : Z) (l : list Z) : list (option Z) :=
  (λ i, Some (default (-1) (firstReferenceRank l i))) <$> range 0 numVertices.

Section PreVertexCacheDefinitions.
Context `{Imports}.

(** What the scan has computed once it has read the index list [l]. *)
Record ScanInv (N : Z) (l : list Z) (s : Scan) : Prop := mkScanInv {
  inv_cross : indexCrossReferenceOldToNew s = crossReference N l;
  inv_out : indicesOut s = firstReferenceRank l <$> l;
  inv_into : intoIndicesOut s = len l;
  inv_next : nextIndex s = len (firstSeen l)
}.

(** The loop of [moveVertex] over the components [cs], for a defined slot [t]. *)
Definition moveComponents (nc : Z) (vs : list (option float)) (t i : Z)
    (out : list (option float)) (cs : list Z) : list (option float) :=
  foldl (λ out c, JS.set out (nc * t + c) (get vs (Some (nc * i + c)))) out cs.

(** The loop over the old vertices [ws], from the array [out]. *)
Definition moveVertices (nc : Z) (vs : list (option float)) (cross : list (option Z))
    (out : list (option float)) (ws : list Z) : list (option float) :=
  foldl (λ elementsOut i, moveVertex nc vs (get cross (Some i)) i elementsOut) out ws.

(** The closed form of the result on an index list that references
    existing vertices only. *)
Definition reordered (g : Geometry) (N : Z) (l : list Z) : Geometry :=
  mkGeometry (prod_map id (reorderAttribute N (crossReference N l)) <$> attributes g)
             (Some (firstReferenceRank l <$> l)) (primitiveType g) (boundingSphere g).

(** Every attribute that has values has [N] vertices. *)
Definition vertexCounts (N : Z) (attrs : list (string * GeometryAttribute)) : Prop :=
  Forall (λ p, ∀ vs, values p.2 = Some vs → attributeVertexCount p.2 vs = Some N) attrs.

End PreVertexCacheDefinitions.

(** The index list that the pass produces, as integers. *)
Definition renumbered (l : list Z) : list Z := (λ i, default 0 (firstReferenceRank l i)) <$> l.

(** ** An instance of the imports, for worked examples *)

Module Example.

Local Open Scope float_scope.

(** [ToNumber]: [undefined] converts to [NaN]. *)
Definition number (v : option float) : float := default nan v.

(** Modelled from the spec: Cartesian3.ZERO (Cartesian3.js is not among the
    sources), the zero vector from which the face normals are summed. *)
Definition ZERO : Cartesian3 := mkCartesian3 (Some 0) (Some 0) (Some 0).

(** Modelled from the spec: Cartesian3.add, the component-wise sum by which
    the face normals are accumulated. *)
Definition add (a b : Cartesian3) : Cartesian3 :=
  mkCartesian3 (Some (number (x a) + number (x b)))
               (Some (number (y a) + number (y b)))
               (Some (number (z a) + number (z b))).

(** Modelled from the spec: Cartesian3.subtract, the component-wise
    difference that gives the edges of a triangle. *)
Definition subtract (a b : Cartesian3) : Cartesian3 :=
  mkCartesian3 (Some (number (x a) - number (x b)))
               (Some (number (y a) - number (y b)))
               (Some (number (z a) - number (z b))).

(** Modelled from the spec: Cartesian3.cross, the cross product that gives
    the face normal, not normalized. *)
Definition cross (a b : Cartesian3) : Cartesian3 :=
  let '(ax, ay, az) := (number (x a), number (y a), number (z a)) in
  let '(bx, by', bz) := (number (x b), number (y b), number (z b)) in
  mkCartesian3 (Some (ay * bz - az * by'))
               (Some (az * bx - ax * bz))
               (Some (ax * by' - ay * bx)).

(** Modelled from the spec: Cartesian3.magnitude, the Euclidean length. *)
Definition magnitude (a : Cartesian3) : float :=
  let '(ax, ay, az) := (number (x a), number (y a), number (z a)) in
  sqrt (ax * ax + ay * ay + az * az).

(** Modelled from the spec: Cartesian3.normalize, the division of a vector
    by its magnitude. *)
Definition normalize (a : Cartesian3) : Cartesian3 :=
  let m := magnitude a in
  mkCartesian3 (Some (number (x a) / m)) (Some (number (y a) / m)) (Some (number (z a) / m)).

(** One component datatype, whose typed array holds doubles. *)
Inductive Datatype : Type := DOUBLE.

Global Instance Datatype_eq_dec : EqDecision Datatype.
Proof. solve_decision. Defined.

(** A matrix as the list of its components, compared component by
    component. *)
Definition matrixEquals (a b : list float) : bool :=
  bool_decide (length a = length b) && forallb (λ p, PrimFloat.eqb p.1 p.2) (zip a b).

(** A sphere as its center and radius; the union keeps the left sphere when
    it contains the right one and otherwise spans both. *)
Definition sphereUnion (a b : Cartesian3 * float) : Cartesian3 * float :=
  let toRight := subtract b.1 a.1 in
  let separation := magnitude toRight in
  if PrimFloat.leb (separation + b.2) a.2 then a
  else if PrimFloat.leb (separation + a.2) b.2 then b
  else
    let half := (a.2 + separation + b.2) * 0.5 in
    let s := (half - a.2) / separation in
    (add a.1 (mkCartesian3 (Some (number (x toRight) * s)) (Some (number (y toRight) * s))
                           (Some (number (z toRight) * s))),
     half).

(** A post-vertex-cache reordering that rejects a cache of fewer than three
    vertices and otherwise keeps the triangles in their order. *)
Definition tipsify (indices : list (option Z)) (maximumIndex : Z) (cacheSize : option Z)
  : result (list (option Z)) :=
  if bool_decide (default 24%Z cacheSize < 3)%Z
  then Throw (DeveloperError "cacheSize must be greater than two.")
  else Return indices.

Global Instance imports : Imports := {|
  ComponentDatatype := Datatype;
  FLOAT := DOUBLE;
  typedArrayInitial := λ _, Some 0;
  typedArrayStore := λ _ v, Some (number v);
  Matrix4 := list float;
  Matrix4_equals := matrixEquals;
  BoundingSphere := Cartesian3 * float;
  BoundingSphere_clone := id;
  BoundingSphere_union := sphereUnion;
  Tipsify_tipsify := tipsify;
  Cartesian3_ZERO := ZERO;
  Cartesian3_subtract := subtract;
  Cartesian3_cross := cross;
  Cartesian3_add := add;
  Cartesian3_normalize := normalize
|}.

(** Four vertices with one component each, referenced as [2, 2, 0, 1]. *)
Definition fourVertices : Geometry :=
  mkGeometry
    [("position"%string,
       mkGeometryAttribute DOUBLE 1 false (Some [Some 10; Some 11; Some 12; Some 13]))]
    (Some [Some 2; Some 2; Some 0; Some 1]%Z) TRIANGLES None.

(** The counter-clockwise triangle (0,0,0), (1,0,0), (0,1,0). *)
Definition trianglePosition : GeometryAttribute :=
  mkGeometryAttribute DOUBLE 3 false
    (Some [Some 0; Some 0; Some 0; Some 1; Some 0; Some 0; Some 0; Some 1; Some 0]).

Definition triangle : Geometry :=
  mkGeometry [("position"%string, trianglePosition)]
             (Some [Some 0; Some 1; Some 2]%Z) TRIANGLES None.

(** Four vertices of two components, every one referenced. *)
Definition quad : Geometry :=
  mkGeometry
    [("st"%string,
       mkGeometryAttribute DOUBLE 2 false
         (Some [Some 0; Some 0; Some 1; Some 0; Some 1; Some 1; Some 0; Some 1]));
     ("batchId"%string, mkGeometryAttribute DOUBLE 1 true None)]
    (Some [Some 2; Some 3; Some 0; Some 0; Some 3; Some 1]%Z) TRIANGLES None.

(** One vertex, and an index list that also names a vertex 5. *)
Definition outOfRange : Geometry :=
  mkGeometry
    [("position"%string, mkGeometryAttribute DOUBLE 1 false (Some [Some 10]))]
    (Some [Some 5; Some 0]%Z) POINTS None.

(** Three points with an index list. *)
Definition points : Geometry :=
  mkGeometry
    [("position"%string,
       mkGeometryAttribute DOUBLE 1 false (Some [Some 10; Some 11; Some 12]))]
    (Some [Some 0; Some 1; Some 2]%Z) POINTS None.

(** A line without an index list whose position has two components. *)
Definition flatLine : Geometry :=
  mkGeometry
    [("position"%string,
       mkGeometryAttribute DOUBLE 2 false (Some [Some 0; Some 0; Some 1; Some 1]))]
    None LINES None.

(** Two vertices of three components, joined by a line. *)
Definition segment : Geometry :=
  mkGeometry
    [("position"%string,
       mkGeometryAttribute DOUBLE 3 false
         (Some [Some 2; Some 0; Some 0; Some 3; Some 0; Some 0]))]
    (Some [Some 0; Some 1]%Z) LINES None.

(** Four vertices of three components, as two triangles. *)
Definition squarePosition : GeometryAttribute :=
  mkGeometryAttribute DOUBLE 3 false
    (Some [Some 0; Some 0; Some 1; Some 1; Some 0; Some 1;
           Some 1; Some 1; Some 1; Some 0; Some 1; Some 1]).

Definition square : Geometry :=
  mkGeometry [("position"%string, squarePosition)]
             (Some [Some 0; Some 1; Some 2; Some 0; Some 2; Some 3]%Z) TRIANGLES None.

(** 70002 vertices of one component, referenced in order by 23334
    triangles. *)
Definition bigMesh : Geometry :=
  mkGeometry
    [("position"%string,
       mkGeometryAttribute DOUBLE 1 false (Some (replicate (Z.to_nat 70002) (Some 0))))]
    (Some (Some <$> range 0 70002)) TRIANGLES None.

End Example.

(** ** Definitions for the splitting loop *)

Section SplitDefinitions.
Context `{Imports}.

(** [destinationAttributes[name].values] is an array. *)
Definition pushable (dest : list (string * GeometryAttribute)) (name : string) : Prop :=
  ∃ a vs, lookupAttribute name dest = Some a ∧ values a = Some vs.

(** The indices of an output geometry are numbers below [bound]. *)
Definition indicesBelow (bound : Z) (indices : list (option Z)) : Prop :=
  Forall (λ v, ∃ i, v = Some i ∧ 0 ≤ i < bound) indices.

(** What the splitting loop has computed when it has read the first
    [read] places of the index list, [seen] being the keys it found there;
    [room] bounds the vertices of the geometry under construction. *)
Record SplitInv (sixtyFourK : Z) (g : Geometry) (originalIndices : list (option Z))
    (room read : Z) (seen : gset (option Z)) (s : Split) : Prop := mkSplitInv {
  split_read : ∀ p, 0 ≤ p < read → get originalIndices (Some p) ∈ seen;
  split_dom : dom (oldToNewIndex s) ⊆ seen;
  split_size : Z.of_nat (size (oldToNewIndex s)) = currentIndex s;
  split_values : ∀ x i, oldToNewIndex s !! x = Some i → 0 ≤ i < currentIndex s;
  split_room : currentIndex s ≤ room;
  split_count : Z.of_nat (size seen) ≤ sixtyFourK * len (geometries s) + currentIndex s;
  split_new : indicesBelow (currentIndex s) (newIndices s);
  split_fresh : newIndices s = [] → currentIndex s = 0;
  split_geometries :
    Forall (λ g', ∃ l, indexList g' = Some l ∧ indicesBelow sixtyFourK l) (geometries s);
  split_attributes :
    Forall (λ p, is_Some (values p.2) → pushable (newAttributes s) p.1) (attributes g)
}.

End SplitDefinitions.

(** ** Definitions for computeNormal *)

(** The places of the index list [l], counted from [p], that hold the vertex
    [v]. *)
Fixpoint cornersFrom (p : Z) (v : Z) (l : list Z) : list Z :=
  match l with
  | [] => []
  | i :: l' => if decide (i = v) then p :: cornersFrom (p + 1) v l' else cornersFrom (p + 1) v l'
  end.

(** The triangles adjacent to the vertex [v], in the order of the index list,
    one entry for each corner that holds [v]. *)
Definition adjacentTriangles (l : list Z) (v : Z) : list Z :=
  (λ p, p `div` 3) <$> cornersFrom 0 v l.

(** The number of corners that hold [v]. *)
Definition cornerCount (l : list Z) (v : Z) : Z := len (cornersFrom 0 v l).

(** The number of corners that hold a vertex below [v]. *)
Definition cornersBelow (l : list Z) (v : Z) : Z :=
  foldr Z.add 0 (cornerCount l <$> range 0 v).

Section NormalDefinitions.
Context `{Imports}.

(** The face normal of triangle [j]: the cross product of its two edges
    from its first vertex, not normalized. *)
Definition faceNormal (vertices : list (option float)) (l : list Z) (j : Z) : Cartesian3 :=
  let v0 := readVertex vertices (get (Some <$> l) (Some (3 * j))) in
  let v1 := readVertex vertices (get (Some <$> l) (Some (3 * j + 1))) in
  let v2 := readVertex vertices (get (Some <$> l) (Some (3 * j + 2))) in
  Cartesian3_cross (Cartesian3_subtract v1 v0) (Cartesian3_subtract v2 v0).

(** The normal of the vertex [v]: the normalized sum of the face normals of
    its adjacent triangles, and (0, 0, 1) for a vertex of no triangle. *)
Definition expectedNormal (vertices : list (option float)) (l : list Z) (v : Z) : Cartesian3 :=
  match adjacentTriangles l v with
  | [] => mkCartesian3 (Some 0%float) (Some 0%float) (Some 1%float)
  | triangles =>
      Cartesian3_normalize
        (foldl Cartesian3_add Cartesian3_ZERO (faceNormal vertices l <$> triangles))
  end.

(** The normals of the vertices below [n] are written in [vs]. *)
Definition normalsWritten (vertices : list (option float)) (l : list Z) (n : Z)
    (vs : list (option float)) : Prop :=
  ∀ v, 0 ≤ v < n →
    get vs (Some (v * 3)) = x (expectedNormal vertices l v)
    ∧ get vs (Some (v * 3 + 1)) = y (expectedNormal vertices l v)
    ∧ get vs (Some (v * 3 + 2)) = z (expectedNormal vertices l v).

(** The state of the loops of [computeNormals] between their turns. *)
Record FaceInv (vertices : list (option float)) (l : list Z) (N j : Z)
    (s : list (option VertexNormalData) * list (option Cartesian3)) : Prop := mkFaceInv {
  face_len : len s.1 = N;
  face_count : ∀ v, 0 ≤ v < N →
    get s.1 (Some v) = Some (mkVertexNormalData 0 (cornerCount (take (Z.to_nat (3 * j)) l) v) 0);
  face_normal : ∀ j', 0 ≤ j' < j → get s.2 (Some j') = Some (faceNormal vertices l j')
}.

Record OffsetInv (l : list Z) (N i : Z) (s : list (option VertexNormalData) * Z)
  : Prop := mkOffsetInv {
  offset_len : len s.1 = N;
  offset_done : ∀ v, 0 ≤ v < i →
    get s.1 (Some v) = Some (mkVertexNormalData (cornersBelow l v) (cornerCount l v) 0);
  offset_todo : ∀ v, i ≤ v < N →
    get s.1 (Some v) = Some (mkVertexNormalData 0 (cornerCount l v) 0);
  offset_sum : s.2 = cornersBelow l i
}.

Record IndexInv (l : list Z) (N p : Z) (s : list (option VertexNormalData) * list (option Z))
  : Prop := mkIndexInv {
  index_len : len s.1 = N;
  index_count : ∀ v, 0 ≤ v < N →
    get s.1 (Some v)
    = Some (mkVertexNormalData (cornersBelow l v) (cornerCount l v)
                               (cornerCount (take (Z.to_nat p) l) v));
  index_triangle : ∀ v k q, 0 ≤ v < N →
    cornersFrom 0 v (take (Z.to_nat p) l) !! k = Some q →
    get s.2 (Some (cornersBelow l v + Z.of_nat k)) = Some (q `div` 3)
}.

End NormalDefinitions.

(** ** Triangles and their edges *)

(** The corners of a triangle as they lie in an index list, and the three
    line segments of its outline as [addTriangle] pushes them. *)
Definition triangleCorners (t : option Z * option Z * option Z) : list (option Z) :=
  [t.1.1; t.1.2; t.2].

Definition triangleEdges (t : option Z * option Z * option Z) : list (option Z) :=
  [t.1.1; t.1.2; t.1.2; t.2; t.2; t.1.1].

(** Triangle [k] of a strip, as [triangleStripToLines] reads it:
    the first three indices for the first triangle, then
    [(t[i - 1], t[i], t[i - 2])] with [i = k + 2]. *)
Definition stripTriangle (t : list (option Z)) (k : Z) : option Z * option Z * option Z :=
  if decide (k = 0) then (get t (Some 0), get t (Some 1), get t (Some 2))
  else (get t (Some (k + 1)), get t (Some (k + 2)), get t (Some k)).

(** Triangle [k] of a fan: the first index and the indices [k + 1], [k + 2]. *)
Definition fanTriangle (t : list (option Z)) (k : Z) : option Z * option Z * option Z :=
  (get t (Some 0), get t (Some (k + 1)), get t (Some (k + 2))).
(** ** createAttributeIndices *)

Section CreateAttributeIndices.
Context `{Imports}.

(** [indices] is an object used as a map from attribute names to numbers;
    the state of the loop is [indices] and [j]. *)
Definition createAttributeIndices (g : Geometry) : gmap string Z :=
  (foldl (λ '(indices, j) p, (<[p.1 := j]> indices, j + 1)) (∅, 0) (attributes g)).1.

End CreateAttributeIndices.
(** ** What a geometry draws *)

Section Corners.
Context `{Imports}.

(** The components that the attribute values [vs], [c] to a vertex, hold for
    the vertex [index]. *)
Definition vertexOf (vs : list (option float)) (c : nat) (index : option Z)
  : list (option float) :=
  componentOf vs index (Z.of_nat c) <$> range 0 (Z.of_nat c).

(** What a corner of a primitive that holds [index] reads: the vertex of
    every attribute that has values, by name. *)
Definition cornerOf (attrs : list (string * GeometryAttribute)) (index : option Z)
  : list (string * list (option float)) :=
  omap (λ p, (λ vs, (p.1, vertexOf vs (componentsPerAttribute p.2) index)) <$> values p.2)
       attrs.

(** The corners of the primitives of an indexed geometry, in the order of
    its index list. *)
Definition corners (g : Geometry) : list (list (string * list (option float))) :=
  cornerOf (attributes g) <$> default [] (indexList g).

End Corners.
(** ** Definitions for the corners of the split geometries *)

Section SplitCornersDefinitions.
Context `{Imports}.

(** The attributes of a geometry under construction that holds the vertices
    [keys] of the source attributes [attrs], in this order: what
    [copyAttributesDescriptions] and a [copyVertex] for every key leave. *)
Definition gathered (attrs : list (string * GeometryAttribute)) (keys : list (option Z))
  : list (string * GeometryAttribute) :=
  omap (λ p, (λ vs, (p.1, mkGeometryAttribute
                            (componentDatatype p.2) (componentsPerAttribute p.2)
                            (normalize p.2)
                            (Some (keys ≫= vertexOf vs (componentsPerAttribute p.2)))))
               <$> values p.2)
       attrs.

(** What the splitting loop has computed: the geometries it has sealed draw
    the corners of the indices [flushed]; the geometry under construction
    holds the vertices [keys] and its indices, for the indices [current]
    read since the last seal, name the places of these in [keys]. *)
Record SplitCorners (g : Geometry) (flushed current keys : list (option Z)) (s : Split)
  : Prop := mkSplitCorners {
  corners_flushed : concat (corners <$> geometries s) = cornerOf (attributes g) <$> flushed;
  corners_types :
    Forall (λ g', primitiveType g' = primitiveType g ∧ boundingSphere g' = None
                  ∧ (attributes g').*1 = (gathered (attributes g) []).*1)
           (geometries s);
  corners_keys : NoDup keys;
  corners_current : currentIndex s = len keys;
  corners_map : ∀ x i, oldToNewIndex s !! x = Some i ↔ 0 ≤ i ∧ keys !! Z.to_nat i = Some x;
  corners_attributes : newAttributes s = gathered (attributes g) keys;
  corners_indices :
    Forall2 (λ x v, ∃ i, v = Some i ∧ 0 ≤ i ∧ keys !! Z.to_nat i = Some x)
            current (newIndices s)
}.

End SplitCornersDefinitions.
(** ** Definitions for combine over any number of instances *)

Section CombineDefinitions.
Context `{Imports}.

(** Two attributes agree in datatype, component count and normalization. *)
Definition sameDescription (a0 a : GeometryAttribute) : Prop :=
  componentDatatype a0 = componentDatatype a
  ∧ componentsPerAttribute a0 = componentsPerAttribute a
  ∧ normalize a0 = normalize a.

(** The instance has an attribute [name] of the description of [a0]. *)
Definition inInstance (name : string) (a0 : GeometryAttribute) (instance : GeometryInstance)
  : Prop :=
  ∃ a, lookupAttribute name (attributes (geometry instance)) = Some a ∧ sameDescription a0 a.

(** The instance has an attribute [name] with the values [vs]. *)
Definition valuesIn (name : string) (instance : GeometryInstance) (vs : list (option float))
  : Prop :=
  ∃ a, lookupAttribute name (attributes (geometry instance)) = Some a ∧ values a = Some vs.

(** The instance has the index list [part.2], and its first attribute has
    [part.1] vertices. *)
Definition indexedPart (instance : GeometryInstance) (part : Z * list Z) : Prop :=
  indexList (geometry instance) = Some (Some <$> part.2)
  ∧ ∃ name a vs rest,
      attributes (geometry instance) = (name, a) :: rest
      ∧ values a = Some vs
      ∧ componentsPerAttribute a ≠ 0%nat
      ∧ len vs = Z.of_nat (componentsPerAttribute a) * part.1.

(** The attributes that [findAttributesInAllGeometries] returns, one for
    every attribute of the first instance that the loop over the other
    instances finds in all of them. *)
Definition foundAttribute (others : list GeometryInstance) (p : string * GeometryAttribute)
  : option (string * GeometryAttribute) :=
  match valuesLength p.2 with
  | Return n0 =>
      match inAllGeometries p.1 p.2 n0 others with
      | Return (Some n) =>
          Some (p.1, mkGeometryAttribute (componentDatatype p.2) (componentsPerAttribute p.2)
                       (normalize p.2) (Some (createTypedArray (componentDatatype p.2) n)))
      | _ => None
      end
  | Throw _ => None
  end.

End CombineDefinitions.

(** The index lists of the parts, each index raised by the number of
    vertices of the parts before it and stored in an unsigned integer of
    [bits] bits. *)
Fixpoint shifted (bits offset : Z) (parts : list (Z * list Z)) : list Z :=
  match parts with
  | [] => []
  | (n, l) :: parts' =>
      ((λ i, (offset + i) `mod` 2 ^ bits) <$> l) ++ shifted bits (offset + n) parts'
  end.

(** A number that is the integer [z]. *)
Definition integral (a : Number.number) (z : Z) : Prop :=
  ∃ q, a = Number.Finite q ∧ Qnum q = z * Zpos (Qden q).
(** ** Definitions for the index checks *)

(** The value [v] of an index list names one of [N] vertices. *)
Definition validIndex (N : Z) (v : option Z) : Prop := ∃ i, v = Some i ∧ 0 ≤ i < N.
(** ** Index lists with indices that name no vertex *)

(** The vertex that the value [v] of an index list names among [N]
    vertices, if any. *)
Definition vertexNamed (N : Z) (v : option Z) : option Z :=
  v ≫= λ i, if decide (0 ≤ i < N) then Some i else None.

(** The vertices that the index list names, in its order. *)
Definition referenced (N : Z) (indices : list (option Z)) : list Z :=
  omap (vertexNamed N) indices.

Section GeneralScanDefinitions.
Context `{Imports}.


End GeneralScanDefinitions.
(** ** encodeAttribute *)

(** The imported module EncodedCartesian3, whose source is not at hand.
    [EncodedCartesian3.encode(value, result)] writes to the object [result]:
    the field gives the [high] and the [low] that [result] holds after the
    call, from those it held before. *)
Class EncodedCartesian3 : Type := {
  EncodedCartesian3_encode :
    option float → option float * option float → result (option float * option float)
}.

Section EncodeAttribute.
Context `{Imports} `{EncodedCartesian3}.

(** [delete attributes[name]] *)
Definition deleteAttribute (name : string) (attrs : list (string * GeometryAttribute))
  : list (string * GeometryAttribute) :=
  filter (λ p, p.1 ≠ name) attrs.

(** One turn of the loop over the values; the state is the module's object
    [encodedResult] with [highValues] and [lowValues]. *)
Definition encodeStep (values : list (option float))
    (s : (option float * option float) * list (option float) * list (option float)) (i : Z)
  : result ((option float * option float) * list (option float) * list (option float)) :=
  encodedResult ← EncodedCartesian3_encode (get values (Some i)) s.1.1;
  Return (encodedResult, JS.set s.1.2 i encodedResult.1, JS.set s.2 i encodedResult.2).

(** [encodedResult] is a variable of the module that every call writes to:
    it is passed in and returned with the geometry. [new GeometryAttribute]
    is given no [normalize]; the record holds [false] for it. *)
Definition encodeAttribute (g : Geometry)
    (attributeName attributeHighName attributeLowName : option string)
    (encodedResult : option float * option float)
  : result (Geometry * (option float * option float)) :=
  let attributeName := default "position"%string attributeName in
  let attributeHighName := default "positionHigh"%string attributeHighName in
  let attributeLowName := default "positionLow"%string attributeLowName in
  match lookupAttribute attributeName (attributes g) with
  | None =>
      Throw (DeveloperError ("geometry must have attribute matching the attributeName argument: "
                             +:+ attributeName +:+ "."))
  | Some attribute =>
      if decide (componentDatatype attribute ≠ FLOAT) then
        Throw (DeveloperError "The attribute componentDatatype must be ComponentDatatype.FLOAT.")
      else
        match values attribute with
        | None => Throw TypeError
        | Some values =>
            let length := len values in
            s ← foldM (encodeStep values)
                      (encodedResult, replicate (Z.to_nat length) undefined,
                       replicate (Z.to_nat length) undefined)
                      (range 0 length);
            let highAttribute :=
              mkGeometryAttribute (componentDatatype attribute)
                                  (componentsPerAttribute attribute) false (Some s.1.2) in
            let lowAttribute :=
              mkGeometryAttribute (componentDatatype attribute)
                                  (componentsPerAttribute attribute) false (Some s.2) in
            Return (withAttributes g
                      (deleteAttribute attributeName
                         (setAttribute attributeLowName lowAttribute
                            (setAttribute attributeHighName highAttribute (attributes g)))),
                    s.1.1)
        end
  end.

End EncodeAttribute.
(** ** projectTo2D *)

(** The imported modules of the projection, whose sources are not at hand:
    the constructor of [Cartesian3], [GeographicProjection] and the
    projection's ellipsoid. A call that may throw returns a [result]. *)
Class Projecting : Type := {
  (** [new Cartesian3(x, y, z)] *)
  Cartesian3_new : option float → option float → option float → Cartesian3;
  Projection : Type;
  (** [new GeographicProjection()] *)
  GeographicProjection_new : Projection;
  Ellipsoid : Type;
  (** [projection.getEllipsoid()] *)
  Projection_getEllipsoid : Projection → result Ellipsoid;
  Cartographic : Type;
  (** [ellipsoid.cartesianToCartographic(cartesian)] *)
  Ellipsoid_cartesianToCartographic : Ellipsoid → Cartesian3 → result (option Cartographic);
  (** [projection.project(cartographic)], of which [x] and [y] are read *)
  Projection_project : Projection → option Cartographic → result Cartesian3
}.

Section ProjectTo2D.
Context `{Imports} `{Projecting}.

(** One turn of [for (i = 0; i < wgs84Positions.length; i += 3)]; [k] is
    the number of the turn. *)
Definition projectStep (projection : Projection) (ellipsoid : Ellipsoid)
    (wgs84Positions : list (option float)) (projectedPositions : list (option float)) (k : Z)
  : result (list (option float)) :=
  let i := 3 * k in
  lonLat ← Ellipsoid_cartesianToCartographic ellipsoid
              (Cartesian3_new (get wgs84Positions (Some i))
                              (get wgs84Positions (Some (i + 1)))
                              (get wgs84Positions (Some (i + 2))));
  projectedLonLat ← Projection_project projection lonLat;
  Return (projectedPositions ++ [x projectedLonLat; y projectedLonLat]).

(** [position2D] is an object literal without a [normalize] property; the
    record holds [false] for it. *)
Definition projectTo2D (g : Geometry) (projection : option Projection) : result Geometry :=
  match lookupAttribute "position" (attributes g) with
  | Some position =>
      let projection := default GeographicProjection_new projection in
      ellipsoid ← Projection_getEllipsoid projection;
      match values position with
      | None => Throw TypeError
      | Some wgs84Positions =>
          projectedPositions ←
            foldM (projectStep projection ellipsoid wgs84Positions) []
                  (range 0 ((len wgs84Positions + 2) / 3));
          Return (withAttributes g
                    (deleteAttribute "position"
                       (setAttribute "position2D"
                          (mkGeometryAttribute FLOAT 2 false (Some projectedPositions))
                          (setAttribute "position3D" position (attributes g)))))
      end
  | None => Return g
  end.

End ProjectTo2D.
(** ** computeTangentAndBinormal *)

(** The functions of the imported module Cartesian3 that
    computeTangentAndBinormal uses besides those of computeNormal. *)
Class TangentSpace : Type := {
  (** [Cartesian3.fromArray(values, offset, result)] *)
  Cartesian3_fromArray : list (option float) → Z → result Cartesian3;
  (** [left.dot(right)] *)
  Cartesian3_dot : Cartesian3 → Cartesian3 → option float;
  (** [cartesian.multiplyByScalar(scalar, result)] *)
  Cartesian3_multiplyByScalar : Cartesian3 → option float → Cartesian3
}.

(** [ToNumber] in an arithmetic expression: [undefined] becomes [NaN]. *)
Definition toNumber (v : option float) : float := default nan v.

(** [k * c] and [k + c] for a key [k] that may be [undefined]; the result
    is then [NaN], which names no element. *)
Definition keyTimes (k : option Z) (c : Z) : option Z := (λ i, i * c) <$> k.
Definition keyPlus (k : option Z) (c : Z) : option Z := (λ i, i + c) <$> k.

(** [a[k] += v]. Under a key that names no element (it is negative or
    [NaN]) the sum is [NaN] whatever was written under that key before, and
    the loops read elements only: the elements stay as they were. *)
Definition addAt (a : list (option float)) (k : option Z) (v : float) : list (option float) :=
  setAt a k (Some (toNumber (get a k) + v)%float).

Section ComputeTangentAndBinormal.
Context `{Imports} `{TangentSpace}.

Section Loops.
Variable vertices normals st : list (option float).
Variable indices : list (option Z).

(** First loop, for triangle [j]: the direction of the first texture
    coordinate, added to [tan1] at the three corners. *)
Definition tangentStep (tan1 : list (option float)) (j : Z) : list (option float) :=
  let i := 3 * j in
  let i0 := get indices (Some i) in
  let i1 := get indices (Some (i + 1)) in
  let i2 := get indices (Some (i + 2)) in
  let i03 := keyTimes i0 3 in
  let i13 := keyTimes i1 3 in
  let i23 := keyTimes i2 3 in
  let i02 := keyTimes i0 2 in
  let i12 := keyTimes i1 2 in
  let i22 := keyTimes i2 2 in
  let ux := toNumber (get vertices i03) in
  let uy := toNumber (get vertices (keyPlus i03 1)) in
  let uz := toNumber (get vertices (keyPlus i03 2)) in
  let wx := toNumber (get st i02) in
  let wy := toNumber (get st (keyPlus i02 1)) in
  let t1 := (toNumber (get st (keyPlus i12 1)) - wy)%float in
  let t2 := (toNumber (get st (keyPlus i22 1)) - wy)%float in
  let r := (1 / ((toNumber (get st i12) - wx) * t2 - (toNumber (get st i22) - wx) * t1))%float in
  let sdirx := ((t2 * (toNumber (get vertices i13) - ux)
                 - t1 * (toNumber (get vertices i23) - ux)) * r)%float in
  let sdiry := ((t2 * (toNumber (get vertices (keyPlus i13 1)) - uy)
                 - t1 * (toNumber (get vertices (keyPlus i23 1)) - uy)) * r)%float in
  let sdirz := ((t2 * (toNumber (get vertices (keyPlus i13 2)) - uz)
                 - t1 * (toNumber (get vertices (keyPlus i23 2)) - uz)) * r)%float in
  let tan1 := addAt tan1 i03 sdirx in
  let tan1 := addAt tan1 (keyPlus i03 1) sdiry in
  let tan1 := addAt tan1 (keyPlus i03 2) sdirz in
  let tan1 := addAt tan1 i13 sdirx in
  let tan1 := addAt tan1 (keyPlus i13 1) sdiry in
  let tan1 := addAt tan1 (keyPlus i13 2) sdirz in
  let tan1 := addAt tan1 i23 sdirx in
  let tan1 := addAt tan1 (keyPlus i23 1) sdiry in
  addAt tan1 (keyPlus i23 2) sdirz.

(** Second loop, for vertex [i]; the state is [binormalValues],
    [tangentValues]. *)
Definition basisStep (tan1 : list (option float))
    (s : list (option float) * list (option float)) (i : Z)
  : result (list (option float) * list (option float)) :=
  let i03 := i * 3 in
  let i13 := i03 + 1 in
  let i23 := i03 + 2 in
  n ← Cartesian3_fromArray normals i03;
  t ← Cartesian3_fromArray tan1 i03;
  let scalar := Cartesian3_dot n t in
  let normalScale := Cartesian3_multiplyByScalar n scalar in
  let t := Cartesian3_normalize (Cartesian3_subtract t normalScale) in
  let tangentValues := JS.set (JS.set (JS.set s.2 i03 (x t)) i13 (y t)) i23 (z t) in
  let t := Cartesian3_normalize (Cartesian3_cross n t) in
  let binormalValues := JS.set (JS.set (JS.set s.1 i03 (x t)) i13 (y t)) i23 (z t) in
  Return (binormalValues, tangentValues).

(** The two loops: [binormalValues] and [tangentValues]. *)
Definition computeTangents : result (list (option float) * list (option float)) :=
  let numVertices := len vertices / 3 in
  let numIndices := len indices in
  let tan1 := replicate (Z.to_nat (numVertices * 3)) (Some 0%float) in
  let tan1 := foldl tangentStep tan1 (range 0 (numIndices / 3)) in
  foldM (basisStep tan1)
        (replicate (Z.to_nat (numVertices * 3)) undefined,
         replicate (Z.to_nat (numVertices * 3)) undefined)
        (range 0 numVertices).

End Loops.

(** [attributes[name]] is created when it is missing, and otherwise keeps
    all but its values. [new GeometryAttribute] is given no [normalize]; the
    record holds [false] for it. *)
Definition setValues (name : string) (vs : list (option float))
    (attrs : list (string * GeometryAttribute)) : list (string * GeometryAttribute) :=
  match lookupAttribute name attrs with
  | None => setAttribute name (mkGeometryAttribute FLOAT 3 false (Some vs)) attrs
  | Some a => setAttribute name (withValues a (Some vs)) attrs
  end.

(** The check that computeTangentAndBinormal makes of each of the
    attributes it reads: the attribute and its values are there, it has
    [components] components to a vertex and a number of values that is a
    multiple of that. *)
Definition checkedValues (attrs : list (string * GeometryAttribute)) (name : string)
    (components : nat) (required shape : string) : result (list (option float)) :=
  match lookupAttribute name attrs with
  | None => Throw (DeveloperError required)
  | Some a =>
      match values a with
      | None => Throw (DeveloperError required)
      | Some vs =>
          if decide (componentsPerAttribute a ≠ components
                     ∨ len vs `mod` Z.of_nat components ≠ 0)
          then Throw (DeveloperError shape)
          else Return vs
      end
  end.

Definition computeTangentAndBinormal (g : Geometry) : result Geometry :=
  vertices ← checkedValues (attributes g) "position" 3
                "geometry.attributes.position.values is required"
                "geometry.attributes.position.values.length must be a multiple of 3";
  normals ← checkedValues (attributes g) "normal" 3
               "geometry.attributes.normal.values is required"
               "geometry.attributes.normals.values.length must be a multiple of 3";
  st ← checkedValues (attributes g) "st" 2
          "geometry.attributes.st.values is required"
          "geometry.attributes.st.values.length must be a multiple of 2";
  match indexList g with
  | None => Return g
  | Some indices =>
      if decide (primitiveType g ≠ TRIANGLES ∨ len indices < 2 ∨ len indices `mod` 3 ≠ 0)
      then Return g
      else
        s ← computeTangents vertices normals st indices;
        Return (withAttributes g
                  (setValues "binormal" s.1 (setValues "tangent" s.2 (attributes g))))
  end.

End ComputeTangentAndBinormal.
(** ** Instances of the further imports, for worked examples *)

Module Sample.

Local Open Scope float_scope.

(** A stand-in for EncodedCartesian3.encode (EncodedCartesian3.js is not
    among the sources), for the worked examples only: it keeps the value as
    the high part, with a low part of zero, and refuses a value that is
    [undefined]. *)
Definition encode (value : option float) (encodedResult : option float * option float)
  : result (option float * option float) :=
  match value with
  | Some v => Return (Some v, Some 0)
  | None => Throw (DeveloperError "value is required")
  end.

Global Instance encoding : EncodedCartesian3 := {| EncodedCartesian3_encode := encode |}.

(** A stand-in for the projection and its ellipsoid (their sources are not
    at hand), for the worked examples only: the projection onto the plane of
    the first two coordinates, whose cartographic coordinates are the
    Cartesian ones. *)
Global Instance projecting : Projecting := {|
  Cartesian3_new := mkCartesian3;
  Projection := unit;
  GeographicProjection_new := tt;
  Ellipsoid := unit;
  Projection_getEllipsoid := λ _, Return tt;
  Cartographic := Cartesian3;
  Ellipsoid_cartesianToCartographic := λ _ cartesian, Return (Some cartesian);
  Projection_project := λ _ cartographic,
    match cartographic with
    | Some c => Return c
    | None => Throw TypeError
    end
|}.

(** Modelled from the spec: Cartesian3.fromArray (Cartesian3.js is not among
    the sources), the vector of three consecutive values of an array. *)
Definition fromArray (values : list (option float)) (offset : Z) : result Cartesian3 :=
  Return (mkCartesian3 (get values (Some offset)) (get values (Some (offset + 1)%Z))
                       (get values (Some (offset + 2)%Z))).

(** Modelled from the spec: Cartesian3.dot, the scalar product against
    which the raw tangent is orthogonalized. *)
Definition dot (a b : Cartesian3) : option float :=
  Some (toNumber (x a) * toNumber (x b) + toNumber (y a) * toNumber (y b)
        + toNumber (z a) * toNumber (z b)).

(** Modelled from the spec: Cartesian3.multiplyByScalar, the vector scaled
    component by component. *)
Definition multiplyByScalar (a : Cartesian3) (scalar : option float) : Cartesian3 :=
  mkCartesian3 (Some (toNumber (x a) * toNumber scalar))
               (Some (toNumber (y a) * toNumber scalar))
               (Some (toNumber (z a) * toNumber scalar)).

Global Instance tangentSpace : TangentSpace := {|
  Cartesian3_fromArray := fromArray;
  Cartesian3_dot := dot;
  Cartesian3_multiplyByScalar := multiplyByScalar
|}.

(** The triangle of [Example.triangle] with the normal (0, 0, 1) and the
    texture coordinates (0, 0), (1, 0), (0, 1) at its vertices. *)
Definition texturedTriangle : Geometry :=
  mkGeometry
    [("position"%string, Example.trianglePosition);
     ("normal"%string,
       mkGeometryAttribute Example.DOUBLE 3 false
         (Some [Some 0; Some 0; Some 1; Some 0; Some 0; Some 1; Some 0; Some 0; Some 1]));
     ("st"%string,
       mkGeometryAttribute Example.DOUBLE 2 false
         (Some [Some 0; Some 0; Some 1; Some 0; Some 0; Some 1]))]
    (Some [Some 0; Some 1; Some 2]%Z) TRIANGLES None.

(** The instances of [Example.triangle] and [Example.square] under one
    model matrix. *)
Definition triangleInstance : GeometryInstance := mkGeometryInstance Example.triangle [].
Definition squareInstance : GeometryInstance := mkGeometryInstance Example.square [].

End Sample.

(** ** Arrays *)

Section ArrayFacts.
Context {A : Type}.
Implicit Types (a : list (option A)) (v : option A) (i k : Z).

Lemma get_negative a k : k < 0 → get a (Some k) = None.
Proof. intros Hk. unfold get. case_decide; [lia | done]. Qed.

Lemma get_outside a k : len a ≤ k → get a (Some k) = None.
Proof.
  intros Hk. unfold get, len in *. case_decide; [| done].
  rewrite lookup_ge_None_2; [done | lia].
Qed.

Lemma get_nonneg a k : 0 ≤ k → get a (Some k) = mjoin (a !! Z.to_nat k).
Proof. intros Hk. unfold get. case_decide; [done | lia]. Qed.

Lemma get_lookup a k e : 0 ≤ k → a !! Z.to_nat k = Some e → get a (Some k) = e.
Proof. intros Hk He. unfold get. case_decide; [| lia]. by rewrite He. Qed.

Lemma get_set a i v k :
  get (JS.set a i v) (Some k) = if decide (k = i ∧ 0 ≤ i) then v else get a (Some k).
Proof.
  unfold JS.set, len. destruct (decide (i < 0)) as [Hi | Hi].
  { case_decide; [lia | done]. }
  destruct (decide (k < 0)) as [Hk | Hk].
  { rewrite !get_negative by done. case_decide; [lia | done]. }
  rewrite !get_nonneg by lia.
  destruct (decide (i < Z.of_nat (length a))) as [Hlt | Hge].
  - destruct (decide (k = i ∧ 0 ≤ i)) as [[-> _] | Hne].
    + rewrite list_lookup_insert_eq by lia. done.
    + rewrite list_lookup_insert_ne by lia. done.
  - destruct (decide (k < Z.of_nat (length a))) as [Hk1 | Hk1].
    { rewrite lookup_app_l by lia. case_decide; [lia | done]. }
    rewrite lookup_app_r by lia.
    rewrite (lookup_ge_None_2 a) by lia.
    destruct (decide (k < i)) as [Hk2 | Hk2].
    { rewrite lookup_app_l by (rewrite length_replicate; lia).
      rewrite lookup_replicate_2 by lia. case_decide; [lia | done]. }
    rewrite lookup_app_r by (rewrite length_replicate; lia).
    rewrite length_replicate.
    destruct (decide (k = i ∧ 0 ≤ i)) as [[-> _] | Hne].
    + replace (Z.to_nat i - length a - (Z.to_nat i - length a))%nat with 0%nat by lia. done.
    + rewrite lookup_ge_None_2; [done | simpl; lia].
Qed.

Lemma len_set a i v : 0 ≤ i → len (JS.set a i v) = Z.max (len a) (i + 1).
Proof.
  intros Hi. unfold JS.set, len. rewrite decide_False by lia.
  case_decide.
  - rewrite length_insert. lia.
  - rewrite !length_app, length_replicate. simpl. lia.
Qed.

Lemma set_negative a i v : i < 0 → JS.set a i v = a.
Proof. intros Hi. unfold JS.set. by rewrite decide_True. Qed.

Lemma set_push a v : JS.set a (len a) v = a ++ [v].
Proof.
  unfold JS.set, len. rewrite decide_False by lia. rewrite decide_False by lia.
  rewrite Nat2Z.id, Nat.sub_diag. done.
Qed.

(** Two arrays of one length that read alike are equal. *)
Lemma array_eq a b :
  len a = len b → (∀ k, 0 ≤ k < len a → get a (Some k) = get b (Some k)) → a = b.
Proof.
  unfold len. intros Hlen Hget. apply list_eq_same_length with (length a); [lia | lia |].
  intros n e1 e2 Hn H1 H2.
  specialize (Hget (Z.of_nat n) ltac:(lia)).
  rewrite !get_nonneg in Hget by lia.
  rewrite Nat2Z.id, H1, H2 in Hget. done.
Qed.

Lemma len_replicate (n : Z) (e : option A) : 0 ≤ n → len (replicate (Z.to_nat n) e) = n.
Proof. intros. unfold len. rewrite length_replicate. lia. Qed.

Lemma get_replicate (n : Z) (e : option A) k :
  0 ≤ k < n → get (replicate (Z.to_nat n) e) (Some k) = e.
Proof.
  intros. apply get_lookup; [lia |]. apply lookup_replicate_2. lia.
Qed.

End ArrayFacts.

Lemma elem_of_range (start stop k : Z) : k ∈ range start stop ↔ start ≤ k < stop.
Proof. unfold range. rewrite elem_of_seqZ. lia. Qed.

Lemma NoDup_range (start stop : Z) : NoDup (range start stop).
Proof. apply NoDup_seqZ. Qed.

Lemma range_empty (start stop : Z) : stop ≤ start → range start stop = [].
Proof. intros. apply seqZ_nil. lia. Qed.

Lemma range_snoc (start stop : Z) :
  start ≤ stop → range start (stop + 1) = range start stop ++ [stop].
Proof.
  intros. unfold range.
  replace (stop + 1 - start) with ((stop - start) + 1) by lia.
  rewrite seqZ_app by lia. f_equal.
  rewrite seqZ_cons, seqZ_nil by lia. f_equal. lia.
Qed.

Lemma range_cons (start stop : Z) :
  start < stop → range start stop = start :: range (start + 1) stop.
Proof.
  intros. unfold range. rewrite seqZ_cons by lia. f_equal. f_equal; lia.
Qed.

Lemma length_range (start stop : Z) : start ≤ stop → len (range start stop) = stop - start.
Proof. intros. unfold len, range. rewrite length_seqZ. lia. Qed.

Lemma foldM_app {S B : Type} (f : S → B → result S) (s : S) (l1 l2 : list B) :
  foldM f s (l1 ++ l2) = JS.bind (foldM f s l1) (λ s', foldM f s' l2).
Proof.
  revert s. induction l1 as [| b l1 IH]; intros s; simpl; [done |].
  destruct (f s b); simpl; [apply IH | done].
Qed.

Section FirstSeen.
Implicit Types (l : list Z) (i j r : Z).

Lemma indexOf_None i l : indexOf i l = None ↔ i ∉ l.
Proof.
  induction l as [| j l IH]; simpl.
  - split; [intros _; apply not_elem_of_nil | done].
  - rewrite not_elem_of_cons. case_decide as Hj.
    + split; [done | intros [? _]; congruence].
    + rewrite fmap_None, IH. split; [intros ?; split; congruence | tauto].
Qed.

Lemma indexOf_Some i l r : indexOf i l = Some r → 0 ≤ r < len l ∧ l !! Z.to_nat r = Some i.
Proof.
  revert r. induction l as [| j l IH]; intros r; simpl; [done |].
  unfold len in *. case_decide as Hj.
  - intros [= <-]. subst j. simpl. split; [lia | done].
  - intros (r' & Hr' & ->)%fmap_Some. destruct (IH _ Hr') as [Hb Hl].
    split; [simpl; lia |].
    replace (Z.to_nat (Z.succ r')) with (S (Z.to_nat r')) by lia. done.
Qed.

Lemma indexOf_is_Some i l : i ∈ l → is_Some (indexOf i l).
Proof.
  intros Hi. destruct (indexOf i l) eqn:E; [by eexists |].
  apply indexOf_None in E. done.
Qed.

Lemma indexOf_inj i j l r : indexOf i l = Some r → indexOf j l = Some r → i = j.
Proof.
  intros [_ Hi]%indexOf_Some [_ Hj]%indexOf_Some. congruence.
Qed.

Lemma indexOf_app_l i l l' r : indexOf i l = Some r → indexOf i (l ++ l') = Some r.
Proof.
  revert r. induction l as [| j l IH]; intros r; simpl; [done |].
  case_decide; [done |]. intros (r' & Hr' & ->)%fmap_Some.
  by rewrite (IH _ Hr').
Qed.

Lemma indexOf_snoc_new i l : i ∉ l → indexOf i (l ++ [i]) = Some (len l).
Proof.
  unfold len. induction l as [| j l IH]; simpl.
  - intros _. by rewrite decide_True.
  - intros [Hne Hl]%not_elem_of_cons. rewrite decide_False by done.
    rewrite IH by done. simpl. f_equal. lia.
Qed.

Lemma indexOf_snoc_other i j l : i ≠ j → indexOf i (l ++ [j]) = indexOf i l.
Proof.
  intros Hne. induction l as [| k l IH]; simpl.
  - by rewrite decide_False.
  - case_decide; [done |]. by rewrite IH.
Qed.

Lemma indexOf_range i n : 0 ≤ i < n → indexOf i (range 0 n) = Some i.
Proof.
  intros Hi. assert (Hn : 0 ≤ n) by lia. revert i Hi.
  pattern n. apply natlike_ind; [lia | | done]. clear n Hn.
  intros n Hn IH i Hi. rewrite <- Z.add_1_r, range_snoc by lia.
  destruct (decide (i = n)) as [-> | Hne].
  - rewrite indexOf_snoc_new by (rewrite elem_of_range; lia).
    by rewrite length_range, Z.sub_0_r.
  - rewrite indexOf_snoc_other by done. apply IH. lia.
Qed.

Lemma firstSeen_snoc l i :
  firstSeen (l ++ [i]) = if decide (i ∈ firstSeen l) then firstSeen l else firstSeen l ++ [i].
Proof. unfold firstSeen. by rewrite foldl_snoc. Qed.

Lemma elem_of_firstSeen l i : i ∈ firstSeen l ↔ i ∈ l.
Proof.
  revert i. induction l as [| j l IH] using rev_ind; intros i; [done |].
  rewrite firstSeen_snoc, elem_of_app, list_elem_of_singleton.
  case_decide as Hj.
  - rewrite IH. apply IH in Hj. split; [tauto | intros [? | ->]; done].
  - by rewrite elem_of_app, list_elem_of_singleton, IH.
Qed.

Lemma NoDup_firstSeen l : NoDup (firstSeen l).
Proof.
  induction l as [| j l IH] using rev_ind; [apply NoDup_nil_2 |].
  rewrite firstSeen_snoc. case_decide as Hj; [done |].
  apply NoDup_app. split_and!; [done | | apply NoDup_singleton].
  intros k Hk ->%list_elem_of_singleton. done.
Qed.

Lemma firstReferenceRank_None l i : firstReferenceRank l i = None ↔ i ∉ l.
Proof. unfold firstReferenceRank. by rewrite indexOf_None, elem_of_firstSeen. Qed.

Lemma firstReferenceRank_is_Some l i : i ∈ l → is_Some (firstReferenceRank l i).
Proof. intros. apply indexOf_is_Some. by apply elem_of_firstSeen. Qed.

Lemma firstReferenceRank_bound l i r :
  firstReferenceRank l i = Some r → 0 ≤ r < len (firstSeen l).
Proof. intros Hr. by apply indexOf_Some in Hr as [? _]. Qed.

Lemma firstReferenceRank_inj l i j r :
  firstReferenceRank l i = Some r → firstReferenceRank l j = Some r → i = j.
Proof. apply indexOf_inj. Qed.

(** A value already seen keeps its rank when the list grows. *)
Lemma firstReferenceRank_snoc_old l i j :
  i ∈ l → firstReferenceRank (l ++ [j]) i = firstReferenceRank l i.
Proof.
  intros Hi. unfold firstReferenceRank. rewrite firstSeen_snoc.
  case_decide; [done |].
  destruct (indexOf_is_Some i (firstSeen l)) as [r Hr]; [by apply elem_of_firstSeen |].
  rewrite Hr. by apply indexOf_app_l.
Qed.

Lemma firstReferenceRank_snoc_seen l i j :
  j ∈ l → firstReferenceRank (l ++ [j]) i = firstReferenceRank l i.
Proof.
  intros Hj. unfold firstReferenceRank. rewrite firstSeen_snoc.
  rewrite decide_True; [done | by apply elem_of_firstSeen].
Qed.

Lemma firstReferenceRank_snoc_new l i :
  i ∉ l → firstReferenceRank (l ++ [i]) i = Some (len (firstSeen l)).
Proof.
  intros Hi. unfold firstReferenceRank. rewrite firstSeen_snoc.
  rewrite decide_False by (by rewrite elem_of_firstSeen).
  apply indexOf_snoc_new. by rewrite elem_of_firstSeen.
Qed.

Lemma firstReferenceRank_snoc_other l i j :
  i ≠ j → i ∉ l → firstReferenceRank (l ++ [j]) i = None.
Proof.
  intros Hne Hi. apply firstReferenceRank_None.
  rewrite elem_of_app, list_elem_of_singleton. tauto.
Qed.

Lemma len_firstSeen_snoc l i :
  len (firstSeen (l ++ [i])) = if decide (i ∈ l) then len (firstSeen l) else len (firstSeen l) + 1.
Proof.
  rewrite firstSeen_snoc. unfold len.
  destruct (decide (i ∈ l)) as [Hi | Hi].
  - rewrite decide_True; [done | by apply elem_of_firstSeen].
  - rewrite decide_False by (by rewrite elem_of_firstSeen).
    rewrite length_app. simpl. lia.
Qed.

Lemma get_crossReference n l i :
  0 ≤ i < n → get (crossReference n l) (Some i) = Some (default (-1) (firstReferenceRank l i)).
Proof.
  intros Hi. apply get_lookup; [lia |]. unfold crossReference, range.
  rewrite list_lookup_fmap, lookup_seqZ_lt by lia. simpl. do 4 f_equal. lia.
Qed.

Lemma len_crossReference n l : 0 ≤ n → len (crossReference n l) = n.
Proof.
  intros. unfold crossReference, len. rewrite length_fmap.
  fold (len (range 0 n)). rewrite length_range; lia.
Qed.

End FirstSeen.

(** ** reorderForPreVertexCache: the scan of the index list *)

Section ScanFacts.
Context `{Imports}.

Lemma crossReference_seen N l i :
  i ∈ l → crossReference N (l ++ [i]) = crossReference N l.
Proof.
  intros Hi. unfold crossReference. apply list_fmap_ext. intros _ k _.
  by rewrite firstReferenceRank_snoc_seen.
Qed.

Lemma crossReference_new N l i :
  0 ≤ i < N → i ∉ l →
  JS.set (crossReference N l) i (Some (len (firstSeen l))) = crossReference N (l ++ [i]).
Proof.
  intros Hi Hl. apply array_eq.
  - rewrite len_set, !len_crossReference by lia. lia.
  - rewrite len_set, len_crossReference by lia. intros k Hk.
    rewrite get_set, !get_crossReference by lia.
    case_decide as Hki.
    + destruct Hki as [-> _]. by rewrite firstReferenceRank_snoc_new.
    + destruct (decide (k ∈ l)) as [Hkl | Hkl].
      * by rewrite firstReferenceRank_snoc_old.
      * rewrite firstReferenceRank_snoc_other by (done || lia).
        apply firstReferenceRank_None in Hkl. by rewrite Hkl.
Qed.

Lemma scanStart_inv N : ScanInv N [] (scanStart N).
Proof.
  split; simpl; try done.
  unfold crossReference, range. rewrite Z.sub_0_r. unfold seqZ.
  rewrite <- list_fmap_compose. generalize 0%nat.
  induction (Z.to_nat N) as [| n IH]; intros m; simpl; [done |].
  f_equal. apply IH.
Qed.

Lemma scanStep_inv N l s i :
  0 ≤ i < N → ScanInv N l s →
  ∃ s', scanStep N s (Some i) = Return s' ∧ ScanInv N (l ++ [i]) s'.
Proof.
  intros Hi [Hcross Hout Hinto Hnext]. unfold scanStep.
  rewrite Hcross, get_crossReference by done.
  assert (Hlen : len (indicesOut s) = len l).
  { rewrite Hout. unfold len. by rewrite length_fmap. }
  destruct (decide (i ∈ l)) as [Hil | Hil].
  - destruct (firstReferenceRank_is_Some l i Hil) as [r Hr].
    pose proof (firstReferenceRank_bound _ _ _ Hr) as Hb.
    rewrite Hr. case_decide as Hd; [clear Hd | simplify_eq/=; lia].
    eexists. split; [done |]. split; simpl.
    + by rewrite crossReference_seen.
    + rewrite Hinto, <- Hlen, set_push, Hout, fmap_app. simpl.
      rewrite firstReferenceRank_snoc_seen, Hr by done. f_equal.
      apply list_fmap_ext. intros _ k _. by rewrite firstReferenceRank_snoc_seen.
    + rewrite Hinto. unfold len. rewrite length_app. simpl. lia.
    + by rewrite len_firstSeen_snoc, decide_True.
  - pose proof Hil as Hnone. apply firstReferenceRank_None in Hnone.
    rewrite Hnone. case_decide as Hd; [by destruct Hd |]. clear Hd.
    unfold geNumber, setAt. rewrite bool_decide_eq_false_2 by lia.
    eexists. split; [done |]. split; simpl.
    + rewrite Hnext. by apply crossReference_new.
    + rewrite Hinto, <- Hlen, set_push, Hout, Hnext, fmap_app. simpl.
      rewrite firstReferenceRank_snoc_new by done. f_equal.
      apply list_fmap_ext. intros n k Hk.
      rewrite firstReferenceRank_snoc_old; [done |]. by eapply list_elem_of_lookup_2.
    + rewrite Hinto. unfold len. rewrite length_app. simpl. lia.
    + by rewrite Hnext, len_firstSeen_snoc, decide_False.
Qed.

Lemma scan_spec N l :
  Forall (λ i, 0 ≤ i < N) l →
  ∃ s, foldM (scanStep N) (scanStart N) (Some <$> l) = Return s ∧ ScanInv N l s.
Proof.
  induction l as [| i l IH] using rev_ind; intros Hl.
  - exists (scanStart N). split; [done | apply scanStart_inv].
  - apply Forall_app in Hl as [Hl Hi]. rewrite Forall_singleton in Hi.
    destruct (IH Hl) as (s & Hs & Hinv).
    destruct (scanStep_inv N l s i Hi Hinv) as (s' & Hs' & Hinv').
    exists s'. split; [| done].
    rewrite fmap_app, foldM_app, Hs. simpl. by rewrite Hs'.
Qed.

End ScanFacts.

(** ** reorderForPreVertexCache: the move of the attribute values *)

Section ReorderValuesFacts.
Context `{Imports}.
Implicit Types (vs out : list (option float)) (cross : list (option Z)).

Lemma block_unique (nc t t' k : Z) :
  nc * t ≤ k < nc * t + nc → nc * t' ≤ k < nc * t' + nc → t = t'.
Proof. intros. nia. Qed.

Lemma get_moveComponents nc vs t i out cs k :
  get (moveComponents nc vs t i out cs) (Some k) =
    if decide (k - nc * t ∈ cs ∧ 0 ≤ k) then get vs (Some (nc * i + (k - nc * t)))
    else get out (Some k).
Proof.
  unfold moveComponents. revert out. induction cs as [| c cs IH]; intros out; cbn [foldl].
  - rewrite decide_False; [done |]. intros [Hin _]. by apply elem_of_nil in Hin.
  - rewrite IH, get_set.
    destruct (decide (k - nc * t ∈ cs ∧ 0 ≤ k)) as [[Hin Hk] | Hout].
    + rewrite decide_True; [done | rewrite elem_of_cons; tauto].
    + destruct (decide (k = nc * t + c ∧ 0 ≤ nc * t + c)) as [[-> Hc] | Hne].
      * rewrite decide_True; [do 3 f_equal; lia |]. rewrite elem_of_cons. split; [left; lia | done].
      * rewrite decide_False; [done |]. rewrite elem_of_cons. intros [[Heq | Hin] Hk]; [| tauto].
        apply Hne. split; lia.
Qed.

Lemma get_moveVertex nc vs t i out k :
  get (moveVertex nc vs (Some t) i out) (Some k) =
    if decide (0 ≤ k ∧ nc * t ≤ k < nc * t + nc) then get vs (Some (nc * i + (k - nc * t)))
    else get out (Some k).
Proof.
  change (moveVertex nc vs (Some t) i out) with (moveComponents nc vs t i out (range 0 nc)).
  rewrite get_moveComponents.
  destruct (decide (0 ≤ k ∧ nc * t ≤ k < nc * t + nc)).
  - rewrite decide_True; [done | rewrite elem_of_range; lia].
  - rewrite decide_False; [done | rewrite elem_of_range; lia].
Qed.

Lemma len_moveComponents nc vs t i out cs :
  len out ≤ len (moveComponents nc vs t i out cs)
  ∧ (∀ c, c ∈ cs → nc * t + c < len (moveComponents nc vs t i out cs))
  ∧ (∀ M, len out ≤ M → (∀ c, c ∈ cs → nc * t + c < M) →
          len (moveComponents nc vs t i out cs) ≤ M).
Proof.
  unfold moveComponents. revert out. induction cs as [| c cs IH]; intros out; simpl.
  - split_and!; [lia | by intros c ?%elem_of_nil | auto].
  - destruct (IH (JS.set out (nc * t + c) (get vs (Some (nc * i + c))))) as (IH1 & IH2 & IH3).
    assert (Hset : len out ≤ len (JS.set out (nc * t + c) (get vs (Some (nc * i + c))))
                   ∧ nc * t + c < len (JS.set out (nc * t + c) (get vs (Some (nc * i + c))))
                   ∧ ∀ M, len out ≤ M → nc * t + c < M →
                          len (JS.set out (nc * t + c) (get vs (Some (nc * i + c)))) ≤ M).
    { destruct (decide (nc * t + c < 0)).
      - rewrite set_negative by done. unfold len. split_and!; [lia | lia | auto].
      - rewrite len_set by lia. split_and!; lia. }
    destruct Hset as (S1 & S2 & S3). split_and!.
    + lia.
    + intros c' [-> | Hc']%elem_of_cons; [lia | by apply IH2].
    + intros M HM Hcs. apply IH3.
      * apply S3; [done |]. apply Hcs. by left.
      * intros c' Hc'. apply Hcs. by right.
Qed.

Lemma moveVertex_None nc vs i out : moveVertex nc vs None i out = out.
Proof. unfold moveVertex. induction (range 0 nc) as [| c cs IH]; simpl; done. Qed.

Lemma get_moveVertices_other nc vs cross out ws k :
  (∀ i t, i ∈ ws → get cross (Some i) = Some t → ¬ (nc * t ≤ k < nc * t + nc)) →
  get (moveVertices nc vs cross out ws) (Some k) = get out (Some k).
Proof.
  unfold moveVertices. revert out. induction ws as [| i ws IH]; intros out Hk; simpl; [done |].
  rewrite IH by (intros j t Hj; apply Hk; by right).
  destruct (get cross (Some i)) as [t |] eqn:Ht; [| by rewrite moveVertex_None].
  rewrite get_moveVertex, decide_False; [done |].
  intros [_ Hb]. apply (Hk i t); [by left | done | done].
Qed.

Lemma get_moveVertices_hit nc vs cross out ws i t k :
  NoDup ws → i ∈ ws → get cross (Some i) = Some t →
  (∀ j, j ∈ ws → get cross (Some j) = Some t → j = i) →
  0 ≤ k → nc * t ≤ k < nc * t + nc →
  get (moveVertices nc vs cross out ws) (Some k) = get vs (Some (nc * i + (k - nc * t))).
Proof.
  unfold moveVertices. revert out.
  induction ws as [| j ws IH]; intros out Hnd Hi Ht Hinj Hk Hb; [by apply elem_of_nil in Hi |].
  apply NoDup_cons in Hnd as [Hj Hnd]. simpl.
  destruct (decide (j = i)) as [-> | Hne].
  - rewrite Ht. fold (moveVertices nc vs cross (moveVertex nc vs (Some t) i out) ws).
    rewrite get_moveVertices_other.
    + rewrite get_moveVertex, decide_True; [done | lia].
    + intros j t' Hjin Ht' Hb'.
      assert (t = t') by (by eapply block_unique). subst t'.
      assert (j = i) by (apply Hinj; [by right | done]). by subst j.
  - apply elem_of_cons in Hi as [-> | Hi]; [done |].
    apply IH; try done. intros j' Hj'. apply Hinj. by right.
Qed.

Lemma len_moveVertex nc vs t i out :
  len out ≤ len (moveVertex nc vs (Some t) i out)
  ∧ (0 < nc → 0 ≤ t → nc * t + nc ≤ len (moveVertex nc vs (Some t) i out))
  ∧ (∀ M, len out ≤ M → nc * t + nc ≤ M → len (moveVertex nc vs (Some t) i out) ≤ M).
Proof.
  change (moveVertex nc vs (Some t) i out) with (moveComponents nc vs t i out (range 0 nc)).
  destruct (len_moveComponents nc vs t i out (range 0 nc)) as (L1 & L2 & L3).
  split_and!; [done | |].
  - intros Hnc Ht. specialize (L2 (nc - 1)). rewrite elem_of_range in L2. lia.
  - intros M HM Hb. apply L3; [done |]. intros c Hc%elem_of_range. lia.
Qed.

Lemma len_moveVertices nc vs cross out ws :
  len out ≤ len (moveVertices nc vs cross out ws)
  ∧ (∀ i t, i ∈ ws → get cross (Some i) = Some t → 0 < nc → 0 ≤ t →
            nc * t + nc ≤ len (moveVertices nc vs cross out ws))
  ∧ (∀ M, len out ≤ M →
          (∀ i t, i ∈ ws → get cross (Some i) = Some t → nc * t + nc ≤ M) →
          len (moveVertices nc vs cross out ws) ≤ M).
Proof.
  unfold moveVertices. revert out. induction ws as [| i ws IH]; intros out; simpl.
  - split_and!; [lia | by intros i t ?%elem_of_nil | auto].
  - destruct (IH (moveVertex nc vs (get cross (Some i)) i out)) as (IH1 & IH2 & IH3).
    destruct (get cross (Some i)) as [t |] eqn:Ht.
    + destruct (len_moveVertex nc vs t i out) as (L1 & L2 & L3). split_and!.
      * lia.
      * intros j t' [-> | Hj]%elem_of_cons Ht' Hnc Hpos.
        -- rewrite Ht in Ht'. injection Ht' as <-. specialize (L2 Hnc Hpos). lia.
        -- by eapply IH2.
      * intros M HM Hall. apply IH3.
        -- apply L3; [done |]. apply (Hall i t); [by left | done].
        -- intros j t' Hj. apply Hall. by right.
    + rewrite moveVertex_None in *. split_and!.
      * done.
      * intros j t' [-> | Hj]%elem_of_cons Ht' Hnc Hpos; [congruence | by eapply IH2].
      * intros M HM Hall. apply IH3; [done |]. intros j t' Hj. apply Hall. by right.
Qed.

End ReorderValuesFacts.

(** ** reorderForPreVertexCache: the function as a whole *)

Section ReorderForPreVertexCacheFacts.
Context `{Imports}.
Implicit Types (g : Geometry) (l : list Z) (vs : list (option float)).

Lemma reorderValues_moveVertices N cross nc vs :
  reorderValues N cross nc vs = moveVertices nc vs cross [] (range 0 N).
Proof. done. Qed.

(** The block of a referenced vertex is found at the slot of its rank. *)
Lemma get_reorderValues N l nc vs i r c :
  Forall (λ i, 0 ≤ i < N) l → firstReferenceRank l i = Some r → 0 ≤ c < nc →
  get (reorderValues N (crossReference N l) nc vs) (Some (nc * r + c))
  = get vs (Some (nc * i + c)).
Proof.
  intros Hl Hr Hc. pose proof (firstReferenceRank_bound _ _ _ Hr) as Hb.
  assert (Hi : 0 ≤ i < N).
  { rewrite Forall_forall in Hl. apply Hl.
    destruct (decide (i ∈ l)) as [| Hn]; [done |].
    apply firstReferenceRank_None in Hn. congruence. }
  rewrite reorderValues_moveVertices.
  rewrite (get_moveVertices_hit nc vs _ [] (range 0 N) i r).
  - do 3 f_equal. lia.
  - apply NoDup_range.
  - by apply elem_of_range.
  - by rewrite get_crossReference, Hr.
  - intros j Hj%elem_of_range. rewrite get_crossReference by done.
    destruct (firstReferenceRank l j) as [r' |] eqn:Hr'; simpl; intros [= Heq].
    + subst r'. by eapply firstReferenceRank_inj.
    + lia.
  - nia.
  - nia.
Qed.

Lemma len_reorderValues_le N l nc vs :
  0 ≤ nc → 0 ≤ N →
  len (reorderValues N (crossReference N l) nc vs) ≤ nc * len (firstSeen l).
Proof.
  intros Hnc HN. rewrite reorderValues_moveVertices.
  destruct (len_moveVertices nc vs (crossReference N l) [] (range 0 N)) as (_ & _ & L3).
  apply L3.
  - unfold len at 1. simpl. unfold len. nia.
  - intros i t Hi%elem_of_range. rewrite get_crossReference by done.
    destruct (firstReferenceRank l i) as [r |] eqn:Hr; simpl; intros [= <-].
    + apply firstReferenceRank_bound in Hr. nia.
    + unfold len. nia.
Qed.

Lemma indexOf_lookup (k : list Z) (n : nat) i :
  NoDup k → k !! n = Some i → indexOf i k = Some (Z.of_nat n).
Proof.
  revert n. induction k as [| j k IH]; intros n Hnd Hn; [done |].
  apply NoDup_cons in Hnd as [Hj Hnd]. destruct n as [| n]; simpl in *.
  - injection Hn as ->. by rewrite decide_True.
  - rewrite decide_False.
    + rewrite (IH n) by done. simpl. f_equal. lia.
    + intros ->. apply Hj. by eapply list_elem_of_lookup_2.
Qed.

Lemma len_reorderValues_ge N l nc vs :
  Forall (λ i, 0 ≤ i < N) l → 0 < nc →
  nc * len (firstSeen l) ≤ len (reorderValues N (crossReference N l) nc vs).
Proof.
  intros Hl Hnc. rewrite reorderValues_moveVertices.
  destruct (len_moveVertices nc vs (crossReference N l) [] (range 0 N)) as (L1 & L2 & _).
  destruct (decide (len (firstSeen l) = 0)) as [-> | Hne]; [unfold len in *; simpl in *; lia |].
  pose (n := (length (firstSeen l) - 1)%nat).
  destruct (lookup_lt_is_Some_2 (firstSeen l) n) as [i Hi]; [unfold len in *; lia |].
  assert (Hr : firstReferenceRank l i = Some (Z.of_nat n))
    by (apply indexOf_lookup; [apply NoDup_firstSeen | done]).
  assert (Hin : 0 ≤ i < N).
  { rewrite Forall_forall in Hl. apply Hl, elem_of_firstSeen.
    by eapply list_elem_of_lookup_2. }
  specialize (L2 i (Z.of_nat n)). rewrite elem_of_range, get_crossReference, Hr in L2 by done.
  specialize (L2 Hin eq_refl Hnc ltac:(lia)). unfold len in *. nia.
Qed.

Lemma len_reorderValues N l nc vs :
  Forall (λ i, 0 ≤ i < N) l → 0 < nc → 0 ≤ N →
  len (reorderValues N (crossReference N l) nc vs) = nc * len (firstSeen l).
Proof.
  intros. apply Z.le_antisymm; [apply len_reorderValues_le; lia | by apply len_reorderValues_ge].
Qed.

Lemma reorderForPreVertexCache_eq g N l :
  computeNumberOfVertices g = Return N → indexList g = Some (Some <$> l) →
  Forall (λ i, 0 ≤ i < N) l →
  reorderForPreVertexCache g = Return (reordered g N l).
Proof.
  intros HN Hl Hrange. unfold reorderForPreVertexCache. rewrite HN, Hl.
  destruct (scan_spec N l Hrange) as (s & Hs & [Hcross Hout _ _]).
  unfold mbind, result_bind. cbn [JS.bind]. rewrite Hs. cbn [JS.bind].
  by rewrite Hcross, Hout.
Qed.

End ReorderForPreVertexCacheFacts.

Section ComputeNumberOfVerticesFacts.
Context `{Imports}.

Lemma computeNumberOfVertices_unfold g :
  computeNumberOfVertices g
  = JS.bind (foldM countStep None (attributes g)) (λ n, Return (default 0 n)).
Proof. done. Qed.

Lemma countStep_fold_Some attrs N n :
  foldM countStep (Some N) attrs = Return n → n = Some N ∧ vertexCounts N attrs.
Proof.
  revert n. induction attrs as [| p attrs IH]; intros n; simpl.
  - intros [= <-]. split; [done | apply Forall_nil_2].
  - unfold countStep at 1. destruct (values p.2) as [vs |] eqn:Hvs.
    + destruct (attributeVertexCount p.2 vs) as [num |] eqn:Hnum; [| done].
      case_decide as HN; [| done]. subst num. simpl. intros [-> Hrest]%IH.
      split; [done |]. apply Forall_cons. split; [| done].
      intros vs' Hvs'. congruence.
    + simpl. intros [-> Hrest]%IH. split; [done |]. apply Forall_cons. split; [| done].
      intros vs'. congruence.
Qed.

Lemma countStep_fold_None attrs n :
  foldM countStep None attrs = Return n → vertexCounts (default 0 n) attrs.
Proof.
  revert n. induction attrs as [| p attrs IH]; intros n; simpl.
  - intros _. apply Forall_nil_2.
  - unfold countStep at 1. destruct (values p.2) as [vs |] eqn:Hvs.
    + destruct (attributeVertexCount p.2 vs) as [num |] eqn:Hnum; [| done].
      simpl. intros [-> Hrest]%countStep_fold_Some. simpl.
      apply Forall_cons. split; [| done]. intros vs'. congruence.
    + simpl. intros Hrest%IH. apply Forall_cons. split; [| done]. intros vs'. congruence.
Qed.

Lemma computeNumberOfVertices_counts g N :
  computeNumberOfVertices g = Return N → vertexCounts N (attributes g).
Proof.
  rewrite computeNumberOfVertices_unfold.
  destruct (foldM countStep None (attributes g)) as [n |] eqn:Hfold; [| done].
  simpl. intros [= <-]. by apply countStep_fold_None.
Qed.

Lemma vertexCounts_fold_Some attrs N :
  vertexCounts N attrs → foldM countStep (Some N) attrs = Return (Some N).
Proof.
  induction attrs as [| p attrs IH]; intros Hall; simpl; [done |].
  apply Forall_cons in Hall as [Hp Hall]. unfold countStep at 1.
  destruct (values p.2) as [vs |] eqn:Hvs; simpl; [| by apply IH].
  rewrite (Hp vs eq_refl). rewrite decide_True by done. simpl. by apply IH.
Qed.

(** [computeNumberOfVertices] reads the lengths of the values and the
    component counts only. *)
Lemma vertexCounts_fold_None attrs N :
  vertexCounts N attrs →
  ∃ n, foldM countStep None attrs = Return n ∧ (n = Some N ∨ n = None).
Proof.
  induction attrs as [| p attrs IH]; intros Hall; simpl; [by eauto |].
  apply Forall_cons in Hall as [Hp Hall]. unfold countStep at 1.
  destruct (values p.2) as [vs |] eqn:Hvs; simpl; [| by apply IH].
  rewrite (Hp vs eq_refl). simpl. rewrite vertexCounts_fold_Some by done. eauto.
Qed.

Lemma attributeVertexCount_Some (a : GeometryAttribute) vs N :
  attributeVertexCount a vs = Some N ↔
  componentsPerAttribute a ≠ 0%nat ∧ len vs = Z.of_nat (componentsPerAttribute a) * N.
Proof.
  unfold attributeVertexCount. case_decide as Hc.
  - destruct Hc as [Hc Hmod]. apply Z.mod_divide in Hmod as [q Hq]; [| done].
    rewrite Hq, Z.div_mul by done. split.
    + intros [= <-]. split; lia.
    + intros [_ HN]. f_equal. nia.
  - split; [done |]. intros [Hc' HN]. destruct Hc. split; [lia |].
    rewrite HN, Z.mul_comm. apply Z.mod_mul. lia.
Qed.

End ComputeNumberOfVerticesFacts.

Section IdempotenceFacts.
Context `{Imports}.
Implicit Types (g : Geometry) (l : list Z) (vs : list (option float)).

Lemma countStep_ext n (p p' : string * GeometryAttribute) :
  componentsPerAttribute p.2 = componentsPerAttribute p'.2 →
  len <$> values p.2 = len <$> values p'.2 →
  countStep n p = countStep n p'.
Proof.
  intros Hc Hv. unfold countStep, attributeVertexCount.
  destruct (values p.2) as [vs |], (values p'.2) as [vs' |]; simplify_eq/=; [| done].
  by rewrite Hc, Hv.
Qed.

Lemma computeNumberOfVertices_ext g g' :
  Forall2 (λ p p', componentsPerAttribute p.2 = componentsPerAttribute p'.2
                   ∧ len <$> values p.2 = len <$> values p'.2)
          (attributes g) (attributes g') →
  computeNumberOfVertices g = computeNumberOfVertices g'.
Proof.
  rewrite !computeNumberOfVertices_unfold. intros Hall. f_equal.
  generalize (@None Z). induction Hall as [| p p' attrs attrs' [Hc Hv] _ IH]; intros n; simpl.
  - done.
  - rewrite (countStep_ext n p p') by done. destruct (countStep n p'); simpl; [apply IH | done].
Qed.

(** When every vertex is referenced the first-reference order lists all
    [N] vertices. *)
Lemma len_firstSeen_all N l :
  0 ≤ N → Forall (λ i, 0 ≤ i < N) l → (∀ i, 0 ≤ i < N → i ∈ l) → len (firstSeen l) = N.
Proof.
  intros HN Hl Hall. transitivity (len (range 0 N)); [| rewrite length_range; lia].
  unfold len. f_equal. apply Permutation_length, NoDup_Permutation.
  - apply NoDup_firstSeen.
  - apply NoDup_range.
  - intros i. rewrite elem_of_firstSeen, elem_of_range. split; [| apply Hall].
    rewrite Forall_forall in Hl. apply Hl.
Qed.

Lemma firstSeen_fmap (f : Z → Z) l :
  (∀ i j, i ∈ l → j ∈ l → f i = f j → i = j) →
  firstSeen (f <$> l) = f <$> firstSeen l.
Proof.
  induction l as [| i l IH] using rev_ind; intros Hinj; [done |].
  rewrite fmap_app. simpl. rewrite !firstSeen_snoc.
  rewrite IH by (intros; apply Hinj; try done; apply elem_of_app; by left).
  destruct (decide (i ∈ firstSeen l)) as [Hi | Hi].
  - rewrite decide_True; [done |]. by apply list_elem_of_fmap_2.
  - rewrite decide_False; [by rewrite fmap_app |].
    intros (j & Hfj & Hj)%list_elem_of_fmap. apply Hi.
    assert (i = j); [| by subst].
    apply Hinj; [| | done]; apply elem_of_app.
    + right. by apply list_elem_of_singleton.
    + left. by apply elem_of_firstSeen.
Qed.

Lemma renumbered_Some l : Some <$> renumbered l = firstReferenceRank l <$> l.
Proof.
  unfold renumbered. rewrite <- list_fmap_compose. apply list_fmap_ext.
  intros n i Hi. simpl.
  destruct (firstReferenceRank_is_Some l i) as [r Hr]; [by eapply list_elem_of_lookup_2 |].
  by rewrite Hr.
Qed.

Lemma firstSeen_renumbered l : firstSeen (renumbered l) = range 0 (len (firstSeen l)).
Proof.
  unfold renumbered. rewrite firstSeen_fmap.
  - apply list_eq_same_length with (length (firstSeen l)).
    + unfold range, len. rewrite length_seqZ. lia.
    + by rewrite length_fmap.
    + intros n r r' Hn. rewrite list_lookup_fmap.
      destruct (firstSeen l !! n) as [i |] eqn:Hi; [| done]. simpl.
      unfold firstReferenceRank. rewrite (indexOf_lookup _ n i); [| apply NoDup_firstSeen | done].
      simpl. intros [= <-]. unfold range. rewrite lookup_seqZ_lt by (unfold len; lia).
      intros [= <-]. lia.
  - intros i j Hi Hj.
    destruct (firstReferenceRank_is_Some l i Hi) as [r Hr].
    destruct (firstReferenceRank_is_Some l j Hj) as [r' Hr'].
    rewrite Hr, Hr'. simpl. intros <-. by eapply firstReferenceRank_inj.
Qed.

Lemma firstReferenceRank_renumbered l r :
  0 ≤ r < len (firstSeen l) → firstReferenceRank (renumbered l) r = Some r.
Proof.
  intros Hr. unfold firstReferenceRank. rewrite firstSeen_renumbered. by apply indexOf_range.
Qed.

Lemma elem_of_renumbered l r : r ∈ renumbered l ↔ 0 ≤ r < len (firstSeen l).
Proof. by rewrite <- elem_of_firstSeen, firstSeen_renumbered, elem_of_range. Qed.

Lemma reorderValues_renumbered N l nc vs :
  0 < nc → 0 ≤ N → len (firstSeen l) = N → len vs = nc * N →
  reorderValues N (crossReference N (renumbered l)) nc vs = vs.
Proof.
  intros Hnc HN Hseen Hlen.
  assert (Hl1 : Forall (λ i, 0 ≤ i < N) (renumbered l)).
  { apply Forall_forall. intros r Hr%elem_of_renumbered. lia. }
  assert (Hseen1 : len (firstSeen (renumbered l)) = N).
  { rewrite firstSeen_renumbered, length_range; lia. }
  apply array_eq.
  - rewrite len_reorderValues by done. rewrite Hseen1. lia.
  - rewrite len_reorderValues by done. rewrite Hseen1. intros k Hk.
    rewrite (Z.div_mod k nc) by lia.
    assert (0 ≤ k `mod` nc < nc) by (apply Z.mod_pos_bound; lia).
    assert (0 ≤ k `div` nc < N).
    { split; [apply Z.div_pos; lia | apply Z.div_lt_upper_bound; lia]. }
    apply get_reorderValues; [done | | done].
    apply firstReferenceRank_renumbered. lia.
Qed.

End IdempotenceFacts.

Section Ranks.

(** The rank of a first occurrence counts the distinct values before it. *)
Lemma firstReferenceRank_distinct_before (p s : list Z) (i : Z) :
  i ∉ p →
  firstReferenceRank (p ++ i :: s) i = Some (Z.of_nat (size (list_to_set p : gset Z))).
Proof.
  intros Hi. induction s as [| j s IH] using rev_ind.
  - rewrite firstReferenceRank_snoc_new by done. f_equal. unfold len. f_equal.
    rewrite <- (size_list_to_set (C := gset Z) (firstSeen p)) by apply NoDup_firstSeen.
    f_equal. apply set_eq. intros k. by rewrite !elem_of_list_to_set, elem_of_firstSeen.
  - replace (p ++ i :: s ++ [j]) with ((p ++ i :: s) ++ [j]) by by rewrite <- app_assoc.
    rewrite firstReferenceRank_snoc_old; [done |].
    apply elem_of_app. right. by left.
Qed.

End Ranks.

Section PreVertexCacheTheorems.
Context `{Imports}.
Implicit Types (g : Geometry) (l : list Z).

Lemma attributeVertexCount_nonneg (a : GeometryAttribute) vs N :
  attributeVertexCount a vs = Some N → 0 ≤ N.
Proof.
  intros [Hc Hlen]%attributeVertexCount_Some. unfold len in Hlen. nia.
Qed.

Lemma countStep_fold_nonneg attrs n0 n :
  foldM countStep n0 attrs = Return n → 0 ≤ default 0 n0 → 0 ≤ default 0 n.
Proof.
  revert n0. induction attrs as [| p attrs IH]; intros n0; simpl; [by intros [= <-] |].
  destruct (countStep n0 p) as [n1 |] eqn:Hstep; [| done]. simpl.
  intros Hfold Hn0. apply (IH n1 Hfold). unfold countStep in Hstep.
  destruct (values p.2) as [vs |]; [| by simplify_eq].
  destruct (attributeVertexCount p.2 vs) as [num |] eqn:Hnum; [| done].
  apply attributeVertexCount_nonneg in Hnum.
  destruct n0 as [m |]; [case_decide |]; by simplify_eq/=.
Qed.

Lemma computeNumberOfVertices_nonneg g N : computeNumberOfVertices g = Return N → 0 ≤ N.
Proof.
  rewrite computeNumberOfVertices_unfold.
  destruct (foldM countStep None (attributes g)) as [n |] eqn:Hfold; [| done].
  simpl. intros [= <-]. by apply (countStep_fold_nonneg _ _ _ Hfold).
Qed.

(** The scan never reaches its [throw]: an index that is not a vertex reads
    [undefined] from the cross reference, and [undefined !== -1]. *)
Lemma scan_completes N (indices : list (option Z)) s :
  len (indexCrossReferenceOldToNew s) = N →
  ∃ s', foldM (scanStep N) s indices = Return s'.
Proof.
  revert s. induction indices as [| v indices IH]; intros s Hlen; simpl; [by eauto |].
  unfold scanStep at 1. case_decide as Hv.
  - simpl. by apply IH.
  - destruct v as [i |]; [| done].
    destruct (decide (0 ≤ i < N)) as [Hi | Hi].
    + unfold geNumber. rewrite bool_decide_eq_false_2 by lia. simpl. apply IH. simpl.
      rewrite len_set by lia. lia.
    + exfalso. destruct (decide (i < 0)).
      * by rewrite get_negative in Hv.
      * rewrite get_outside in Hv by lia. done.
Qed.

Lemma reorderForPreVertexCache_completes g N :
  computeNumberOfVertices g = Return N → ∃ g', reorderForPreVertexCache g = Return g'.
Proof.
  intros HN. pose proof (computeNumberOfVertices_nonneg _ _ HN).
  unfold reorderForPreVertexCache. rewrite HN.
  unfold mbind, result_bind. cbn [JS.bind].
  destruct (indexList g) as [indices |]; [| by eauto].
  destruct (scan_completes N indices (scanStart N)) as [s Hs].
  { simpl. by apply len_replicate. }
  rewrite Hs. simpl. eauto.
Qed.

Lemma reorderAttribute_moves N l (a : GeometryAttribute) :
  Forall (λ i, 0 ≤ i < N) l →
  componentDatatype (reorderAttribute N (crossReference N l) a) = componentDatatype a
  ∧ componentsPerAttribute (reorderAttribute N (crossReference N l) a)
    = componentsPerAttribute a
  ∧ normalize (reorderAttribute N (crossReference N l) a) = normalize a
  ∧ match values a with
    | None => values (reorderAttribute N (crossReference N l) a) = None
    | Some vs =>
        ∃ vs', values (reorderAttribute N (crossReference N l) a) = Some vs'
          ∧ ∀ i r c, firstReferenceRank l i = Some r →
                     0 ≤ c < Z.of_nat (componentsPerAttribute a) →
                     get vs' (Some (Z.of_nat (componentsPerAttribute a) * r + c))
                     = get vs (Some (Z.of_nat (componentsPerAttribute a) * i + c))
    end.
Proof.
  intros Hl. unfold reorderAttribute. destruct (values a) as [vs |] eqn:Hvs.
  - split_and!; try done. eexists. split; [done |].
    intros i r c Hr Hc. by apply get_reorderValues.
  - by rewrite Hvs.
Qed.

Lemma reordered_idempotent g N l :
  computeNumberOfVertices g = Return N → indexList g = Some (Some <$> l) →
  Forall (λ i, 0 ≤ i < N) l → (∀ i, 0 ≤ i < N → i ∈ l) →
  reorderForPreVertexCache (reordered g N l) = Return (reordered g N l).
Proof.
  intros HN Hindex Hl Hall.
  pose proof (computeNumberOfVertices_nonneg _ _ HN) as Hpos.
  pose proof (computeNumberOfVertices_counts _ _ HN) as Hcounts.
  pose proof (len_firstSeen_all N l Hpos Hl Hall) as Hseen.
  assert (Hvalues : ∀ (p : string * GeometryAttribute), p ∈ attributes g →
            ∀ vs, values p.2 = Some vs →
            0 < Z.of_nat (componentsPerAttribute p.2)
            ∧ len vs = Z.of_nat (componentsPerAttribute p.2) * N
            ∧ len (reorderValues N (crossReference N l)
                                 (Z.of_nat (componentsPerAttribute p.2)) vs)
              = Z.of_nat (componentsPerAttribute p.2) * N).
  { intros p Hp vs Hvs. unfold vertexCounts in Hcounts. rewrite Forall_forall in Hcounts.
    apply (Hcounts p Hp), attributeVertexCount_Some in Hvs as [Hc Hlen].
    split_and!; [lia | done |]. rewrite len_reorderValues by (done || lia). by rewrite Hseen. }
  assert (Hl1 : Forall (λ i, 0 ≤ i < N) (renumbered l)).
  { apply Forall_forall. intros r Hr%elem_of_renumbered. lia. }
  rewrite (reorderForPreVertexCache_eq _ N (renumbered l)).
  - f_equal. unfold reordered. simpl. f_equal.
    + rewrite <- list_fmap_compose. apply list_fmap_ext. intros n [name a] Hp.
      apply list_elem_of_lookup_2 in Hp. simpl. f_equal.
      unfold reorderAttribute. destruct (values a) as [vs |] eqn:Hvs; simpl.
      * unfold withValues. simpl. do 2 f_equal.
        destruct (Hvalues _ Hp vs Hvs) as (Hc & Hlen & Hlen').
        apply reorderValues_renumbered; done.
      * by rewrite Hvs.
    + f_equal. rewrite <- (renumbered_Some l).
      apply list_fmap_ext. intros n r Hr.
      apply firstReferenceRank_renumbered, elem_of_renumbered. by eapply list_elem_of_lookup_2.
  - rewrite <- HN. symmetry. apply computeNumberOfVertices_ext. unfold reordered. simpl.
    apply Forall2_fmap_r, Forall_Forall2_diag, Forall_forall. intros [name a] Hp. simpl.
    unfold reorderAttribute. destruct (values a) as [vs |] eqn:Hvs; [| by rewrite Hvs].
    simpl. destruct (Hvalues _ Hp vs Hvs) as (Hc & Hlen & Hlen').
    split; [done |]. f_equal. simpl in *. congruence.
  - unfold reordered. simpl. by rewrite renumbered_Some.
  - done.
Qed.

End PreVertexCacheTheorems.

(** ** toWireframe *)

Section ToWireframeTheorems.
Context `{Imports}.

Lemma toWireframe_without_indices (g : Geometry) :
  indexList g = None → toWireframe g = g.
Proof. intros Hg. unfold toWireframe. by rewrite Hg. Qed.

(** With an index list, a topology that is not a triangle topology keeps its
    indices, and the primitive type is set to [LINES] all the same. *)
Lemma toWireframe_not_triangles (g : Geometry) indices :
  indexList g = Some indices →
  primitiveType g ≠ TRIANGLES → primitiveType g ≠ TRIANGLE_STRIP →
  primitiveType g ≠ TRIANGLE_FAN →
  toWireframe g = withPrimitiveType g LINES.
Proof.
  intros Hg H1 H2 H3. unfold toWireframe. rewrite Hg.
  by destruct (primitiveType g).
Qed.

End ToWireframeTheorems.

(** C4, at the input on which the code departs from it: a [POINTS] geometry
    with the index list [0, 1, 2] comes back from [toWireframe] with the same
    index list and with the primitive type [LINES], not [POINTS]. *)
Theorem toWireframe_indexed_points_become_lines :
  primitiveType Example.points = POINTS
  ∧ indexList (toWireframe Example.points) = indexList Example.points
  ∧ primitiveType (toWireframe Example.points) = LINES
  ∧ toWireframe Example.points ≠ Example.points.
Proof. by split_and!. Qed.

(** ** reorderForPostVertexCache *)

(** C9: [reorderForPostVertexCache] leaves the attributes (and the primitive
    type and the bounding sphere) of the geometry it returns as they were,
    whatever [Tipsify.tipsify] computes; it returns the geometry itself when
    the primitive type is not [TRIANGLES] or there is no index list; and it
    throws only what [Tipsify.tipsify] throws, before it has assigned
    anything. *)
Theorem reorderForPostVertexCache_frame `{Imports} (g : Geometry) (cacheCapacity : option Z) :
  (∀ g', reorderForPostVertexCache g cacheCapacity = Return g' →
         attributes g' = attributes g
         ∧ primitiveType g' = primitiveType g
         ∧ boundingSphere g' = boundingSphere g)
  ∧ (primitiveType g ≠ TRIANGLES ∨ indexList g = None →
     reorderForPostVertexCache g cacheCapacity = Return g)
  ∧ (∀ e, reorderForPostVertexCache g cacheCapacity = Throw e →
          ∃ indices, indexList g = Some indices ∧ primitiveType g = TRIANGLES
                     ∧ Tipsify_tipsify indices (maximumIndexOf indices) cacheCapacity = Throw e).
Proof.
  unfold reorderForPostVertexCache. split_and!.
  - intros g'. destruct (indexList g) as [indices |]; [| by intros [= <-]].
    case_decide; [| by intros [= <-]].
    destruct (Tipsify_tipsify indices (maximumIndexOf indices) cacheCapacity); [| done].
    by intros [= <-].
  - intros [Ht | Hi].
    + destruct (indexList g); [| done]. by rewrite decide_False.
    + by rewrite Hi.
  - intros e. destruct (indexList g) as [indices |]; [| done].
    case_decide; [| done].
    destruct (Tipsify_tipsify indices (maximumIndexOf indices) cacheCapacity) eqn:Htips; [done |].
    intros [= <-]. eauto.
Qed.

Lemma reorderForPostVertexCache_frame_witness :
  (attributes Example.triangle = attributes Example.triangle
   ∧ primitiveType Example.triangle = primitiveType Example.triangle
   ∧ boundingSphere Example.triangle = boundingSphere Example.triangle)
  ∧ reorderForPostVertexCache Example.flatLine None = Return Example.flatLine
  ∧ ∃ indices, indexList Example.triangle = Some indices
               ∧ primitiveType Example.triangle = TRIANGLES
               ∧ Tipsify_tipsify indices (maximumIndexOf indices) (Some 2)
                 = Throw (DeveloperError "cacheSize must be greater than two.").
Proof.
  split; [| split].
  - apply (proj1 (reorderForPostVertexCache_frame Example.triangle (Some 24))
                 Example.triangle).
    reflexivity.
  - apply (proj1 (proj2 (reorderForPostVertexCache_frame Example.flatLine None))).
    right. reflexivity.
  - apply (proj2 (proj2 (reorderForPostVertexCache_frame Example.triangle (Some 2)))).
    reflexivity.
Defined.

(** ** computeNormal: the checks on the position attribute *)

(** C10: [computeNormal] checks the position attribute first. When it is
    missing, has no values, has a component count other than 3 or a number of
    values that is not a multiple of 3, the call throws a [DeveloperError],
    whatever the primitive type and whether or not there is an index list;
    with a well-formed position, a geometry that is not [TRIANGLES] or has no
    index list is returned as it is. *)
Theorem computeNormal_validates_position_first `{Imports} (g : Geometry) :
  (lookupAttribute "position" (attributes g) = None
   ∨ (∃ position, lookupAttribute "position" (attributes g) = Some position
                  ∧ (values position = None
                     ∨ componentsPerAttribute position ≠ 3%nat
                     ∨ ∃ vertices, values position = Some vertices
                                   ∧ len vertices `mod` 3 ≠ 0)) →
   ∃ message, computeNormal g = Throw (DeveloperError message))
  ∧ (∀ position vertices,
       lookupAttribute "position" (attributes g) = Some position →
       values position = Some vertices →
       componentsPerAttribute position = 3%nat → len vertices `mod` 3 = 0 →
       primitiveType g ≠ TRIANGLES ∨ indexList g = None →
       computeNormal g = Return g).
Proof.
  unfold computeNormal. split.
  - intros [Hnone | (position & Hpos & Hbad)].
    + rewrite Hnone. eauto.
    + rewrite Hpos. destruct (values position) as [vertices |] eqn:Hvalues; [| eauto].
      rewrite decide_True; [eauto |].
      destruct Hbad as [? | [? | (? & [= <-] & ?)]]; [done | by left | by right].
  - intros position vertices Hpos Hvalues Hc Hmod Hskip.
    rewrite Hpos, Hvalues. rewrite decide_False by (intros [? | ?]; done).
    destruct (indexList g) as [indices |]; [| done].
    destruct Hskip as [Ht | ?]; [| done]. rewrite decide_True; [done | by left].
Qed.

Lemma computeNormal_validates_position_first_witness :
  (∃ message, computeNormal Example.flatLine = Throw (DeveloperError message))
  ∧ computeNormal (withIndexList Example.triangle None)
    = Return (withIndexList Example.triangle None).
Proof.
  split.
  - apply (proj1 (computeNormal_validates_position_first Example.flatLine)).
    right. eexists. split; [reflexivity |]. right. left. simpl. lia.
  - eapply (proj2 (computeNormal_validates_position_first (withIndexList Example.triangle None)));
      [reflexivity | reflexivity | reflexivity | reflexivity | right; reflexivity].
Defined.

(** ** reorderForPreVertexCache: the theorems *)

(** C1: on an index list [l] that references existing vertices,
    [reorderForPreVertexCache] replaces every index by the rank of its first
    occurrence (the number of distinct values that occur before it, so the
    first-seen vertex becomes 0 and the next distinct one 1), and in every
    attribute the components of old vertex [i] are found at the slot of the
    rank of [i]; the names, datatypes, component counts and normalization
    flags stay. For the indices [2, 2, 0, 1] over four one-component vertices
    the index list becomes [0, 0, 1, 2] and the value of old slot 2 is at
    slot 0. *)
Theorem reorderForPreVertexCache_first_reference_order :
  (∀ `{Imports} (g : Geometry) (N : Z) (l : list Z),
     computeNumberOfVertices g = Return N →
     indexList g = Some (Some <$> l) →
     Forall (λ i, 0 ≤ i < N) l →
     ∃ g', reorderForPreVertexCache g = Return g'
       ∧ indexList g' = Some (firstReferenceRank l <$> l)
       ∧ Forall2
           (λ p p',
              p'.1 = p.1
              ∧ componentDatatype p'.2 = componentDatatype p.2
              ∧ componentsPerAttribute p'.2 = componentsPerAttribute p.2
              ∧ normalize p'.2 = normalize p.2
              ∧ match values p.2 with
                | None => values p'.2 = None
                | Some vs =>
                    ∃ vs', values p'.2 = Some vs'
                      ∧ ∀ i r c, firstReferenceRank l i = Some r →
                                 0 ≤ c < Z.of_nat (componentsPerAttribute p.2) →
                                 get vs' (Some (Z.of_nat (componentsPerAttribute p.2) * r + c))
                                 = get vs (Some (Z.of_nat (componentsPerAttribute p.2) * i + c))
                end)
           (attributes g) (attributes g'))
  ∧ (∀ (p s : list Z) (i : Z),
       i ∉ p →
       firstReferenceRank (p ++ i :: s) i = Some (Z.of_nat (size (list_to_set p : gset Z))))
  ∧ (∀ `{Imports} datatype normalized (a b c d : option float) type sphere,
       reorderForPreVertexCache
         (mkGeometry [("position"%string,
                        mkGeometryAttribute datatype 1 normalized (Some [a; b; c; d]))]
                     (Some [Some 2; Some 2; Some 0; Some 1]) type sphere)
       = Return
           (mkGeometry [("position"%string,
                          mkGeometryAttribute datatype 1 normalized (Some [c; a; b]))]
                       (Some [Some 0; Some 0; Some 1; Some 2]) type sphere)).
Proof.
  split_and!.
  - intros ? g N l HN Hindex Hl. exists (reordered g N l). split_and!.
    + by apply reorderForPreVertexCache_eq.
    + done.
    + simpl. apply Forall2_fmap_r, Forall_Forall2_diag, Forall_forall.
      intros [name a] _. simpl.
      destruct (reorderAttribute_moves N l a Hl) as (? & ? & ? & ?). by split_and!.
  - intros p s i. apply firstReferenceRank_distinct_before.
  - intros. reflexivity.
Qed.

Lemma reorderForPreVertexCache_first_reference_order_witness :
  ∃ g', reorderForPreVertexCache Example.fourVertices = Return g'
    ∧ indexList g' = Some (firstReferenceRank [2; 2; 0; 1] <$> [2; 2; 0; 1]).
Proof.
  destruct (proj1 reorderForPreVertexCache_first_reference_order Example.imports
              Example.fourVertices 4 [2; 2; 0; 1])
    as (g' & Hg' & Hindex & _).
  - reflexivity.
  - reflexivity.
  - repeat constructor; lia.
  - exists g'. by split.
Defined.

(** C5, at an input on which the code departs from it: with one vertex and
    the index list [5, 0], whose first element is not below the number of
    vertices, [reorderForPreVertexCache] throws nothing; it returns the
    geometry with [undefined] in the place of the index 5. *)
Theorem reorderForPreVertexCache_out_of_range_returns :
  computeNumberOfVertices Example.outOfRange = Return 1
  ∧ indexList Example.outOfRange = Some [Some 5; Some 0]
  ∧ reorderForPreVertexCache Example.outOfRange
    = Return (withIndexList Example.outOfRange (Some [undefined; Some 0])).
Proof. by split_and!; vm_compute. Qed.

(** C6: applied to its own result, on a geometry whose index list references
    existing vertices only and every one of them, [reorderForPreVertexCache]
    returns that result again: the same index list and the same attributes. *)
Theorem reorderForPreVertexCache_idempotent `{Imports} (g : Geometry) (N : Z) (l : list Z) :
  computeNumberOfVertices g = Return N →
  indexList g = Some (Some <$> l) →
  Forall (λ i, 0 ≤ i < N) l →
  (∀ i, 0 ≤ i < N → i ∈ l) →
  ∃ g1, reorderForPreVertexCache g = Return g1
    ∧ reorderForPreVertexCache g1 = Return g1.
Proof.
  intros HN Hindex Hl Hall. exists (reordered g N l). split.
  - by apply reorderForPreVertexCache_eq.
  - by apply reordered_idempotent.
Qed.

Lemma reorderForPreVertexCache_idempotent_witness :
  ∃ g1, reorderForPreVertexCache Example.quad = Return g1
    ∧ reorderForPreVertexCache g1 = Return g1.
Proof.
  apply (reorderForPreVertexCache_idempotent Example.quad 4 [2; 3; 0; 0; 3; 1]).
  - reflexivity.
  - reflexivity.
  - repeat constructor; lia.
  - intros i Hi. assert (i = 0 ∨ i = 1 ∨ i = 2 ∨ i = 3) as Hcases by lia. clear Hi.
    destruct Hcases as [-> | [-> | [-> | ->]]]; rewrite !elem_of_cons; auto 10.
Defined.

(** ** fitToUnsignedShortIndices *)

Section AttributeMapFacts.
Context `{Imports}.
Implicit Types (attrs dest : list (string * GeometryAttribute)).

Lemma lookupAttribute_setAttribute name a attrs n :
  lookupAttribute n (setAttribute name a attrs)
  = if decide (name = n) then Some a else lookupAttribute n attrs.
Proof.
  induction attrs as [| [m b] attrs IH]; simpl.
  - done.
  - destruct (decide (m = name)) as [-> | Hm]; simpl.
    + destruct (decide (name = n)); done.
    + rewrite IH. destruct (decide (m = n)) as [-> | ?]; [| done].
      by rewrite decide_False by done.
Qed.

Lemma copyAttributesDescriptions_pushable attrs :
  Forall (λ p, is_Some (values p.2) → pushable (copyAttributesDescriptions attrs) p.1) attrs.
Proof.
  unfold copyAttributesDescriptions.
  induction attrs as [| p attrs IH] using rev_ind; [apply Forall_nil_2 |].
  rewrite foldl_snoc. apply Forall_app. split.
  - eapply Forall_impl; [apply IH |]. intros q Hq Hv. specialize (Hq Hv).
    destruct (values p.2); [| done]. destruct Hq as (a & vs & Ha & Hvs).
    unfold pushable. rewrite lookupAttribute_setAttribute. case_decide; eauto.
  - apply Forall_singleton. intros [vs Hvs]. rewrite Hvs.
    unfold pushable. rewrite lookupAttribute_setAttribute, decide_True by done. eauto.
Qed.

Lemma pushValue_pushable name v dest :
  pushable dest name →
  ∃ dest', pushValue name v dest = Return dest' ∧ ∀ n, pushable dest n → pushable dest' n.
Proof.
  induction dest as [| [m b] dest IH]; intros (a & vs & Ha & Hvs); simpl in *; [done |].
  destruct (decide (m = name)) as [-> | Hm].
  - injection Ha as ->. rewrite Hvs. eexists. split; [done |].
    intros n (a' & vs' & Ha' & Hvs'). unfold pushable. simpl in *.
    destruct (decide (name = n)); [| eauto]. simplify_eq. eauto.
  - destruct IH as (dest' & Hpush & Hkeep); [by exists a, vs |].
    rewrite Hpush. simpl. eexists. split; [done |].
    intros n (a' & vs' & Ha' & Hvs'). unfold pushable in *. simpl in *.
    destruct (decide (m = n)); [eauto |]. apply Hkeep. eauto.
Qed.

Lemma pushValues_pushable name (f : Z → option float) dest (ks : list Z) :
  pushable dest name →
  ∃ dest', foldM (λ d k, pushValue name (f k) d) dest ks = Return dest'
           ∧ ∀ n, pushable dest n → pushable dest' n.
Proof.
  revert dest. induction ks as [| k ks IH]; intros dest Hp; simpl.
  - exists dest. split; auto.
  - destruct (pushValue_pushable name (f k) dest Hp) as (d1 & Hd1 & Hkeep1).
    rewrite Hd1. simpl. destruct (IH d1) as (d2 & Hd2 & Hkeep2); [by apply Hkeep1 |].
    exists d2. split; auto.
Qed.

Lemma copyVertex_pushable dest attrs index :
  Forall (λ p, is_Some (values p.2) → pushable dest p.1) attrs →
  ∃ dest', copyVertex dest attrs index = Return dest'
           ∧ ∀ n, pushable dest n → pushable dest' n.
Proof.
  unfold copyVertex. revert dest. induction attrs as [| p attrs IH]; intros dest Hall.
  - exists dest. split; auto.
  - apply Forall_cons in Hall as [Hp Hall]. simpl.
    destruct (values p.2) as [vs |] eqn:Hvs.
    + destruct (pushValues_pushable p.1
                  (componentOf vs index (Z.of_nat (componentsPerAttribute p.2))) dest
                  (range 0 (Z.of_nat (componentsPerAttribute p.2))))
        as (d & Hd & Hkeep); [apply Hp; by eexists |].
      rewrite Hd. simpl. destruct (IH d) as (dest' & Hdest' & Hkeep').
      { eapply Forall_impl; [apply Hall |]. intros q Hq Hv. apply Hkeep. auto. }
      exists dest'. split; auto.
    + simpl. by apply IH.
Qed.

End AttributeMapFacts.

Lemma size_add_seen (x : option Z) (seen : gset (option Z)) :
  (size ({[x]} ∪ seen) ≤ S (size seen))%nat.
Proof.
  rewrite size_union_alt, size_singleton.
  assert (size (seen ∖ {[x]}) ≤ size seen)%nat; [| lia].
  apply subseteq_size, subseteq_difference_l. done.
Qed.

Lemma indicesBelow_mono (a b : Z) (l : list (option Z)) :
  a ≤ b → indicesBelow a l → indicesBelow b l.
Proof.
  intros Hab Hl. eapply Forall_impl; [exact Hl |].
  intros v (i & -> & Hi). exists i. split; [done | lia].
Qed.

Section SplitLoopFacts.
Context `{Imports}.
Variable sixtyFourK indicesPerPrimitive : Z.
Variable g : Geometry.
Variable originalIndices : list (option Z).
Hypothesis primitive_size : 0 < indicesPerPrimitive ≤ sixtyFourK.

Lemma splitIndex_inv j k room read seen s :
  SplitInv sixtyFourK g originalIndices room read seen s → read = j + k →
  ∃ s', splitIndex g originalIndices j s k = Return s'
    ∧ SplitInv sixtyFourK g originalIndices (room + 1) (read + 1) ({[get originalIndices (Some (j + k))]} ∪ seen) s'
    ∧ geometries s' = geometries s.
Proof.
  intros [Hread Hdom Hsize Hvalues Hroom Hcount Hnew Hfresh Hgeo Hattrs] ->.
  unfold splitIndex. set (x := get originalIndices (Some (j + k))).
  destruct (oldToNewIndex s !! x) as [i |] eqn:Hx.
  - eexists. split; [done |]. split; [| done].
    assert (Hseen : x ∈ seen) by (apply Hdom, elem_of_dom; by eexists).
    assert (Heq : {[x]} ∪ seen = seen)
      by (by apply subseteq_union_1_L, singleton_subseteq_l). rewrite Heq.
    split; simpl; try done.
    + intros p Hp. destruct (decide (p = j + k)) as [-> | Hne]; [done | apply Hread; lia].
    + lia.
    + apply Forall_app. split; [done |]. apply Forall_singleton. eauto.
    + intros Hnil. by apply app_eq_nil in Hnil as [_ ?].
  - destruct (copyVertex_pushable (newAttributes s) (attributes g) x Hattrs)
      as (attrs' & Hcopy & Hkeep).
    rewrite Hcopy. simpl. eexists. split; [done |]. split; [| done].
    split; simpl.
    + intros p Hp. destruct (decide (p = j + k)) as [-> | Hne];
        [by apply elem_of_union_l, elem_of_singleton |].
      apply elem_of_union_r, Hread. lia.
    + rewrite dom_insert_L. by apply union_mono_l.
    + rewrite map_size_insert_None by done. lia.
    + intros y i. rewrite lookup_insert. case_decide.
      * intros [= <-]. lia.
      * intros Hy%Hvalues. lia.
    + lia.
    + pose proof (size_add_seen x seen). lia.
    + apply Forall_app. split.
      * eapply indicesBelow_mono; [| done]. lia.
      * apply Forall_singleton. exists (currentIndex s). split; [done | lia].
    + intros Hnil. by apply app_eq_nil in Hnil as [_ ?].
    + done.
    + eapply Forall_impl; [apply Hattrs |]. intros p Hp Hv. apply Hkeep. auto.
Qed.

Lemma splitIndices_inv j (n : nat) k room read seen s :
  SplitInv sixtyFourK g originalIndices room read seen s → read = j + k →
  ∃ s' seen', foldM (splitIndex g originalIndices j) s (range k (k + Z.of_nat n)) = Return s'
    ∧ SplitInv sixtyFourK g originalIndices (room + Z.of_nat n) (read + Z.of_nat n) seen' s'
    ∧ geometries s' = geometries s.
Proof.
  revert k room read seen s. induction n as [| n IH]; intros k room read seen s Hinv Hread.
  - rewrite range_empty by lia. exists s, seen. simpl. rewrite !Z.add_0_r. done.
  - rewrite range_cons by lia. simpl.
    destruct (splitIndex_inv j k room read seen s Hinv Hread) as (s1 & Hs1 & Hinv1 & Hgeo1).
    rewrite Hs1. simpl.
    destruct (IH (k + 1) _ _ _ s1 Hinv1 ltac:(lia)) as (s' & seen' & Hs' & Hinv' & Hgeo').
    exists s', seen'. split_and!.
    + rewrite <- Hs'. f_equal. f_equal. lia.
    + replace (room + Z.of_nat (S n)) with (room + 1 + Z.of_nat n) by lia.
      replace (read + Z.of_nat (S n)) with (read + 1 + Z.of_nat n) by lia. done.
    + congruence.
Qed.

Lemma splitPrimitive_inv q seen s :
  SplitInv sixtyFourK g originalIndices (sixtyFourK - indicesPerPrimitive) (q * indicesPerPrimitive) seen s →
  ∃ s' seen',
    splitPrimitive sixtyFourK indicesPerPrimitive g originalIndices s (q * indicesPerPrimitive)
    = Return s'
    ∧ SplitInv sixtyFourK g originalIndices (sixtyFourK - indicesPerPrimitive) ((q + 1) * indicesPerPrimitive) seen' s'.
Proof.
  intros Hinv. unfold splitPrimitive.
  destruct (splitIndices_inv (q * indicesPerPrimitive) (Z.to_nat indicesPerPrimitive) 0
              _ _ seen s Hinv ltac:(lia)) as (s1 & seen1 & Hs1 & Hinv1 & Hgeo1).
  rewrite Z2Nat.id in Hs1, Hinv1 by lia. rewrite Z.add_0_l in Hs1. rewrite Hs1.
  unfold mbind, result_bind. simpl.
  replace (q * indicesPerPrimitive + indicesPerPrimitive)
    with ((q + 1) * indicesPerPrimitive) in Hinv1 by lia.
  replace (sixtyFourK - indicesPerPrimitive + indicesPerPrimitive) with sixtyFourK in Hinv1 by lia.
  destruct Hinv1 as [Hread Hdom Hsize Hvalues Hroom Hcount Hnew Hfresh Hgeo Hattrs].
  case_decide as Hfull.
  - eexists _, seen1. split; [done |]. split; simpl; try done.
    + lia.
    + unfold len in *. rewrite length_app. simpl. nia.
    + apply Forall_nil_2.
    + apply Forall_app. split; [done |]. apply Forall_singleton. eexists. split; [done |].
      by eapply indicesBelow_mono.
    + apply copyAttributesDescriptions_pushable.
  - exists s1, seen1. split; [done |]. split; try done. lia.
Qed.

Lemma splitStart_inv :
  SplitInv sixtyFourK g originalIndices (sixtyFourK - indicesPerPrimitive) 0 ∅
      (mkSplit ∅ [] 0 (copyAttributesDescriptions (attributes g)) []).
Proof.
  split; cbn [oldToNewIndex newIndices currentIndex newAttributes geometries]; try done.
  - intros p Hp. lia.
  - lia.
  - rewrite size_empty. unfold len. simpl. lia.
  - apply Forall_nil_2.
  - apply copyAttributesDescriptions_pushable.
Qed.

Lemma splitPrimitives_inv (n : nat) :
  ∃ s seen,
    foldM (splitPrimitive sixtyFourK indicesPerPrimitive g originalIndices)
          (mkSplit ∅ [] 0 (copyAttributesDescriptions (attributes g)) [])
          ((λ q, q * indicesPerPrimitive) <$> range 0 (Z.of_nat n))
    = Return s
    ∧ SplitInv sixtyFourK g originalIndices (sixtyFourK - indicesPerPrimitive) (Z.of_nat n * indicesPerPrimitive) seen s.
Proof.
  induction n as [| n (s & seen & Hs & Hinv)].
  - eexists _, ∅. split; [done |]. apply splitStart_inv.
  - replace (Z.of_nat (S n)) with (Z.of_nat n + 1) by lia.
    rewrite range_snoc, fmap_app, foldM_app, Hs by lia. simpl.
    destruct (splitPrimitive_inv (Z.of_nat n) seen s Hinv) as (s' & seen' & Hs' & Hinv').
    rewrite Hs'. simpl. eauto.
Qed.

(** The split returns; it returns at least two geometries when the index
    list holds more than [sixtyFourK] distinct values, and every index of
    every geometry it returns is below [sixtyFourK]. *)
Lemma split_spec :
  ∃ gs, split sixtyFourK indicesPerPrimitive g originalIndices = Return gs
    ∧ Forall (λ g', ∃ l, indexList g' = Some l ∧ indicesBelow sixtyFourK l) gs
    ∧ (sixtyFourK < Z.of_nat (size (list_to_set originalIndices : gset (option Z))) →
       (2 ≤ length gs)%nat).
Proof.
  unfold split, primitiveStarts.
  set (Q := (len originalIndices + indicesPerPrimitive - 1) `div` indicesPerPrimitive).
  assert (HQ : len originalIndices ≤ Q * indicesPerPrimitive).
  { unfold Q. pose proof (Z.mul_div_le (len originalIndices + indicesPerPrimitive - 1)
                            indicesPerPrimitive ltac:(lia)).
    pose proof (Z.mod_pos_bound (len originalIndices + indicesPerPrimitive - 1)
                  indicesPerPrimitive ltac:(lia)).
    pose proof (Z.div_mod (len originalIndices + indicesPerPrimitive - 1)
                  indicesPerPrimitive ltac:(lia)). lia. }
  assert (HQ0 : 0 ≤ Q) by (apply Z.div_pos; unfold len; lia).
  destruct (splitPrimitives_inv (Z.to_nat Q)) as (s & seen & Hs & Hinv).
  rewrite Z2Nat.id in Hs, Hinv by done. rewrite Hs.
  unfold mbind, result_bind. simpl.
  destruct Hinv as [Hread Hdom Hsize Hvalues Hroom Hcount Hnew Hfresh Hgeo Hattrs].
  assert (Hseen : Z.of_nat (size (list_to_set originalIndices : gset (option Z)))
                  ≤ Z.of_nat (size seen)).
  { apply inj_le, subseteq_size. intros v Hv%elem_of_list_to_set.
    apply list_elem_of_lookup in Hv as [n Hn].
    specialize (Hread (Z.of_nat n)). rewrite get_nonneg, Nat2Z.id, Hn in Hread by lia.
    apply Hread. apply lookup_lt_Some in Hn. unfold len in HQ. lia. }
  case_decide as Hlast.
  - eexists. split; [done |]. split.
    + apply Forall_app. split; [done |]. apply Forall_singleton. eexists. split; [done |].
      eapply indicesBelow_mono; [| done]. lia.
    + intros Hmany. rewrite length_app. simpl.
      destruct (geometries s) as [| g1 gs]; simpl; [| lia].
      unfold len in Hcount. simpl in Hcount. lia.
  - exists (geometries s). split; [done |]. split; [done |].
    intros Hmany. assert (Hnil : newIndices s = []).
    { destruct (newIndices s); [done |]. unfold len in Hlast. simpl in Hlast. lia. }
    specialize (Hfresh Hnil). unfold len in Hcount.
    destruct (geometries s) as [| g1 [| g2 gs]]; simpl in *; lia.
Qed.

End SplitLoopFacts.

Section FitToUnsignedShortIndicesFacts.
Context `{Imports}.

Lemma size_list_to_set_Some (l : list Z) :
  (size (list_to_set l : gset Z)
   ≤ size (list_to_set (Some <$> l) : gset (option Z)))%nat.
Proof.
  set (d := elements (list_to_set l : gset Z)).
  assert (Hd : NoDup (Some <$> d)) by (apply (NoDup_fmap_2 _), NoDup_elements).
  transitivity (size (list_to_set (Some <$> d) : gset (option Z))).
  - rewrite (size_list_to_set (Some <$> d)) by done. rewrite length_fmap. subst d. reflexivity.
  - apply subseteq_size. intros v. rewrite !elem_of_list_to_set, !list_elem_of_fmap.
    intros (i & -> & Hi). exists i. split; [done |].
    by apply elem_of_elements, elem_of_list_to_set in Hi.
Qed.

Lemma size_list_to_set_range (N : Z) (l : list Z) :
  Forall (λ i, 0 ≤ i < N) l → Z.of_nat (size (list_to_set l : gset Z)) ≤ Z.max 0 N.
Proof.
  intros Hl. transitivity (Z.of_nat (size (list_to_set (range 0 N) : gset Z))).
  - apply inj_le, subseteq_size. intros i Hi%elem_of_list_to_set.
    apply elem_of_list_to_set, elem_of_range. rewrite Forall_forall in Hl. by apply Hl.
  - rewrite size_list_to_set by apply NoDup_range. unfold range. rewrite length_seqZ. lia.
Qed.

Lemma fitToUnsignedShortIndices_split (g : Geometry) (N : Z) (l : list Z) (n : Z) :
  indicesPerPrimitiveOf (primitiveType g) = Some n →
  computeNumberOfVertices g = Return N →
  indexList g = Some (Some <$> l) →
  Forall (λ i, 0 ≤ i < N) l →
  65536 < Z.of_nat (size (list_to_set l : gset Z)) →
  ∃ gs, fitToUnsignedShortIndices g = Return gs
    ∧ (2 ≤ length gs)%nat
    ∧ Forall (λ g', ∃ l', indexList g' = Some l' ∧ indicesBelow 65536 l') gs.
Proof.
  intros Hn HN Hindex Hl Hmany.
  pose proof (size_list_to_set_range N l Hl) as HNl.
  pose proof (size_list_to_set_Some l) as Hsome.
  unfold fitToUnsignedShortIndices. rewrite Hindex, Hn, HN.
  unfold mbind, result_bind. cbn [JS.bind].
  change (64 * 1024) with 65536. rewrite decide_True by lia.
  destruct (split_spec 65536 n g (Some <$> l)) as (gs & Hgs & Hbelow & Hcount).
  { destruct (primitiveType g); simplify_eq/=; lia. }
  exists gs. split_and!; [done | apply Hcount; lia | done].
Qed.

End FitToUnsignedShortIndicesFacts.

(** C2: for a [TRIANGLES] geometry whose index list references more than
    65536 distinct vertices (all of them existing vertices),
    [fitToUnsignedShortIndices] returns at least two geometries, and every
    index of every returned geometry is a number below 65536. *)
Theorem fitToUnsignedShortIndices_triangles `{Imports} (g : Geometry) (N : Z) (l : list Z) :
  primitiveType g = TRIANGLES →
  computeNumberOfVertices g = Return N →
  indexList g = Some (Some <$> l) →
  Forall (λ i, 0 ≤ i < N) l →
  65536 < Z.of_nat (size (list_to_set l : gset Z)) →
  ∃ gs, fitToUnsignedShortIndices g = Return gs
    ∧ (2 ≤ length gs)%nat
    ∧ Forall (λ g', ∃ l', indexList g' = Some l'
                          ∧ Forall (λ v, ∃ i, v = Some i ∧ 0 ≤ i < 65536) l') gs.
Proof.
  intros Ht. apply (fitToUnsignedShortIndices_split g N l 3). by rewrite Ht.
Qed.

Lemma fitToUnsignedShortIndices_triangles_witness :
  ∃ gs, fitToUnsignedShortIndices Example.bigMesh = Return gs
    ∧ (2 ≤ length gs)%nat
    ∧ Forall (λ g', ∃ l', indexList g' = Some l'
                          ∧ Forall (λ v, ∃ i, v = Some i ∧ 0 ≤ i < 65536) l') gs.
Proof.
  apply (fitToUnsignedShortIndices_triangles Example.bigMesh 70002 (range 0 70002)).
  - reflexivity.
  - unfold computeNumberOfVertices, Example.bigMesh, attributes.
    cbn [foldM]. unfold countStep at 1. cbn [snd values].
    unfold attributeVertexCount. rewrite len_replicate by lia. reflexivity.
  - reflexivity.
  - apply Forall_forall. intros i Hi%elem_of_range. lia.
  - rewrite size_list_to_set by apply NoDup_range. unfold range. rewrite length_seqZ. lia.
Defined.

(** ** combine *)

Section CombineFacts.
Context `{Imports}.

Lemma setFixed_middle {A : Type} (pre post : list (option A)) (old v : option A) (k : Z) :
  len pre = k → setFixed (pre ++ old :: post) k v = pre ++ v :: post.
Proof.
  intros <-. unfold setFixed, len. rewrite decide_True.
  - rewrite Nat2Z.id. by rewrite insert_app_r_alt, Nat.sub_diag by lia.
  - rewrite length_app. simpl. lia.
Qed.

(** Copying [sourceValues] over the part [old] of a typed array. *)
Lemma copyValues_spec datatype (sourceValues pre old post : list (option float)) k :
  len pre = k → length old = length sourceValues →
  copyValues datatype sourceValues (pre ++ old ++ post, k)
  = (pre ++ (typedArrayStore datatype <$> sourceValues) ++ post, k + len sourceValues).
Proof.
  unfold copyValues.
  revert pre old k. induction sourceValues as [| v vs IH]; intros pre old k Hk Hold.
  - destruct old; [| done]. simpl. f_equal. unfold len. simpl. lia.
  - destruct old as [| o old]; [done |]. simpl.
    rewrite setFixed_middle by done.
    replace (pre ++ typedArrayStore datatype v :: old ++ post)
      with ((pre ++ [typedArrayStore datatype v]) ++ old ++ post) by by rewrite <- app_assoc.
    rewrite IH.
    + rewrite <- app_assoc. simpl. f_equal. unfold len. simpl. lia.
    + unfold len in *. rewrite length_app. simpl. lia.
    + simpl in Hold. lia.
Qed.

Lemma copyIndices_spec offset (sourceValues pre old post : list (option Z)) bits k :
  len pre = k → length old = length sourceValues →
  copyIndices offset sourceValues (mkIndexBucket bits (pre ++ old ++ post) k)
  = mkIndexBucket bits
      (pre ++ ((λ v, Some (Number.toUint bits (Number.addValue offset v))) <$> sourceValues)
           ++ post)
      (k + len sourceValues).
Proof.
  unfold copyIndices.
  revert pre old k. induction sourceValues as [| v vs IH]; intros pre old k Hk Hold.
  - destruct old; [| done]. simpl. f_equal. unfold len. simpl. lia.
  - destruct old as [| o old]; [done |]. simpl.
    rewrite setFixed_middle by done.
    match goal with
    | |- context [pre ++ ?e :: old ++ post] =>
        replace (pre ++ e :: old ++ post) with ((pre ++ [e]) ++ old ++ post)
          by by rewrite <- app_assoc
    end.
    rewrite IH.
    + rewrite <- app_assoc. simpl. f_equal. unfold len. simpl. lia.
    + unfold len in *. rewrite length_app. simpl. lia.
    + simpl in Hold. lia.
Qed.

(** The offset after one instance of [k] vertices, added to an index. *)
Lemma toUint_offset bits (k i : Z) (c : nat) :
  c ≠ 0%nat → 0 ≤ k + i < 2 ^ bits →
  Number.toUint bits
    (Number.addValue (Number.add (Number.ofZ 0) (Number.divide (Z.of_nat c * k) c)) (Some i))
  = k + i.
Proof.
  intros Hc Hrange. destruct c as [| c]; [done |].
  unfold Number.divide, Number.addValue, Number.add, Number.ofZ, Number.toUint.
  unfold Qplus, inject_Z. cbn [Qnum Qden].
  set (p := Pos.of_nat (S c)).
  assert (Hp : Z.pos p = Z.of_nat (S c)) by (unfold p; lia).
  rewrite !Pos.mul_1_l, !Pos.mul_1_r, Hp.
  replace ((0 * Z.of_nat (S c) + Z.of_nat (S c) * k * 1) * 1 + i * Z.of_nat (S c))
    with ((k + i) * Z.of_nat (S c)) by lia.
  rewrite Z.quot_mul by lia. apply Z.mod_small. lia.
Qed.

Lemma toUint_first bits (i : Z) :
  0 ≤ i < 2 ^ bits → Number.toUint bits (Number.addValue (Number.ofZ 0) (Some i)) = i.
Proof.
  intros Hi. unfold Number.addValue, Number.add, Number.ofZ, Number.toUint, Qplus, inject_Z.
  cbn [Qnum Qden]. rewrite Z.quot_1_r. replace (0 * 1 + i * 1) with i by lia.
  by apply Z.mod_small.
Qed.

End CombineFacts.

Section CombineTwo.
Context `{Imports}.
Variables (a1 a2 : GeometryAttribute) (vs1 vs2 : list (option float)) (l1 l2 : list Z).
Variables (type : PrimitiveType) (s1 s2 : option BoundingSphere) (m1 m2 : Matrix4).
Variables (k1 k2 : Z).

Let g1 : Geometry := mkGeometry [("position"%string, a1)] (Some (Some <$> l1)) type s1.
Let g2 : Geometry := mkGeometry [("position"%string, a2)] (Some (Some <$> l2)) type s2.
Let i1 : GeometryInstance := mkGeometryInstance g1 m1.
Let i2 : GeometryInstance := mkGeometryInstance g2 m2.

Hypothesis values1 : values a1 = Some vs1.
Hypothesis values2 : values a2 = Some vs2.
Hypothesis same_datatype : componentDatatype a1 = componentDatatype a2.
Hypothesis same_components : componentsPerAttribute a1 = componentsPerAttribute a2.
Hypothesis same_normalize : normalize a1 = normalize a2.
Hypothesis components : componentsPerAttribute a1 ≠ 0%nat.
Hypothesis vertices1 : len vs1 = Z.of_nat (componentsPerAttribute a1) * k1.
Hypothesis vertices2 : len vs2 = Z.of_nat (componentsPerAttribute a1) * k2.
Hypothesis indices1 : Forall (λ i, 0 ≤ i < k1) l1.
Hypothesis indices2 : Forall (λ i, 0 ≤ i < k2) l2.
Hypothesis small : k1 + k2 ≤ 65536.

Lemma findAttributes_two :
  findAttributesInAllGeometries i1 [i2]
  = Return [("position"%string,
              mkGeometryAttribute (componentDatatype a1) (componentsPerAttribute a1)
                (normalize a1)
                (Some (createTypedArray (componentDatatype a1) (len vs1 + len vs2))))].
Proof.
  unfold findAttributesInAllGeometries, i1, i2, g1, g2. cbn [geometry attributes foldM fst snd].
  unfold valuesLength at 1. rewrite values1. unfold mbind, result_bind. cbn [JS.bind].
  cbn [inAllGeometries geometry attributes lookupAttribute].
  rewrite decide_True by done.
  rewrite decide_False by (intros [? | [? | ?]]; done).
  unfold valuesLength. rewrite values2. cbn [JS.bind]. done.
Qed.

Lemma combineValues_two :
  combineValues "position"
    (mkGeometryAttribute (componentDatatype a1) (componentsPerAttribute a1) (normalize a1)
       (Some (createTypedArray (componentDatatype a1) (len vs1 + len vs2))))
    [i1; i2]
  = Return (mkGeometryAttribute (componentDatatype a1) (componentsPerAttribute a1)
              (normalize a1) (Some (typedArrayStore (componentDatatype a1) <$> (vs1 ++ vs2)))).
Proof.
  unfold combineValues, i1, i2, g1, g2.
  cbn [values foldM geometry attributes lookupAttribute componentDatatype].
  rewrite decide_True by done. rewrite values1. cbn [JS.bind].
  rewrite decide_True by done. rewrite values2. cbn [JS.bind].
  unfold mbind, result_bind. cbn [JS.bind].
  unfold createTypedArray, len. rewrite <- Nat2Z.inj_add, Nat2Z.id, replicate_add.
  rewrite <- (app_nil_l (replicate (length vs1) _ ++ _)).
  rewrite (copyValues_spec _ vs1 [] _ _ 0) by (done || by rewrite length_replicate).
  rewrite <- (app_nil_r (replicate (length vs2) _)).
  cbn [app].
  rewrite (copyValues_spec _ vs2 _ _ [] _).
  - unfold withValues. cbn. by rewrite app_nil_r, fmap_app.
  - unfold len. rewrite length_fmap. lia.
  - by rewrite length_replicate.
Qed.

Lemma lookupType_setType_eq {A : Type} (key : PrimitiveType) (v : A) m :
  lookupType key (setType key v m) = Some v.
Proof.
  induction m as [| [k w] m IH]; simpl.
  - by rewrite decide_True.
  - case_decide; simpl; [by rewrite decide_True | by rewrite decide_False].
Qed.

Lemma countIndices_two :
  countIndices type [i1; i2] = Return [(type, len l1 + len l2)].
Proof.
  unfold countIndices, i1, i2, g1, g2.
  repeat (first [rewrite decide_True by done | progress simpl]).
  unfold len. by rewrite !length_fmap.
Qed.

Lemma combineIndices_two bits :
  65536 ≤ 2 ^ bits →
  combineIndices type [i1; i2]
    [(type, mkIndexBucket bits (replicate (Z.to_nat (len l1 + len l2)) (Some 0)) 0)]
  = Return [(type, mkIndexBucket bits (Some <$> (l1 ++ ((λ i, k1 + i) <$> l2)))
                                 (len l1 + len l2))].
Proof.
  intros Hbits.
  assert (Hk1 : 0 ≤ k1) by (unfold len in vertices1; nia).
  assert (Hk2 : 0 ≤ k2) by (unfold len in vertices2; nia).
  unfold combineIndices, i1, i2, g1, g2.
  repeat (first [rewrite decide_True by done | rewrite values1 | rewrite values2
                | progress unfold mbind, result_bind, valuesLength, firstAttributeVertexCount
                | progress simpl]).
  rewrite vertices1. unfold len at 1 2. rewrite <- Nat2Z.inj_add, Nat2Z.id, replicate_add.
  rewrite <- (app_nil_l (replicate (length l1) _ ++ _)).
  rewrite (copyIndices_spec _ (Some <$> l1) [] _ _ _ 0)
    by (done || by rewrite length_replicate, length_fmap).
  cbn [app]. rewrite <- (app_nil_r (replicate (length l2) _)).
  rewrite (copyIndices_spec _ (Some <$> l2) _ _ [] _).
  - rewrite app_nil_r. f_equal. f_equal. f_equal. f_equal.
    + rewrite fmap_app. f_equal.
      * rewrite <- list_fmap_compose. apply list_fmap_ext. intros n i Hi. simpl. f_equal.
        apply toUint_first. rewrite Forall_forall in indices1.
        apply list_elem_of_lookup_2, indices1 in Hi. lia.
      * rewrite <- !list_fmap_compose. apply list_fmap_ext. intros n i Hi. simpl. f_equal.
        apply toUint_offset; [done |]. rewrite Forall_forall in indices2.
        apply list_elem_of_lookup_2, indices2 in Hi.
        rewrite Forall_forall in indices1. lia.
    + unfold len. rewrite !length_fmap. lia.
  - unfold len. rewrite !length_fmap. lia.
  - by rewrite length_replicate, length_fmap.
Qed.

Lemma combinedIndexLists_two :
  combinedIndexLists [i1; i2] = Return [Some <$> (l1 ++ ((λ i, k1 + i) <$> l2))].
Proof.
  unfold combinedIndexLists. fold i1. cbn [geometry primitiveType i1 g1].
  rewrite countIndices_two. unfold mbind, result_bind. cbn [JS.bind].
  unfold allocateIndexLists. cbn [foldl fst snd setType app].
  rewrite combineIndices_two by (case_decide; lia).
  cbn [JS.bind lookupType]. simpl. rewrite (decide_True (P := type = type)) by done. done.
Qed.

Lemma combine_two :
  Matrix4_equals m2 m1 = true →
  combine [i1; i2]
  = Return
      (mkGeometry
         [("position"%string,
            mkGeometryAttribute (componentDatatype a1) (componentsPerAttribute a1)
              (normalize a1)
              (Some (typedArrayStore (componentDatatype a1) <$> (vs1 ++ vs2))))]
         (Some (Some <$> (l1 ++ ((λ i, k1 + i) <$> l2)))) type
         (combineBoundingSpheres None [i1; i2])).
Proof.
  intros Hm. unfold combine. cbn [forallb modelMatrix i1 i2]. rewrite Hm. cbn [andb].
  rewrite findAttributes_two. unfold mbind, result_bind. cbn [JS.bind foldM fst snd].
  rewrite combineValues_two. cbn [JS.bind app]. rewrite combinedIndexLists_two.
  cbn [JS.bind head]. done.
Qed.

End CombineTwo.

(** C7: two instances with equal transforms and one primitive type, each with
    a single [position] attribute of one schema, of 3 and of 4 vertices, and
    with index lists that reference their own vertices, combine into one
    geometry whose [position] values number (3 + 4) times the component
    count and are the values of the first instance followed by those of the
    second, as the typed array of the component datatype stores them (so
    they are the concatenation itself when that array holds them unchanged),
    and whose index list is the indices of the first instance followed by
    those of the second, each plus 3. *)
Theorem combine_two_positions `{Imports} (a1 a2 : GeometryAttribute)
    (vs1 vs2 : list (option float)) (l1 l2 : list Z) (type : PrimitiveType)
    (s1 s2 : option BoundingSphere) (m1 m2 : Matrix4) :
  values a1 = Some vs1 → values a2 = Some vs2 →
  componentDatatype a1 = componentDatatype a2 →
  componentsPerAttribute a1 = componentsPerAttribute a2 →
  normalize a1 = normalize a2 →
  componentsPerAttribute a1 ≠ 0%nat →
  len vs1 = Z.of_nat (componentsPerAttribute a1) * 3 →
  len vs2 = Z.of_nat (componentsPerAttribute a1) * 4 →
  Forall (λ i, 0 ≤ i < 3) l1 → Forall (λ i, 0 ≤ i < 4) l2 →
  Matrix4_equals m2 m1 = true →
  ∃ g position combined,
    combine [mkGeometryInstance
               (mkGeometry [("position"%string, a1)] (Some (Some <$> l1)) type s1) m1;
             mkGeometryInstance
               (mkGeometry [("position"%string, a2)] (Some (Some <$> l2)) type s2) m2]
    = Return g
    ∧ attributes g = [("position"%string, position)]
    ∧ componentsPerAttribute position = componentsPerAttribute a1
    ∧ values position = Some combined
    ∧ len combined = (3 + 4) * Z.of_nat (componentsPerAttribute a1)
    ∧ combined = typedArrayStore (componentDatatype a1) <$> (vs1 ++ vs2)
    ∧ (Forall (λ v, typedArrayStore (componentDatatype a1) v = v) (vs1 ++ vs2) →
       combined = vs1 ++ vs2)
    ∧ indexList g = Some (Some <$> (l1 ++ ((λ i, i + 3) <$> l2)))
    ∧ primitiveType g = type.
Proof.
  intros Hv1 Hv2 Hd Hc Hn Hc0 Hlen1 Hlen2 Hl1 Hl2 Hm.
  eexists _, _, _. split.
  { apply (combine_two a1 a2 vs1 vs2 l1 l2 type s1 s2 m1 m2 3 4); try done. }
  split_and!; try done.
  - unfold len in *. rewrite length_fmap, length_app. lia.
  - intros Hfixed. rewrite <- (list_fmap_id (vs1 ++ vs2)) at 2.
    apply list_fmap_ext. intros n v Hv. rewrite Forall_forall in Hfixed.
    apply Hfixed. by eapply list_elem_of_lookup_2.
  - simpl. do 3 f_equal. apply list_fmap_ext. intros. lia.
Qed.

Lemma combine_two_positions_witness :
  ∃ g position combined,
    combine [mkGeometryInstance Example.triangle []; mkGeometryInstance Example.square []]
    = Return g
    ∧ attributes g = [("position"%string, position)]
    ∧ values position = Some combined
    ∧ len combined = 21
    ∧ indexList g = Some [Some 0; Some 1; Some 2; Some 3; Some 4; Some 5; Some 3; Some 5; Some 6].
Proof.
  destruct (combine_two_positions Example.trianglePosition Example.squarePosition
              (default [] (values Example.trianglePosition))
              (default [] (values Example.squarePosition))
              [0; 1; 2] [0; 1; 2; 0; 2; 3] TRIANGLES None None [] [])
    as (g & position & combined & Hg & Ha & _ & Hv & Hlen & _ & _ & Hi & _).
  - reflexivity.
  - reflexivity.
  - reflexivity.
  - reflexivity.
  - reflexivity.
  - simpl. lia.
  - reflexivity.
  - reflexivity.
  - repeat constructor; lia.
  - repeat constructor; lia.
  - reflexivity.
  - exists g, position, combined. split_and!; done.
Defined.

(** C3, at an input on which the code departs from it: a [TRIANGLES] instance
    with the indices [0, 1, 2] combined with a [LINES] instance with the
    indices [0, 1] gives a single index buffer, [0, 1, 2, 3, 4], filed under
    the primitive type of the first instance; there is no buffer of the
    indices of the [LINES] instance alone. *)
Theorem combine_mixed_topologies_one_buffer :
  primitiveType Example.triangle = TRIANGLES
  ∧ primitiveType Example.segment = LINES
  ∧ combinedIndexLists [mkGeometryInstance Example.triangle [];
                        mkGeometryInstance Example.segment []]
    = Return [[Some 0; Some 1; Some 2; Some 3; Some 4]]
  ∧ ∃ g, combine [mkGeometryInstance Example.triangle [];
                  mkGeometryInstance Example.segment []] = Return g
         ∧ indexList g = Some [Some 0; Some 1; Some 2; Some 3; Some 4]
         ∧ primitiveType g = TRIANGLES.
Proof.
  split_and!; [done | done | by vm_compute |].
  eexists. split; [by vm_compute | done].
Qed.

(** ** computeNormal: corners and triangles *)

Section CornerFacts.
Implicit Types (l : list Z) (v w p q : Z).

Lemma cornersFrom_app p v l1 l2 :
  cornersFrom p v (l1 ++ l2) = cornersFrom p v l1 ++ cornersFrom (p + len l1) v l2.
Proof.
  revert p. induction l1 as [| i l1 IH]; intros p; simpl.
  - f_equal. unfold len. simpl. lia.
  - rewrite IH. replace (p + 1 + len l1) with (p + len (i :: l1)) by (unfold len; simpl; lia).
    by case_decide.
Qed.

Lemma cornerCount_nonneg l v : 0 ≤ cornerCount l v.
Proof. unfold cornerCount, len. lia. Qed.

Lemma cornerCount_app l1 l2 v :
  cornerCount (l1 ++ l2) v = cornerCount l1 v + len (cornersFrom (len l1) v l2).
Proof.
  unfold cornerCount. rewrite cornersFrom_app. unfold len. rewrite length_app. simpl.
  rewrite Z.add_0_l. lia.
Qed.

Lemma cornerCount_snoc l w v :
  cornerCount (l ++ [w]) v = cornerCount l v + (if decide (w = v) then 1 else 0).
Proof. rewrite cornerCount_app. simpl. by case_decide. Qed.

Lemma cornersFrom_snoc l w v :
  cornersFrom 0 v (l ++ [w])
  = cornersFrom 0 v l ++ (if decide (w = v) then [len l] else []).
Proof. rewrite cornersFrom_app. simpl. by case_decide. Qed.

Lemma cornerCount_take_lt l v (n : nat) :
  l !! n = Some v → cornerCount (take n l) v < cornerCount l v.
Proof.
  intros Hn. rewrite <- (take_drop n l) at 2. rewrite cornerCount_app.
  rewrite (drop_S l v n) by done. simpl. rewrite decide_True by done.
  unfold len. simpl. lia.
Qed.

Lemma cornersFrom_take_lookup l v (n k : nat) q :
  cornersFrom 0 v (take n l) !! k = Some q → cornersFrom 0 v l !! k = Some q.
Proof.
  intros Hk. rewrite <- (take_drop n l), cornersFrom_app. by apply lookup_app_l_Some.
Qed.

Lemma cornersFrom_lt p v l q : q ∈ cornersFrom p v l → p ≤ q < p + len l.
Proof.
  revert p. induction l as [| i l IH]; intros p; simpl; [by intros ?%elem_of_nil |].
  unfold len in *. simpl. case_decide.
  - intros [-> | Hq%IH]%elem_of_cons; lia.
  - intros Hq%IH. lia.
Qed.

Lemma cornersFrom_lookup p v l q : q ∈ cornersFrom p v l → l !! Z.to_nat (q - p) = Some v.
Proof.
  revert p. induction l as [| i l IH]; intros p; simpl; [by intros ?%elem_of_nil |].
  case_decide as Hi.
  - intros [-> | Hq]%elem_of_cons.
    + rewrite Z.sub_diag. simpl. by subst.
    + pose proof (cornersFrom_lt _ _ _ _ Hq). apply IH in Hq.
      replace (Z.to_nat (q - p)) with (S (Z.to_nat (q - (p + 1)))) by lia. done.
  - intros Hq. pose proof (cornersFrom_lt _ _ _ _ Hq). apply IH in Hq.
    replace (Z.to_nat (q - p)) with (S (Z.to_nat (q - (p + 1)))) by lia. done.
Qed.

Lemma cornersFrom_nil l v : cornersFrom 0 v l = [] ↔ v ∉ l.
Proof.
  generalize 0. induction l as [| i l IH]; intros p; simpl.
  - split; [intros _; apply not_elem_of_nil | done].
  - rewrite not_elem_of_cons. case_decide; [split; [done | intros [? _]; congruence] |].
    rewrite IH. split; [intros ?; split; congruence | tauto].
Qed.

Lemma cornersBelow_succ l v : 0 ≤ v → cornersBelow l (v + 1) = cornersBelow l v + cornerCount l v.
Proof.
  intros Hv. unfold cornersBelow. rewrite range_snoc, fmap_app, foldr_app by done. simpl.
  generalize (cornerCount l <$> range 0 v). intros ns.
  induction ns as [| n ns IH]; simpl; [lia |]. rewrite IH. lia.
Qed.

Lemma cornersBelow_0 l : cornersBelow l 0 = 0.
Proof. unfold cornersBelow. by rewrite range_empty. Qed.

Lemma cornersBelow_mono l u v :
  0 ≤ u < v → cornersBelow l u + cornerCount l u ≤ cornersBelow l v.
Proof.
  intros [Hu Huv]. assert (Hv : 0 ≤ v) by lia. revert u Hu Huv.
  pattern v. apply natlike_ind; [lia | | done]. clear v Hv.
  intros v Hv IH u Hu Huv. rewrite <- Z.add_1_r, cornersBelow_succ by done.
  pose proof (cornerCount_nonneg l v).
  destruct (decide (u = v)) as [-> | Hne]; [lia |]. specialize (IH u Hu ltac:(lia)). lia.
Qed.

Lemma cornersBelow_nonneg l v : 0 ≤ cornersBelow l v.
Proof.
  unfold cornersBelow. induction (range 0 v) as [| n ns IH]; [done |].
  rewrite fmap_cons. cbn [foldr]. pose proof (cornerCount_nonneg l n). lia.
Qed.

End CornerFacts.

(** ** computeNormal: the loops *)

Section ComputeNormalsFacts.
Context `{Imports}.
Variable vertices : list (option float).
Variable l : list Z.
Variable N : Z.
Hypothesis in_range : Forall (λ i, 0 ≤ i < N) l.

Lemma get_index (p : nat) w : l !! p = Some w → get (Some <$> l) (Some (Z.of_nat p)) = Some w.
Proof.
  intros Hp. apply get_lookup; [lia |]. by rewrite Nat2Z.id, list_lookup_fmap, Hp.
Qed.

Lemma index_in_range (p : nat) w : l !! p = Some w → 0 ≤ w < N.
Proof.
  intros Hp. rewrite Forall_forall in in_range. apply in_range.
  by eapply list_elem_of_lookup_2.
Qed.

Lemma updateObject_at {A : Type} (a : list (option A)) (i : Z) (f : A → A) (o : A) :
  get a (Some i) = Some o → updateObject a (Some i) f = Return (JS.set a i (Some (f o))).
Proof. intros Ho. unfold updateObject, getObject. by rewrite Ho. Qed.

(** One [normalsPerVertex[i].count++]. *)
Lemma countCorner (a : list (option VertexNormalData)) (p : nat) w :
  len a = N →
  (∀ v, 0 ≤ v < N →
        get a (Some v) = Some (mkVertexNormalData 0 (cornerCount (take p l) v) 0)) →
  l !! p = Some w →
  ∃ a', updateObject a (Some w) incrementCount = Return a'
    ∧ len a' = N
    ∧ ∀ v, 0 ≤ v < N →
           get a' (Some v) = Some (mkVertexNormalData 0 (cornerCount (take (S p) l) v) 0).
Proof.
  intros Hlen Hget Hp. pose proof (index_in_range p w Hp) as Hw.
  rewrite (updateObject_at _ _ _ _ (Hget w Hw)). eexists. split; [done |]. split.
  - rewrite len_set by lia. lia.
  - intros v Hv. rewrite get_set, (take_S_r l p w), cornerCount_snoc by done.
    destruct (decide (w = v)) as [-> | Hne].
    + rewrite decide_True by lia. done.
    + rewrite decide_False by (intros [? _]; congruence). rewrite Hget by done.
      by rewrite Z.add_0_r.
Qed.

Lemma lookup_index (p : Z) : 0 ≤ p < len l → ∃ w, l !! Z.to_nat p = Some w.
Proof. intros Hp. apply lookup_lt_is_Some_2. unfold len in Hp. lia. Qed.

Lemma faceStep_inv j s :
  FaceInv vertices l N j s → 0 ≤ j → 3 * j + 3 ≤ len l →
  ∃ s', faceStep vertices (Some <$> l) s j = Return s' ∧ FaceInv vertices l N (j + 1) s'.
Proof.
  intros [Hlen Hcount Hnormal] Hj Hj3.
  destruct (lookup_index (3 * j)) as [w0 Hw0]; [lia |].
  destruct (lookup_index (3 * j + 1)) as [w1 Hw1]; [lia |].
  destruct (lookup_index (3 * j + 2)) as [w2 Hw2]; [lia |].
  replace (Z.to_nat (3 * j + 1)) with (S (Z.to_nat (3 * j))) in Hw1 by lia.
  replace (Z.to_nat (3 * j + 2)) with (S (S (Z.to_nat (3 * j)))) in Hw2 by lia.
  destruct (countCorner s.1 _ w0 Hlen Hcount Hw0) as (n0 & Hn0 & Hlen0 & Hcount0).
  destruct (countCorner n0 _ w1 Hlen0 Hcount0 Hw1) as (n1 & Hn1 & Hlen1 & Hcount1).
  destruct (countCorner n1 _ w2 Hlen1 Hcount1 Hw2) as (n2 & Hn2 & Hlen2 & Hcount2).
  unfold faceStep.
  assert (H0 : get (Some <$> l) (Some (3 * j)) = Some w0).
  { rewrite <- (Z2Nat.id (3 * j)) by lia. by apply get_index. }
  assert (H1 : get (Some <$> l) (Some (3 * j + 1)) = Some w1).
  { replace (3 * j + 1) with (Z.of_nat (S (Z.to_nat (3 * j)))) by lia. by apply get_index. }
  assert (H2 : get (Some <$> l) (Some (3 * j + 2)) = Some w2).
  { replace (3 * j + 2) with (Z.of_nat (S (S (Z.to_nat (3 * j))))) by lia.
    by apply get_index. }
  rewrite H0, H1, H2, Hn0. unfold mbind, result_bind. cbn [JS.bind].
  rewrite Hn1. cbn [JS.bind]. rewrite Hn2. cbn [JS.bind].
  eexists. split; [done |]. split; cbn [fst snd].
  - done.
  - intros v Hv.
    replace (Z.to_nat (3 * (j + 1))) with (S (S (S (Z.to_nat (3 * j))))) by lia.
    by apply Hcount2.
  - intros j' Hj'. rewrite get_set. case_decide as Hc.
    + destruct Hc as [-> _]. unfold faceNormal. by rewrite H0, H1, H2.
    + apply Hnormal. lia.
Qed.

Lemma faceStart_inv :
  0 ≤ N →
  FaceInv vertices l N 0
    (replicate (Z.to_nat N) (Some (mkVertexNormalData 0 0 0)),
     replicate (Z.to_nat (len l `div` 3)) undefined).
Proof.
  intros HN. split; cbn [fst snd].
  - by apply len_replicate.
  - intros v Hv. by rewrite get_replicate.
  - intros j' Hj'. lia.
Qed.

Lemma faceLoop_inv (m : nat) :
  0 ≤ N → 3 * Z.of_nat m ≤ len l →
  ∃ s, foldM (faceStep vertices (Some <$> l))
             (replicate (Z.to_nat N) (Some (mkVertexNormalData 0 0 0)),
              replicate (Z.to_nat (len l `div` 3)) undefined)
             (range 0 (Z.of_nat m)) = Return s
       ∧ FaceInv vertices l N (Z.of_nat m) s.
Proof.
  intros HN. induction m as [| m IH]; intros Hm.
  - eexists. split; [done | by apply faceStart_inv].
  - destruct IH as (s & Hs & Hinv); [lia |].
    replace (Z.of_nat (S m)) with (Z.of_nat m + 1) by lia.
    rewrite range_snoc, foldM_app, Hs by lia. cbn [JS.bind foldM].
    destruct (faceStep_inv (Z.of_nat m) s Hinv) as (s' & Hs' & Hinv'); [lia | lia |].
    rewrite Hs'. cbn [JS.bind]. eauto.
Qed.

Lemma offsetStep_inv i s :
  OffsetInv l N i s → 0 ≤ i < N →
  ∃ s', offsetStep s i = Return s' ∧ OffsetInv l N (i + 1) s'.
Proof.
  intros [Hlen Hdone Htodo Hsum] Hi. unfold offsetStep, getObject.
  rewrite (Htodo i) by lia. unfold mbind, result_bind. cbn [JS.bind].
  eexists. split; [done |]. split; cbn [fst snd indexOffset count currentCount].
  - rewrite len_set by lia. lia.
  - intros v Hv. rewrite get_set. case_decide as Hc.
    + destruct Hc as [-> _]. by rewrite Hsum, Z.add_0_l.
    + apply Hdone. lia.
  - intros v Hv. rewrite get_set, decide_False by lia. apply Htodo. lia.
  - rewrite Hsum, cornersBelow_succ by lia. done.
Qed.

Lemma offsetLoop_inv (n : nat) npv :
  Z.of_nat n ≤ N → len npv = N →
  (∀ v, 0 ≤ v < N → get npv (Some v) = Some (mkVertexNormalData 0 (cornerCount l v) 0)) →
  ∃ s, foldM offsetStep (npv, 0) (range 0 (Z.of_nat n)) = Return s
       ∧ OffsetInv l N (Z.of_nat n) s.
Proof.
  intros Hn Hlen Hget. induction n as [| n IH].
  - eexists. split; [done |].
    split; cbn [fst snd];
      [done | intros v Hv; lia | intros v Hv; apply Hget; lia | by rewrite cornersBelow_0].
  - destruct IH as (s & Hs & Hinv); [lia |].
    replace (Z.of_nat (S n)) with (Z.of_nat n + 1) by lia.
    rewrite range_snoc, foldM_app, Hs by lia. cbn [JS.bind foldM].
    destruct (offsetStep_inv (Z.of_nat n) s Hinv) as (s' & Hs' & Hinv'); [lia |].
    rewrite Hs'. cbn [JS.bind]. eauto.
Qed.

End ComputeNormalsFacts.

Section IndexLoopFacts.
Context `{Imports}.
Variable l : list Z.
Variable N : Z.
Hypothesis in_range : Forall (λ i, 0 ≤ i < N) l.

Lemma cornerCount_take_le (n : nat) v : cornerCount (take n l) v ≤ cornerCount l v.
Proof.
  rewrite <- (take_drop n l) at 2. rewrite cornerCount_app. unfold len. lia.
Qed.

Lemma cornerStep_inv (p : nat) s w :
  IndexInv l N (Z.of_nat p) s → l !! p = Some w →
  ∃ s', cornerStep (Some <$> l) (Z.of_nat p `div` 3) s (Z.of_nat p `mod` 3) = Return s'
    ∧ IndexInv l N (Z.of_nat p + 1) s'.
Proof.
  intros [Hlen Hcount Htriangle] Hp. rewrite Nat2Z.id in Hcount, Htriangle.
  pose proof (index_in_range l N in_range p w Hp) as Hw.
  unfold cornerStep. rewrite <- Z.div_mod by lia. rewrite (get_index l p w Hp).
  unfold getObject. rewrite (Hcount w Hw). unfold mbind, result_bind. cbn [JS.bind].
  cbn [indexOffset currentCount setAt].
  pose proof (cornerCount_take_lt l w p Hp) as Hlt.
  pose proof (cornerCount_nonneg (take p l) w) as Hnonneg.
  pose proof (cornersBelow_nonneg l w) as Hbelow.
  eexists. split; [done |].
  replace (Z.to_nat (Z.of_nat p + 1)) with (S p) by lia.
  split; cbn [fst snd]; rewrite ?Z2Nat.id by lia.
  - rewrite len_set by lia. lia.
  - intros v Hv. replace (Z.to_nat (Z.of_nat p + 1)) with (S p) by lia.
    rewrite get_set, (take_S_r l p w), cornerCount_snoc by done.
    destruct (decide (w = v)) as [-> | Hne].
    + rewrite decide_True by lia. done.
    + rewrite decide_False by (intros [? _]; congruence). rewrite Hcount by done.
      by rewrite Z.add_0_r.
  - intros v k q Hv. replace (Z.to_nat (Z.of_nat p + 1)) with (S p) by lia.
    rewrite (take_S_r l p w), cornersFrom_snoc by done.
    intros Hk. rewrite get_set.
    destruct (decide (k < length (cornersFrom 0 v (take p l)))%nat) as [Hold | Hnew].
    + rewrite lookup_app_l in Hk by done. rewrite decide_False; [by apply Htriangle |].
      intros [Heq _].
      assert (Hkv : Z.of_nat k < cornerCount (take p l) v) by (unfold cornerCount, len; lia).
      pose proof (cornerCount_take_le p v).
      destruct (decide (v = w)) as [-> | Hne]; [lia |].
      destruct (decide (v < w)).
      * pose proof (cornersBelow_mono l v w ltac:(lia)). lia.
      * pose proof (cornersBelow_mono l w v ltac:(lia)). lia.
    + rewrite lookup_app_r in Hk by lia.
      destruct (decide (w = v)) as [-> | Hne]; [| by rewrite lookup_nil in Hk].
      apply list_lookup_singleton_Some in Hk as [Hk <-].
      rewrite decide_True.
      * unfold len. rewrite length_take_le; [done |]. apply lookup_lt_Some in Hp. lia.
      * unfold cornerCount, len. split; lia.
Qed.

Lemma indexStep_inv j s :
  IndexInv l N (3 * j) s → 0 ≤ j → 3 * j + 3 ≤ len l →
  ∃ s', indexStep (Some <$> l) s j = Return s' ∧ IndexInv l N (3 * (j + 1)) s'.
Proof.
  intros Hinv Hj Hj3. unfold indexStep. cbn [foldM].
  destruct (lookup_index l (3 * j)) as [w0 Hw0]; [lia |].
  destruct (lookup_index l (3 * j + 1)) as [w1 Hw1]; [lia |].
  destruct (lookup_index l (3 * j + 2)) as [w2 Hw2]; [lia |].
  rewrite <- (Z2Nat.id (3 * j)) in Hinv by lia.
  destruct (cornerStep_inv _ s w0 Hinv Hw0) as (s0 & Hs0 & Hinv0).
  rewrite Z2Nat.id in Hs0, Hinv0 by lia.
  replace ((3 * j) `div` 3) with j in Hs0 by (apply (Z.div_unique _ _ _ 0); lia).
  replace ((3 * j) `mod` 3) with 0 in Hs0 by (apply (Z.mod_unique _ _ j); lia).
  rewrite Hs0. cbn [JS.bind].
  replace (3 * j + 1) with (Z.of_nat (Z.to_nat (3 * j + 1))) in Hinv0 by lia.
  destruct (cornerStep_inv _ s0 w1 Hinv0 Hw1) as (s1 & Hs1 & Hinv1).
  rewrite Z2Nat.id in Hs1, Hinv1 by lia.
  replace ((3 * j + 1) `div` 3) with j in Hs1 by (apply (Z.div_unique _ _ _ 1); lia).
  replace ((3 * j + 1) `mod` 3) with 1 in Hs1 by (apply (Z.mod_unique _ _ j); lia).
  rewrite Hs1. cbn [JS.bind].
  replace (3 * j + 1 + 1) with (Z.of_nat (Z.to_nat (3 * j + 2))) in Hinv1 by lia.
  destruct (cornerStep_inv _ s1 w2 Hinv1 Hw2) as (s2 & Hs2 & Hinv2).
  rewrite Z2Nat.id in Hs2, Hinv2 by lia.
  replace ((3 * j + 2) `div` 3) with j in Hs2 by (apply (Z.div_unique _ _ _ 2); lia).
  replace ((3 * j + 2) `mod` 3) with 2 in Hs2 by (apply (Z.mod_unique _ _ j); lia).
  rewrite Hs2. cbn [JS.bind].
  exists s2. split; [done |]. by replace (3 * (j + 1)) with (3 * j + 2 + 1) by lia.
Qed.

Lemma indexLoop_inv (m : nat) npv normalIndices :
  3 * Z.of_nat m ≤ len l → len npv = N →
  (∀ v, 0 ≤ v < N →
        get npv (Some v) = Some (mkVertexNormalData (cornersBelow l v) (cornerCount l v) 0)) →
  ∃ s, foldM (indexStep (Some <$> l)) (npv, normalIndices) (range 0 (Z.of_nat m)) = Return s
       ∧ IndexInv l N (3 * Z.of_nat m) s.
Proof.
  intros Hm Hlen Hget. induction m as [| m IH].
  - eexists. split; [done |].
    replace (3 * Z.of_nat 0) with (Z.of_nat 0) by lia.
    split; rewrite ?Nat2Z.id; cbn [fst snd take cornersFrom]; [done | | ].
    + intros v Hv. by rewrite Hget, take_0.
    + intros v k q Hv Hk. rewrite take_0 in Hk. cbn [cornersFrom] in Hk.
      by rewrite lookup_nil in Hk.
  - destruct IH as (s & Hs & Hinv); [lia |].
    replace (Z.of_nat (S m)) with (Z.of_nat m + 1) by lia.
    rewrite range_snoc, foldM_app, Hs by lia. cbn [JS.bind foldM].
    destruct (indexStep_inv (Z.of_nat m) s Hinv) as (s' & Hs' & Hinv'); [lia | lia |].
    rewrite Hs'. cbn [JS.bind]. eauto.
Qed.

End IndexLoopFacts.

Section NormalLoopFacts.
Context `{Imports}.
Variable vertices : list (option float).
Variable l : list Z.
Variable N : Z.
Variable normalsPerTriangle : list (option Cartesian3).
Variable normalIndices : list (option Z).
Hypothesis triangles : len l `mod` 3 = 0.
Hypothesis face_normals : ∀ j, 0 ≤ j < len l `div` 3 →
  get normalsPerTriangle (Some j) = Some (faceNormal vertices l j).
Hypothesis corner_triangles : ∀ v (k : nat) q, 0 ≤ v < N →
  cornersFrom 0 v l !! k = Some q →
  get normalIndices (Some (cornersBelow l v + Z.of_nat k)) = Some (q `div` 3).

Lemma sumLoop v (seen rest : list Z) (normal : Cartesian3) :
  0 ≤ v < N → cornersFrom 0 v l = seen ++ rest →
  foldM (λ normal j,
           n ← getObject normalsPerTriangle
                         (get normalIndices (Some (cornersBelow l v + j)));
           Return (Cartesian3_add normal n))
        normal (range (len seen) (len (seen ++ rest)))
  = Return (foldl Cartesian3_add normal
                  (faceNormal vertices l <$> ((λ q, q `div` 3) <$> rest))).
Proof.
  intros Hv. revert seen normal. induction rest as [| q rest IH]; intros seen normal Hcorners.
  - rewrite app_nil_r, range_empty by lia. done.
  - assert (Hlen : len seen < len (seen ++ q :: rest)).
    { unfold len. rewrite length_app. simpl. lia. }
    rewrite range_cons by done. cbn [foldM].
    assert (Hq : cornersFrom 0 v l !! length seen = Some q).
    { rewrite Hcorners. by rewrite list_lookup_middle. }
    unfold len at 1. rewrite (corner_triangles v _ q Hv Hq).
    assert (Hin : q ∈ cornersFrom 0 v l) by (by eapply list_elem_of_lookup_2).
    apply cornersFrom_lt in Hin.
    unfold getObject. rewrite face_normals.
    + unfold mbind, result_bind. cbn [JS.bind]. simpl.
      specialize (IH (seen ++ [q]) (Cartesian3_add normal (faceNormal vertices l (q `div` 3)))).
      rewrite <- app_assoc in IH. simpl in IH.
      replace (len (seen ++ [q])) with (len seen + 1) in IH
        by (unfold len; rewrite length_app; simpl; lia).
      by apply IH.
    + split; [apply Z.div_pos; lia |]. apply Z.div_lt_upper_bound; [lia |].
      pose proof (Z.div_mod (len l) 3 ltac:(lia)). lia.
Qed.

Lemma vertexNormal_spec v c :
  0 ≤ v < N →
  vertexNormal normalsPerTriangle normalIndices
    (mkVertexNormalData (cornersBelow l v) (cornerCount l v) c)
  = Return (expectedNormal vertices l v).
Proof.
  intros Hv. unfold vertexNormal, expectedNormal, adjacentTriangles.
  cbn [count indexOffset]. unfold cornerCount.
  destruct (cornersFrom 0 v l) as [| q rest] eqn:Hcorners.
  - by rewrite decide_False by (unfold len; simpl; lia).
  - rewrite decide_True by (unfold len; simpl; lia).
    pose proof (sumLoop v [] (q :: rest) Cartesian3_ZERO Hv Hcorners) as Hsum.
    cbn [app] in Hsum. change (len []) with 0 in Hsum.
    unfold mbind, result_bind in *. rewrite Hsum. done.
Qed.

Lemma normalLoop_spec (normalsPerVertex : list (option VertexNormalData)) vs0 (n : nat) :
  Z.of_nat n ≤ N →
  (∀ v, 0 ≤ v < N →
        ∃ c, get normalsPerVertex (Some v)
             = Some (mkVertexNormalData (cornersBelow l v) (cornerCount l v) c)) →
  ∃ vs, foldM (normalStep normalsPerVertex normalsPerTriangle normalIndices)
              (Some vs0) (range 0 (Z.of_nat n)) = Return (Some vs)
        ∧ normalsWritten vertices l (Z.of_nat n) vs.
Proof.
  intros Hn Hnpv. induction n as [| n IH].
  - exists vs0. split; [done |]. intros v Hv. lia.
  - destruct IH as (vs & Hvs & Hwritten); [lia |].
    replace (Z.of_nat (S n)) with (Z.of_nat n + 1) by lia.
    rewrite range_snoc, foldM_app, Hvs by lia. cbn [JS.bind foldM].
    unfold normalStep, getObject.
    destruct (Hnpv (Z.of_nat n)) as [c Hc]; [lia |]. rewrite Hc.
    unfold mbind, result_bind. cbn [JS.bind].
    rewrite vertexNormal_spec by lia. cbn [JS.bind].
    eexists. split; [done |]. intros v Hv. rewrite !get_set.
    destruct (decide (v = Z.of_nat n)) as [-> | Hne].
    + split_and!; repeat (case_decide; try lia); done.
    + destruct (Hwritten v ltac:(lia)) as (Hx & Hy & Hz).
      split_and!; repeat (case_decide; try lia); done.
Qed.

End NormalLoopFacts.

Section ComputeNormalFacts.
Context `{Imports}.
Implicit Types (l : list Z) (vertices : list (option float)).

Lemma elem_of_cornersFrom p v l q :
  q ∈ cornersFrom p v l ↔ p ≤ q ∧ l !! Z.to_nat (q - p) = Some v.
Proof.
  split.
  - intros Hq. split; [apply cornersFrom_lt in Hq; lia | by apply cornersFrom_lookup].
  - revert p. induction l as [| i l IH]; intros p [Hp Hq]; [done |].
    simpl. destruct (decide (q = p)) as [-> | Hne].
    + rewrite Z.sub_diag in Hq. simpl in Hq. injection Hq as ->.
      rewrite decide_True by done. by left.
    + replace (Z.to_nat (q - p)) with (S (Z.to_nat (q - (p + 1)))) in Hq by lia.
      simpl in Hq. assert (q ∈ cornersFrom (p + 1) v l) by (apply IH; split; [lia | done]).
      case_decide; [by right | done].
Qed.

(** A triangle is adjacent to [v] when one of its corners holds [v]. *)
Lemma elem_of_adjacentTriangles l v j :
  j ∈ adjacentTriangles l v ↔ ∃ q, 0 ≤ q ∧ l !! Z.to_nat q = Some v ∧ q `div` 3 = j.
Proof.
  unfold adjacentTriangles. rewrite list_elem_of_fmap. split.
  - intros (q & -> & [Hq Hl]%elem_of_cornersFrom). rewrite Z.sub_0_r in Hl. eauto.
  - intros (q & Hq & Hl & <-). exists q. split; [done |].
    apply elem_of_cornersFrom. by rewrite Z.sub_0_r.
Qed.

Lemma expectedNormal_eq vertices l v :
  expectedNormal vertices l v
  = if decide (v ∈ l)
    then Cartesian3_normalize
           (foldl Cartesian3_add Cartesian3_ZERO
                  (faceNormal vertices l <$> adjacentTriangles l v))
    else mkCartesian3 (Some 0%float) (Some 0%float) (Some 1%float).
Proof.
  unfold expectedNormal, adjacentTriangles.
  destruct (cornersFrom 0 v l) as [| q rest] eqn:Hcorners.
  - apply cornersFrom_nil in Hcorners. by rewrite decide_False.
  - rewrite decide_True; [done |]. destruct (decide (v ∈ l)) as [| Hn]; [done |].
    apply cornersFrom_nil in Hn. congruence.
Qed.

Lemma computeNormals_spec vertices l vs0 :
  len l `mod` 3 = 0 → Forall (λ i, 0 ≤ i < len vertices `div` 3) l →
  ∃ vs, computeNormals vertices (Some <$> l) (Some vs0) = Return (Some vs)
        ∧ normalsWritten vertices l (len vertices `div` 3) vs.
Proof.
  intros Hmod Hl. unfold computeNormals. cbv zeta.
  assert (Hlen : len (Some <$> l) = len l) by (unfold len; by rewrite length_fmap).
  rewrite Hlen.
  set (N := len vertices `div` 3) in *.
  assert (HN : 0 ≤ N) by (apply Z.div_pos; unfold len; lia).
  set (m := len l `div` 3).
  assert (Hm : 0 ≤ m) by (apply Z.div_pos; unfold len; lia).
  assert (H3m : len l = 3 * m).
  { unfold m. pose proof (Z.div_mod (len l) 3 ltac:(lia)). lia. }
  destruct (faceLoop_inv vertices l N Hl (Z.to_nat m)) as (s1 & Hs1 & [Hlen1 Hcount1 Hnormal1]);
    [done | lia |].
  rewrite Z2Nat.id in Hs1, Hcount1, Hnormal1 by done. fold m in Hs1.
  rewrite Hs1. unfold mbind, result_bind. cbn [JS.bind].
  assert (Htake : take (Z.to_nat (3 * m)) l = l).
  { apply take_ge. unfold len in H3m. lia. }
  rewrite Htake in Hcount1.
  destruct (offsetLoop_inv l N (Z.to_nat N) s1.1) as (s2 & Hs2 & [Hlen2 Hdone2 _ _]);
    [lia | done | done |].
  rewrite Z2Nat.id in Hs2, Hdone2 by done. rewrite Hs2. cbn [JS.bind].
  destruct (indexLoop_inv l N Hl (Z.to_nat m) s2.1 (replicate (Z.to_nat (len l)) undefined))
    as (s3 & Hs3 & [Hlen3 Hcount3 Htriangle3]); [lia | done | done |].
  rewrite Z2Nat.id in Hs3, Hcount3, Htriangle3 by done. rewrite Htake in Hcount3, Htriangle3.
  rewrite Hs3. cbn [JS.bind].
  destruct (normalLoop_spec vertices l N s1.2 s3.2 Hmod) with (normalsPerVertex := s3.1)
    (vs0 := vs0) (n := Z.to_nat N) as (vs & Hvs & Hwritten).
  - intros j Hj. by apply Hnormal1.
  - done.
  - lia.
  - intros v Hv. eexists. by apply Hcount3.
  - rewrite Z2Nat.id in Hvs, Hwritten by done. eauto.
Qed.

Lemma computeNormal_spec (g : Geometry) (position : GeometryAttribute) vertices l :
  lookupAttribute "position" (attributes g) = Some position →
  values position = Some vertices →
  componentsPerAttribute position = 3%nat →
  len vertices `mod` 3 = 0 →
  primitiveType g = TRIANGLES →
  indexList g = Some (Some <$> l) →
  2 ≤ len l → len l `mod` 3 = 0 →
  Forall (λ i, 0 ≤ i < len vertices `div` 3) l →
  (∀ normal, lookupAttribute "normal" (attributes g) = Some normal → is_Some (values normal)) →
  ∃ g' normal normals,
    computeNormal g = Return g'
    ∧ lookupAttribute "normal" (attributes g') = Some normal
    ∧ values normal = Some normals
    ∧ normalsWritten vertices l (len vertices `div` 3) normals.
Proof.
  intros Hpos Hvalues Hc Hmod Htype Hindex Hlen2 Hlen3 Hl Hnormal.
  unfold computeNormal. rewrite Hpos, Hvalues, Hindex.
  rewrite decide_False by (intros [? | ?]; done).
  assert (Hlen : len (Some <$> l) = len l) by (unfold len; by rewrite length_fmap).
  rewrite decide_False by (rewrite Hlen; intros [? | [? | ?]]; (done || lia)).
  set (normal := match lookupAttribute "normal" (attributes g) with
                 | Some normal => normal
                 | None => _
                 end).
  assert (Hvs0 : is_Some (values normal)).
  { unfold normal. destruct (lookupAttribute "normal" (attributes g)) eqn:E; [eauto | by eexists]. }
  destruct Hvs0 as [vs0 Hvs0]. rewrite Hvs0.
  destruct (computeNormals_spec vertices l vs0 Hlen3 Hl) as (vs & Hvs & Hwritten).
  rewrite Hvs. unfold mbind, result_bind. cbn [JS.bind].
  eexists _, _, vs. split; [reflexivity |].
  cbn [attributes withAttributes].
  rewrite lookupAttribute_setAttribute, decide_True by done.
  split_and!; [reflexivity | reflexivity | done].
Qed.

End ComputeNormalFacts.

(** C8: for the counter-clockwise triangle (0,0,0), (1,0,0), (0,1,0) with the
    index list [0, 1, 2], [computeNormal] writes the normal (0, 0, 1) for
    each of the three vertices. In general, for a [TRIANGLES] geometry with a
    well-formed position attribute and an index list of whole triangles over
    existing vertices, the normal written for a vertex that the index list
    references is the normalized sum of the cross-product face normals of its
    adjacent triangles, taken in the order of the index list, and the normal
    written for a vertex of no triangle is (0, 0, 1); a triangle is adjacent
    to a vertex when one of its three corners holds the vertex. *)
Theorem computeNormal_vertex_normals :
  computeNormal Example.triangle
  = Return
      (withAttributes Example.triangle
         [("position"%string, Example.trianglePosition);
          ("normal"%string,
            mkGeometryAttribute Example.DOUBLE 3 false
              (Some [Some 0; Some 0; Some 1; Some 0; Some 0; Some 1;
                     Some 0; Some 0; Some 1]%float))])
  ∧ (∀ `{Imports} (g : Geometry) (position : GeometryAttribute)
       (vertices : list (option float)) (l : list Z),
       lookupAttribute "position" (attributes g) = Some position →
       values position = Some vertices →
       componentsPerAttribute position = 3%nat →
       len vertices `mod` 3 = 0 →
       primitiveType g = TRIANGLES →
       indexList g = Some (Some <$> l) →
       2 ≤ len l → len l `mod` 3 = 0 →
       Forall (λ i, 0 ≤ i < len vertices `div` 3) l →
       (∀ normal, lookupAttribute "normal" (attributes g) = Some normal →
                  is_Some (values normal)) →
       ∃ g' normal normals,
         computeNormal g = Return g'
         ∧ lookupAttribute "normal" (attributes g') = Some normal
         ∧ values normal = Some normals
         ∧ ∀ v, 0 ≤ v < len vertices `div` 3 →
             let n :=
               if decide (v ∈ l)
               then Cartesian3_normalize
                      (foldl Cartesian3_add Cartesian3_ZERO
                             (faceNormal vertices l <$> adjacentTriangles l v))
               else mkCartesian3 (Some 0%float) (Some 0%float) (Some 1%float) in
             get normals (Some (v * 3)) = x n
             ∧ get normals (Some (v * 3 + 1)) = y n
             ∧ get normals (Some (v * 3 + 2)) = z n)
  ∧ (∀ (l : list Z) (v j : Z),
       j ∈ adjacentTriangles l v ↔ ∃ q, 0 ≤ q ∧ l !! Z.to_nat q = Some v ∧ q `div` 3 = j).
Proof.
  split_and!.
  - by vm_compute.
  - intros ? g position vertices l Hpos Hvalues Hc Hmod Htype Hindex Hlen2 Hlen3 Hl Hnormal.
    destruct (computeNormal_spec g position vertices l) as (g' & normal & normals & Hg' & Hn & Hv & Hw);
      try done.
    exists g', normal, normals. split_and!; try done.
    intros v Hv'. cbv zeta. rewrite <- expectedNormal_eq. by apply Hw.
  - intros l v j. apply elem_of_adjacentTriangles.
Qed.

Lemma computeNormal_vertex_normals_witness :
  ∃ g' normal normals,
    computeNormal Example.square = Return g'
    ∧ lookupAttribute "normal" (attributes g') = Some normal
    ∧ values normal = Some normals
    ∧ get normals (Some 11) = z (Cartesian3_normalize
                                   (foldl Cartesian3_add Cartesian3_ZERO
                                      (faceNormal (default [] (values Example.squarePosition))
                                                  [0; 1; 2; 0; 2; 3]
                                         <$> adjacentTriangles [0; 1; 2; 0; 2; 3] 3))).
Proof.
  destruct (proj1 (proj2 computeNormal_vertex_normals) Example.imports Example.square
              Example.squarePosition (default [] (values Example.squarePosition))
              [0; 1; 2; 0; 2; 3])
    as (g' & normal & normals & Hg' & Hn & Hv & Hw).
  - reflexivity.
  - reflexivity.
  - reflexivity.
  - reflexivity.
  - reflexivity.
  - reflexivity.
  - unfold len. simpl. lia.
  - reflexivity.
  - change (Forall (λ i, 0 ≤ i < 4) [0; 1; 2; 0; 2; 3]). repeat constructor; lia.
  - intros normal. simpl. done.
  - exists g', normal, normals. split; [exact Hg' |]. split; [exact Hn |]. split; [exact Hv |].
    specialize (Hw 3 ltac:(change (0 ≤ 3 < 4); lia)). cbv zeta in Hw.
    destruct Hw as (_ & _ & Hz).
    rewrite decide_True in Hz by (rewrite !elem_of_cons; auto 10).
    exact Hz.
Defined.

(** ** Attribute objects *)

Section AttributeObjectFacts.
Context `{Imports}.
Implicit Types (attrs : list (string * GeometryAttribute)) (name : string).

Lemma lookupAttribute_is_Some name attrs :
  is_Some (lookupAttribute name attrs) ↔ name ∈ attrs.*1.
Proof.
  induction attrs as [| [n a] attrs IH]; simpl.
  - rewrite elem_of_nil. split; [by intros [? ?] | done].
  - rewrite elem_of_cons. case_decide as Hn.
    + split; [by left | by eauto].
    + rewrite IH. split; [by right | by intros [? | ?]].
Qed.

Lemma lookupAttribute_None name attrs :
  lookupAttribute name attrs = None ↔ name ∉ attrs.*1.
Proof. rewrite <- lookupAttribute_is_Some, eq_None_not_Some. done. Qed.

Lemma lookupAttribute_elem_of name a attrs :
  lookupAttribute name attrs = Some a → (name, a) ∈ attrs.
Proof.
  induction attrs as [| [n b] attrs IH]; simpl; [done |].
  case_decide as Hn.
  - intros [= <-]. subst n. by left.
  - intros Ha. right. by apply IH.
Qed.

Lemma lookupAttribute_NoDup name a attrs :
  NoDup attrs.*1 → (name, a) ∈ attrs → lookupAttribute name attrs = Some a.
Proof.
  induction attrs as [| [n b] attrs IH]; simpl; [by intros _ ?%elem_of_nil |].
  intros [Hn Hnodup]%NoDup_cons [[= <- <-] | Hin]%elem_of_cons.
  - by rewrite decide_True.
  - rewrite decide_False; [by apply IH |].
    intros ->. apply Hn. apply list_elem_of_fmap. by exists (name, a).
Qed.

Lemma lookupAttribute_fmap (f : GeometryAttribute → GeometryAttribute) name attrs :
  lookupAttribute name (prod_map id f <$> attrs) = f <$> lookupAttribute name attrs.
Proof.
  induction attrs as [| [n b] attrs IH]; simpl; [done |]. by case_decide.
Qed.

Lemma setAttribute_names_old name a attrs :
  name ∈ attrs.*1 → (setAttribute name a attrs).*1 = attrs.*1.
Proof.
  induction attrs as [| [n b] attrs IH]; simpl; [by intros ?%elem_of_nil |].
  intros Hin. case_decide as Hn; [done |]. simpl. f_equal. apply IH.
  apply elem_of_cons in Hin as [? | ?]; [congruence | done].
Qed.

Lemma setAttribute_names_new name a attrs :
  name ∉ attrs.*1 → setAttribute name a attrs = attrs ++ [(name, a)].
Proof.
  induction attrs as [| [n b] attrs IH]; simpl; [done |].
  intros Hin. rewrite not_elem_of_cons in Hin. destruct Hin as [Hne Hin].
  rewrite decide_False by done. f_equal. by apply IH.
Qed.

End AttributeObjectFacts.

(** ** toWireframe: the lines of every topology *)

Section WireframeLoops.
Implicit Types (t lines : list (option Z)).

(** A loop that appends to [lines] in every turn. *)
Lemma foldl_append {B : Type} (F : B → list (option Z)) lines (ks : list B) :
  foldl (λ lines k, lines ++ F k) lines ks = lines ++ (ks ≫= F).
Proof.
  revert lines. induction ks as [| k ks IH]; intros lines; simpl.
  - by rewrite app_nil_r.
  - rewrite IH. by rewrite <- app_assoc.
Qed.

Lemma range_shift (start stop d : Z) :
  range (start + d) (stop + d) = (λ k, k + d) <$> range start stop.
Proof.
  unfold range. replace (stop + d - (start + d)) with (stop - start) by lia.
  replace (start + d) with (d + start) by lia.
  rewrite <- fmap_add_seqZ. apply list_fmap_ext. intros; lia.
Qed.

Lemma get_cons {A : Type} (e : option A) (a : list (option A)) k :
  0 ≤ k → get (e :: a) (Some (k + 1)) = get a (Some k).
Proof.
  intros Hk. rewrite !get_nonneg by lia.
  replace (Z.to_nat (k + 1)) with (S (Z.to_nat k)) by lia. done.
Qed.

Lemma get_app_r {A : Type} (a b : list (option A)) k :
  0 ≤ k → get (a ++ b) (Some (len a + k)) = get b (Some k).
Proof.
  intros Hk. unfold len. rewrite !get_nonneg by lia.
  rewrite lookup_app_r by lia. do 2 f_equal. lia.
Qed.

Lemma get_app_l {A : Type} (a b : list (option A)) k :
  k < len a → get (a ++ b) (Some k) = get a (Some k).
Proof.
  intros Hk. destruct (decide (0 ≤ k)).
  - unfold len in Hk. rewrite !get_nonneg by lia. by rewrite lookup_app_l by lia.
  - by rewrite !get_negative by lia.
Qed.

Lemma bind_length_const {B C : Type} (F : B → list C) (n : nat) (ks : list B) :
  (∀ k, length (F k) = n) → length (ks ≫= F) = (length ks * n)%nat.
Proof.
  intros HF. induction ks as [| k ks IH]; [done |].
  rewrite bind_cons, length_app, HF, IH. simpl. lia.
Qed.

Lemma bind_ext_in {B C : Type} (F G : B → list C) (ks : list B) :
  (∀ k, k ∈ ks → F k = G k) → ks ≫= F = ks ≫= G.
Proof.
  induction ks as [| k ks IH]; intros HFG; [done |].
  rewrite !bind_cons, IH, (HFG k) by (intros; try apply HFG; set_solver). done.
Qed.

(** The block of turn [k] in the output of a loop that appends [m] elements
    in every turn. *)
Lemma bind_range_block {C : Type} (F : Z → list C) (m : nat) (n k : Z) :
  (∀ k, length (F k) = m) → 0 ≤ k < n →
  take m (drop (Z.to_nat k * m) (range 0 n ≫= F)) = F k.
Proof.
  intros HF Hk.
  assert (Hsplit : range 0 n = range 0 k ++ k :: range (k + 1) n).
  { unfold range. replace (n - 0) with (k + (n - k)) by lia.
    rewrite seqZ_app by lia. f_equal; [f_equal; lia |].
    rewrite seqZ_cons by lia. f_equal; f_equal; lia. }
  rewrite Hsplit, bind_app, bind_cons.
  rewrite drop_app_length'.
  - rewrite take_app_length'; [done | by rewrite HF].
  - rewrite (bind_length_const F m) by done. unfold range. rewrite length_seqZ.
    f_equal. lia.
Qed.

Lemma len_bind_range {C : Type} (F : Z → list C) (m : nat) (n : Z) :
  (∀ k, length (F k) = m) → len (range 0 n ≫= F) = Z.of_nat m * Z.max 0 n.
Proof.
  intros HF. unfold len. rewrite (bind_length_const F m) by done.
  unfold range. rewrite length_seqZ. nia.
Qed.

End WireframeLoops.

Section ToWireframeFacts.
Context `{Imports}.
Implicit Types (t lines : list (option Z)).

Lemma trianglesToLines_closed t :
  trianglesToLines t
  = range 0 ((len t + 2) `div` 3)
      ≫= λ k, triangleEdges (get t (Some (3 * k)), get t (Some (3 * k + 1)),
                              get t (Some (3 * k + 2))).
Proof. unfold trianglesToLines, addTriangle. cbv zeta. by rewrite foldl_append. Qed.

Lemma trianglesToLines_cons a b c t :
  trianglesToLines (a :: b :: c :: t) = triangleEdges (a, b, c) ++ trianglesToLines t.
Proof.
  rewrite !trianglesToLines_closed.
  assert (Hlen : len (a :: b :: c :: t) = len t + 3) by (unfold len; simpl; lia).
  rewrite Hlen. replace ((len t + 3 + 2) `div` 3) with ((len t + 2) `div` 3 + 1)
    by (rewrite <- Z.div_add by lia; f_equal; lia).
  assert (0 ≤ (len t + 2) `div` 3) by (apply Z.div_pos; unfold len; lia).
  rewrite range_cons by lia. rewrite bind_cons. f_equal.
  rewrite (range_shift 0 _ 1). rewrite list_fmap_bind. apply bind_ext_in.
  intros k Hk%elem_of_range. simpl.
  change (a :: b :: c :: t) with ([a; b; c] ++ t).
  assert (Hget : ∀ e, 0 ≤ e → get ([a; b; c] ++ t) (Some (3 + e)) = get t (Some e)).
  { intros e He. by apply (get_app_r [a; b; c]). }
  replace (3 * (k + 1)) with (3 + 3 * k) by lia.
  replace (3 + 3 * k + 1) with (3 + (3 * k + 1)) by lia.
  replace (3 + 3 * k + 2) with (3 + (3 * k + 2)) by lia.
  rewrite !Hget by lia. done.
Qed.

Lemma trianglesToLines_whole (ts : list (option Z * option Z * option Z)) t :
  trianglesToLines ((ts ≫= triangleCorners) ++ t) = (ts ≫= triangleEdges) ++ trianglesToLines t.
Proof.
  induction ts as [| [[a b] c] ts IH]; [done |].
  rewrite !bind_cons. unfold triangleCorners at 1. cbn [fst snd app].
  rewrite trianglesToLines_cons, IH. by rewrite <- app_assoc.
Qed.

Lemma triangleStripToLines_closed t :
  triangleStripToLines t = range 0 (len t - 2) ≫= λ k, triangleEdges (stripTriangle t k).
Proof.
  unfold triangleStripToLines, addTriangle. cbv zeta. case_decide as Hlen.
  - rewrite foldl_append. rewrite (range_cons 0) by lia. rewrite bind_cons. f_equal.
    replace (range 3 (len t)) with (range (1 + 2) (len t - 2 + 2)) by (f_equal; lia).
    rewrite range_shift, list_fmap_bind. apply bind_ext_in.
    intros k Hk%elem_of_range. simpl. unfold stripTriangle. rewrite decide_False by lia.
    unfold triangleEdges. simpl.
    replace (k + 2 - 1) with (k + 1) by lia. replace (k + 2 - 2) with k by lia. done.
  - by rewrite range_empty by lia.
Qed.

Lemma triangleFanToLines_closed t :
  triangleFanToLines t = range 0 (len t - 2) ≫= λ k, triangleEdges (fanTriangle t k).
Proof.
  unfold triangleFanToLines, addTriangle. cbv zeta. case_decide as Hlen.
  - rewrite foldl_append. simpl.
    replace (range 1 (len t - 1)) with (range (0 + 1) (len t - 2 + 1)) by (f_equal; lia).
    rewrite range_shift, list_fmap_bind. apply bind_ext_in.
    intros k Hk%elem_of_range. simpl. unfold fanTriangle, triangleEdges. simpl.
    replace (k + 1 + 1) with (k + 2) by lia. done.
  - by rewrite range_empty by lia.
Qed.

End ToWireframeFacts.

(** X1: [trianglesToLines] turns an index list made of whole triangles into
    the three edges of every triangle, in the order of the triangles. One or
    two indices left over after the last whole triangle still give six
    indices: the edges of a triangle whose missing corners are [undefined]. *)
Theorem trianglesToLines_edges (ts : list (option Z * option Z * option Z))
    (a b : option Z) :
  trianglesToLines (ts ≫= triangleCorners) = ts ≫= triangleEdges
  ∧ trianglesToLines ((ts ≫= triangleCorners) ++ [a])
    = (ts ≫= triangleEdges) ++ triangleEdges (a, undefined, undefined)
  ∧ trianglesToLines ((ts ≫= triangleCorners) ++ [a; b])
    = (ts ≫= triangleEdges) ++ triangleEdges (a, b, undefined).
Proof.
  split_and!.
  - rewrite <- (app_nil_r (ts ≫= triangleCorners)), trianglesToLines_whole.
    by rewrite app_nil_r.
  - by rewrite trianglesToLines_whole.
  - by rewrite trianglesToLines_whole.
Qed.

(** X2: [triangleStripToLines] returns six indices for each of the
    [length - 2] triangles of a strip (none for a strip of fewer than three
    indices): block [k] holds the three edges of a triangle whose corners are
    the strip indices [k], [k + 1] and [k + 2] in some order. *)
Theorem triangleStripToLines_outlines (t : list (option Z)) :
  len (triangleStripToLines t) = 6 * Z.max 0 (len t - 2)
  ∧ ∀ k, 0 ≤ k < len t - 2 →
      take 6 (drop (Z.to_nat k * 6) (triangleStripToLines t)) = triangleEdges (stripTriangle t k)
      ∧ triangleCorners (stripTriangle t k)
        ≡ₚ [get t (Some k); get t (Some (k + 1)); get t (Some (k + 2))].
Proof.
  rewrite triangleStripToLines_closed. split.
  - by rewrite (len_bind_range _ 6).
  - intros k Hk. split.
    + by rewrite (bind_range_block (λ k, triangleEdges (stripTriangle t k)) 6).
    + unfold stripTriangle, triangleCorners. case_decide as Hk0; simpl.
      * by subst k.
      * apply (Permutation_app_comm [_; _] [_]).
Qed.

(** X3: [triangleFanToLines] returns six indices for each of the
    [length - 2] triangles of a fan (none for a fan of fewer than three
    indices): block [k] holds the three edges of the triangle made of the
    first index of the fan and the fan indices [k + 1] and [k + 2]. *)
Theorem triangleFanToLines_outlines (t : list (option Z)) :
  len (triangleFanToLines t) = 6 * Z.max 0 (len t - 2)
  ∧ ∀ k, 0 ≤ k < len t - 2 →
      take 6 (drop (Z.to_nat k * 6) (triangleFanToLines t))
      = triangleEdges (get t (Some 0), get t (Some (k + 1)), get t (Some (k + 2))).
Proof.
  rewrite triangleFanToLines_closed. split.
  - by rewrite (len_bind_range _ 6).
  - intros k Hk.
    by rewrite (bind_range_block (λ k, triangleEdges (fanTriangle t k)) 6).
Qed.

Section SameVertices.
Implicit Types (t : list (option Z)) (v : option Z).

Lemma elem_of_get {A : Type} (a : list (option A)) (v : option A) :
  v ∈ a ↔ ∃ p, 0 ≤ p < len a ∧ get a (Some p) = v.
Proof.
  rewrite list_elem_of_lookup. unfold len. split.
  - intros [n Hn]. exists (Z.of_nat n). pose proof (lookup_lt_Some _ _ _ Hn).
    split; [lia |]. rewrite get_nonneg, Nat2Z.id, Hn by lia. done.
  - intros (p & Hp & Hv). exists (Z.to_nat p). rewrite get_nonneg in Hv by lia.
    destruct (lookup_lt_is_Some_2 a (Z.to_nat p)) as [e He]; [lia |].
    rewrite He in Hv. simpl in Hv. by subst e.
Qed.

Lemma elem_of_bind_range (F : Z → list (option Z)) (n : Z) v :
  v ∈ range 0 n ≫= F ↔ ∃ k, 0 ≤ k < n ∧ v ∈ F k.
Proof.
  rewrite list_elem_of_bind. split.
  - intros (k & Hv & Hk%elem_of_range). eauto.
  - intros (k & Hk & Hv). exists k. by rewrite elem_of_range.
Qed.

Lemma elem_of_triangleEdges (a b c v : option Z) :
  v ∈ triangleEdges (a, b, c) ↔ v = a ∨ v = b ∨ v = c.
Proof. unfold triangleEdges. simpl. rewrite !elem_of_cons, elem_of_nil. tauto. Qed.

Lemma trianglesToLines_vertices t v :
  len t `mod` 3 = 0 → v ∈ trianglesToLines t ↔ v ∈ t.
Proof.
  intros Hmod. rewrite trianglesToLines_closed, elem_of_bind_range, elem_of_get.
  assert (Hdiv : (len t + 2) `div` 3 = len t `div` 3).
  { pose proof (Z.div_mod (len t) 3 ltac:(lia)).
    replace (len t + 2) with (2 + len t `div` 3 * 3) by lia.
    rewrite Z.div_add by lia. done. }
  rewrite Hdiv. pose proof (Z.div_mod (len t) 3 ltac:(lia)) as Hlen.
  split.
  - intros (k & Hk & Hv). apply elem_of_triangleEdges in Hv.
    destruct Hv as [-> | [-> | ->]]; eexists; (split; [| reflexivity]); lia.
  - intros (p & Hp & <-). exists (p `div` 3).
    pose proof (Z.div_mod p 3 ltac:(lia)) as Hpdiv.
    pose proof (Z.mod_pos_bound p 3 ltac:(lia)) as Hpmod.
    split; [split; [apply Z.div_pos; lia | apply Z.div_lt_upper_bound; lia] |].
    apply elem_of_triangleEdges.
    assert (p `mod` 3 = 0 ∨ p `mod` 3 = 1 ∨ p `mod` 3 = 2) as [H0 | [H1 | H2]] by lia.
    + left. f_equal. f_equal. lia.
    + right. left. f_equal. f_equal. lia.
    + right. right. f_equal. f_equal. lia.
Qed.

Lemma triangleStripToLines_vertices t v :
  3 ≤ len t → v ∈ triangleStripToLines t ↔ v ∈ t.
Proof.
  intros Hlen. rewrite triangleStripToLines_closed, elem_of_bind_range, elem_of_get.
  split.
  - intros (k & Hk & Hv). unfold stripTriangle in Hv.
    case_decide; apply elem_of_triangleEdges in Hv;
      destruct Hv as [-> | [-> | ->]]; eexists; (split; [| reflexivity]); lia.
  - intros (p & Hp & <-).
    destruct (decide (p ≤ len t - 3)) as [Hle | Hgt].
    + exists p. split; [lia |]. unfold stripTriangle.
      case_decide; apply elem_of_triangleEdges; [left; by subst p | by right; right].
    + exists (len t - 3). split; [lia |]. unfold stripTriangle.
      assert (p = len t - 2 ∨ p = len t - 1) as [-> | ->] by lia.
      * case_decide as H0; apply elem_of_triangleEdges.
        -- right. left. do 2 f_equal. lia.
        -- left. do 2 f_equal. lia.
      * case_decide as H0; apply elem_of_triangleEdges.
        -- right. right. do 2 f_equal. lia.
        -- right. left. do 2 f_equal. lia.
Qed.

Lemma triangleFanToLines_vertices t v :
  3 ≤ len t → v ∈ triangleFanToLines t ↔ v ∈ t.
Proof.
  intros Hlen. rewrite triangleFanToLines_closed, elem_of_bind_range, elem_of_get.
  split.
  - intros (k & Hk & Hv). unfold fanTriangle in Hv. apply elem_of_triangleEdges in Hv.
    destruct Hv as [-> | [-> | ->]]; eexists; (split; [| reflexivity]); lia.
  - intros (p & Hp & <-).
    destruct (decide (p = 0)) as [-> | Hp0].
    { exists 0. split; [lia |]. apply elem_of_triangleEdges. by left. }
    destruct (decide (p ≤ len t - 2)) as [Hle | Hgt].
    + exists (p - 1). split; [lia |]. apply elem_of_triangleEdges.
      right. left. do 2 f_equal. lia.
    + exists (len t - 3). split; [lia |]. apply elem_of_triangleEdges.
      right. right. do 2 f_equal. lia.
Qed.

End SameVertices.

(** X4: [toWireframe] applied to its own result changes nothing more. It
    never touches the attributes or the bounding sphere, and whenever the
    geometry has an index list the result is of primitive type [LINES]. *)
Theorem toWireframe_idempotent `{Imports} (g : Geometry) :
  toWireframe (toWireframe g) = toWireframe g
  ∧ attributes (toWireframe g) = attributes g
  ∧ boundingSphere (toWireframe g) = boundingSphere g
  ∧ (is_Some (indexList g) → primitiveType (toWireframe g) = LINES).
Proof.
  destruct g as [attrs [indices |] type sphere]; unfold toWireframe; simpl.
  - split_and!; by destruct type.
  - by split_and!.
Qed.

(** X5: the wireframe references exactly the vertices that the triangles
    did: for a list of whole triangles, or a strip or fan of at least three
    indices, a value occurs in the index list of [toWireframe g] if and only
    if it occurs in the index list of [g]. *)
Theorem toWireframe_same_vertices `{Imports} (g : Geometry) (indices : list (option Z)) :
  indexList g = Some indices →
  (primitiveType g = TRIANGLES → len indices `mod` 3 = 0) →
  (primitiveType g = TRIANGLE_STRIP ∨ primitiveType g = TRIANGLE_FAN → 3 ≤ len indices) →
  ∃ lines, indexList (toWireframe g) = Some lines ∧ ∀ v, v ∈ lines ↔ v ∈ indices.
Proof.
  intros Hindex Htriangles Hstrip. unfold toWireframe. rewrite Hindex.
  destruct (primitiveType g) eqn:Htype; simpl; try (exists indices; by rewrite ?Hindex).
  - eexists. split; [done |]. intros v. apply trianglesToLines_vertices. by apply Htriangles.
  - eexists. split; [done |]. intros v. apply triangleStripToLines_vertices. apply Hstrip. by left.
  - eexists. split; [done |]. intros v. apply triangleFanToLines_vertices. apply Hstrip. by right.
Qed.

Lemma toWireframe_same_vertices_witness :
  ∃ lines, indexList (toWireframe Example.square) = Some lines
           ∧ ∀ v, v ∈ lines ↔ v ∈ [Some 0; Some 1; Some 2; Some 0; Some 2; Some 3].
Proof.
  apply (toWireframe_same_vertices Example.square).
  - reflexivity.
  - intros _. reflexivity.
  - intros [? | ?]; discriminate.
Defined.

(** ** createAttributeIndices *)

Section CreateAttributeIndicesFacts.
Context `{Imports}.

Lemma createAttributeIndices_loop (attrs : list (string * GeometryAttribute)) :
  NoDup attrs.*1 →
  let s := foldl (λ '(indices, j) p, (<[p.1 := j]> indices, j + 1))
                 ((∅ : gmap string Z), 0) attrs in
  s.2 = len attrs
  ∧ ∀ name j, s.1 !! name = Some j ↔ 0 ≤ j ∧ attrs.*1 !! Z.to_nat j = Some name.
Proof.
  induction attrs as [| p attrs IH] using rev_ind; intros Hnodup; cbv zeta.
  - simpl. split; [done |]. intros name j. rewrite lookup_empty. split; [done |].
    by intros [_ ?].
  - rewrite fmap_app in Hnodup. apply NoDup_app in Hnodup as (Hnodup & Hfresh & _).
    specialize (IH Hnodup). cbv zeta in IH. rewrite foldl_snoc.
    destruct (foldl _ _ attrs) as [indices j0]. simpl in IH. destruct IH as [-> IH].
    simpl. split; [unfold len; rewrite length_app; simpl; lia |].
    intros name j. rewrite fmap_app. simpl.
    assert (Hlen : length attrs.*1 = length attrs) by apply length_fmap.
    destruct (decide (p.1 = name)) as [<- | Hne].
    + rewrite lookup_insert_eq. split.
      * intros [= <-]. unfold len. split; [lia |].
        rewrite lookup_app_r by lia. rewrite Nat2Z.id, Hlen, Nat.sub_diag. done.
      * intros [Hj Hlookup]. f_equal.
        destruct (decide (Z.to_nat j < length attrs)%nat) as [Hlt | Hge].
        -- rewrite lookup_app_l in Hlookup by lia.
           apply list_elem_of_lookup_2 in Hlookup. exfalso. apply (Hfresh p.1); [done |].
           apply list_elem_of_singleton. done.
        -- rewrite lookup_app_r in Hlookup by lia.
           apply lookup_lt_Some in Hlookup. simpl in Hlookup. unfold len. lia.
    + rewrite lookup_insert_ne by done. rewrite IH. split.
      * intros [Hj Hlookup]. split; [done |].
        by apply lookup_app_l_Some.
      * intros [Hj Hlookup]. split; [done |].
        apply lookup_app_Some in Hlookup as [? | [_ Hlast]]; [done |].
        apply list_lookup_singleton_Some in Hlast as [_ ?]. done.
Qed.

End CreateAttributeIndicesFacts.

(** X6: when the attribute names of the geometry are distinct,
    [createAttributeIndices] gives every attribute its position in the
    enumeration of the attributes, counted from 0: the indices are distinct,
    and a name has an index if and only if the geometry has that attribute. *)
Theorem createAttributeIndices_positions `{Imports} (g : Geometry) :
  NoDup (attributes g).*1 →
  (∀ name j, createAttributeIndices g !! name = Some j
             ↔ 0 ≤ j ∧ (attributes g).*1 !! Z.to_nat j = Some name)
  ∧ (∀ name name' j, createAttributeIndices g !! name = Some j →
                     createAttributeIndices g !! name' = Some j → name = name')
  ∧ (∀ name, is_Some (createAttributeIndices g !! name)
             ↔ is_Some (lookupAttribute name (attributes g))).
Proof.
  intros Hnodup. destruct (createAttributeIndices_loop (attributes g) Hnodup) as [_ Hloop].
  fold (createAttributeIndices g) in Hloop. split_and!.
  - done.
  - intros name name' j [_ H1]%Hloop [_ H2]%Hloop. congruence.
  - intros name. rewrite lookupAttribute_is_Some. split.
    + intros [j [_ Hj]%Hloop]. by eapply list_elem_of_lookup_2.
    + intros [n Hn]%list_elem_of_lookup. exists (Z.of_nat n). apply Hloop.
      rewrite Nat2Z.id. split; [lia | done].
Qed.

(** ** reorderForPreVertexCache: more of its behaviour *)

Section PreVertexCacheMore.
Context `{Imports}.
Implicit Types (g : Geometry) (l : list Z) (vs : list (option float)).

(** Without an index list every slot of the cross reference holds -1, and
    every component is written at a negative key. *)
Lemma reorderValues_unreferenced N nc vs :
  0 ≤ nc → reorderValues N (replicate (Z.to_nat N) (Some (-1))) nc vs = [].
Proof.
  intros Hnc. unfold reorderValues.
  assert (Hstep : ∀ ws, Forall (λ i, 0 ≤ i < N) ws →
            foldl (λ elementsOut intoElementsIn,
                     moveVertex nc vs (get (replicate (Z.to_nat N) (Some (-1)))
                                           (Some intoElementsIn))
                                intoElementsIn elementsOut) [] ws = []).
  { induction ws as [| i ws IH] using rev_ind; intros Hws; [done |].
    apply Forall_app in Hws as [Hws Hi%Forall_inv].
    rewrite foldl_snoc, IH by done. rewrite get_replicate by (cbv beta in Hi; lia).
    unfold moveVertex.
    assert (Hcs : ∀ cs, Forall (λ c, 0 ≤ c < nc) cs →
              foldl (λ out c, JS.set out (nc * -1 + c) (get vs (Some (nc * i + c)))) [] cs
              = []).
    { induction cs as [| c cs IHc] using rev_ind; intros Hcs; [done |].
      apply Forall_app in Hcs as [Hcs Hc%Forall_inv].
      rewrite foldl_snoc, IHc by done. apply set_negative. cbv beta in Hc. lia. }
    apply Hcs. apply Forall_forall. intros c Hc%elem_of_range. lia. }
  apply Hstep. apply Forall_forall. intros i Hi%elem_of_range. lia.
Qed.

Lemma vertexOf_ext vs vs' (c : nat) (i i' : Z) :
  (∀ k, 0 ≤ k < Z.of_nat c →
        get vs' (Some (Z.of_nat c * i' + k)) = get vs (Some (Z.of_nat c * i + k))) →
  vertexOf vs' c (Some i') = vertexOf vs c (Some i).
Proof.
  intros Hget. unfold vertexOf. apply list_fmap_ext. intros n k Hk.
  apply list_elem_of_lookup_2, elem_of_range in Hk. unfold componentOf. simpl.
  replace (i' * Z.of_nat c + k) with (Z.of_nat c * i' + k) by lia.
  replace (i * Z.of_nat c + k) with (Z.of_nat c * i + k) by lia. by apply Hget.
Qed.

Lemma cornerOf_reordered N l (attrs : list (string * GeometryAttribute)) i r :
  Forall (λ i, 0 ≤ i < N) l → firstReferenceRank l i = Some r →
  cornerOf (prod_map id (reorderAttribute N (crossReference N l)) <$> attrs) (Some r)
  = cornerOf attrs (Some i).
Proof.
  intros Hl Hr. unfold cornerOf. induction attrs as [| [name a] attrs IH]; [done |].
  rewrite fmap_cons. cbn [omap list_omap prod_map fst snd id]. rewrite <- IH. clear IH.
  unfold reorderAttribute at 1 2. destruct (values a) as [vs |] eqn:Hvs; [| by rewrite Hvs].
  cbn [values withValues componentsPerAttribute fmap option_fmap option_map].
  do 2 f_equal. apply vertexOf_ext. intros k Hk. by apply get_reorderValues.
Qed.

Lemma len_firstSeen_distinct l : len (firstSeen l) = Z.of_nat (size (list_to_set l : gset Z)).
Proof.
  unfold len. f_equal. rewrite <- (size_list_to_set (C := gset Z)) by apply NoDup_firstSeen.
  f_equal. apply set_eq. intros i. by rewrite !elem_of_list_to_set, elem_of_firstSeen.
Qed.

End PreVertexCacheMore.

(** X7: without an index list the scan of [reorderForPreVertexCache] marks
    no vertex as used, so the call returns the geometry with the values of
    every attribute that has values replaced by an empty array; the
    descriptions of the attributes and the rest of the geometry stay. *)
Theorem reorderForPreVertexCache_without_index_list `{Imports} (g : Geometry) (N : Z) :
  computeNumberOfVertices g = Return N → indexList g = None →
  reorderForPreVertexCache g
  = Return (withAttributes g
              (prod_map id (λ a, match values a with
                                 | Some _ => withValues a (Some [])
                                 | None => a
                                 end) <$> attributes g)).
Proof.
  intros HN Hindex. unfold reorderForPreVertexCache. rewrite HN, Hindex.
  unfold mbind, result_bind. cbn [JS.bind]. do 2 f_equal.
  apply list_fmap_ext. intros n [name a] _. unfold prod_map. simpl. f_equal.
  unfold reorderAttribute. destruct (values a); [| done].
  by rewrite reorderValues_unreferenced by lia.
Qed.

Lemma reorderForPreVertexCache_without_index_list_witness :
  reorderForPreVertexCache Example.flatLine
  = Return (withAttributes Example.flatLine
              [("position"%string, withValues (mkGeometryAttribute Example.DOUBLE 2 false None)
                                              (Some []))]).
Proof.
  apply (reorderForPreVertexCache_without_index_list Example.flatLine 2); reflexivity.
Defined.

(** X8: [reorderForPreVertexCache] does not change what is drawn. When the
    indices reference existing vertices, the attribute components fetched
    through the index list of the result, corner after corner, are those
    fetched through the index list of the argument. *)
Theorem reorderForPreVertexCache_preserves_corners `{Imports} (g : Geometry) (N : Z)
    (l : list Z) :
  computeNumberOfVertices g = Return N →
  indexList g = Some (Some <$> l) →
  Forall (λ i, 0 ≤ i < N) l →
  ∃ g', reorderForPreVertexCache g = Return g' ∧ corners g' = corners g.
Proof.
  intros HN Hindex Hl. exists (reordered g N l). split.
  - by apply reorderForPreVertexCache_eq.
  - unfold corners. rewrite Hindex. cbn [reordered indexList attributes default]. unfold id.
    rewrite <- !list_fmap_compose. apply list_fmap_ext. intros n i Hi. simpl.
    destruct (firstReferenceRank_is_Some l i) as [r Hr]; [by eapply list_elem_of_lookup_2 |].
    rewrite Hr. by apply cornerOf_reordered.
Qed.

Lemma reorderForPreVertexCache_preserves_corners_witness :
  ∃ g', reorderForPreVertexCache Example.quad = Return g'
        ∧ corners g' = corners Example.quad.
Proof.
  apply (reorderForPreVertexCache_preserves_corners Example.quad 4 [2; 3; 0; 0; 3; 1]).
  - reflexivity.
  - reflexivity.
  - repeat constructor; lia.
Defined.

(** X9: [reorderForPreVertexCache] compacts the vertices. When the indices
    reference existing vertices, the new index list has the length of the old
    one, its values are exactly the numbers below the count of distinct
    vertices referenced, two positions hold equal new indices if and only if
    they held equal old ones, and every attribute with values (and a component
    count other than 0) keeps the referenced vertices only. *)
Theorem reorderForPreVertexCache_compacts `{Imports} (g : Geometry) (N : Z) (l : list Z) :
  computeNumberOfVertices g = Return N →
  indexList g = Some (Some <$> l) →
  Forall (λ i, 0 ≤ i < N) l →
  let referenced := Z.of_nat (size (list_to_set l : gset Z)) in
  ∃ g' l', reorderForPreVertexCache g = Return g'
    ∧ indexList g' = Some (Some <$> l')
    ∧ length l' = length l
    ∧ (∀ r, r ∈ l' ↔ 0 ≤ r < referenced)
    ∧ (∀ p q i j i' j', l !! p = Some i → l !! q = Some j →
                        l' !! p = Some i' → l' !! q = Some j' → (i' = j' ↔ i = j))
    ∧ ∀ name a' vs', lookupAttribute name (attributes g') = Some a' →
                     values a' = Some vs' → componentsPerAttribute a' ≠ 0%nat →
                     len vs' = Z.of_nat (componentsPerAttribute a') * referenced.
Proof.
  intros HN Hindex Hl referenced. exists (reordered g N l), (renumbered l).
  pose proof (computeNumberOfVertices_nonneg _ _ HN) as HN0.
  split_and!.
  - by apply reorderForPreVertexCache_eq.
  - simpl. by rewrite renumbered_Some.
  - unfold renumbered. by rewrite length_fmap.
  - intros r. unfold referenced. by rewrite elem_of_renumbered, len_firstSeen_distinct.
  - intros p q i j i' j' Hi Hj. unfold renumbered. rewrite !list_lookup_fmap, Hi, Hj.
    simpl. intros [= <-] [= <-].
    destruct (firstReferenceRank_is_Some l i) as [r Hr]; [by eapply list_elem_of_lookup_2 |].
    destruct (firstReferenceRank_is_Some l j) as [s Hs]; [by eapply list_elem_of_lookup_2 |].
    rewrite Hr, Hs. simpl. split.
    + intros <-. by eapply firstReferenceRank_inj.
    + intros <-. congruence.
  - intros name a' vs'. cbn [reordered attributes]. rewrite lookupAttribute_fmap.
    destruct (lookupAttribute name (attributes g)) as [a |]; [| done]. simpl.
    intros [= <-]. unfold reorderAttribute.
    destruct (values a) as [vs |] eqn:Hvs; [| by rewrite Hvs].
    cbn [values withValues componentsPerAttribute]. intros [= <-] Hc.
    unfold referenced. rewrite <- len_firstSeen_distinct. apply len_reorderValues; [done | lia | done].
Qed.

Lemma reorderForPreVertexCache_compacts_witness :
  ∃ g' l', reorderForPreVertexCache Example.fourVertices = Return g'
    ∧ indexList g' = Some (Some <$> l')
    ∧ length l' = 4%nat.
Proof.
  destruct (reorderForPreVertexCache_compacts Example.fourVertices 4 [2; 2; 0; 1])
    as (g' & l' & Hg' & Hindex & Hlen & _).
  - reflexivity.
  - reflexivity.
  - repeat constructor; lia.
  - exists g', l'. split_and!; [exact Hg' | exact Hindex | exact Hlen].
Defined.

(** ** reorderForPostVertexCache: the maximum index *)

Section MaximumIndex.

Lemma maximumIndexOf_snoc (indices : list (option Z)) (v : option Z) :
  maximumIndexOf (indices ++ [v])
  = match v with
    | Some i => Z.max (maximumIndexOf indices) i
    | None => maximumIndexOf indices
    end.
Proof.
  unfold maximumIndexOf. rewrite foldl_snoc. destruct v as [i |]; simpl; [| done].
  case_bool_decide; lia.
Qed.

Lemma maximumIndexOf_spec (indices : list (option Z)) :
  0 ≤ maximumIndexOf indices
  ∧ (∀ i, Some i ∈ indices → i ≤ maximumIndexOf indices)
  ∧ (maximumIndexOf indices = 0 ∨ Some (maximumIndexOf indices) ∈ indices).
Proof.
  induction indices as [| v indices (IH0 & IHle & IHin)] using rev_ind.
  - split_and!; [done | by intros i ?%elem_of_nil | by left].
  - rewrite maximumIndexOf_snoc. destruct v as [j |].
    + split_and!.
      * lia.
      * intros i [Hi | Hi%list_elem_of_singleton]%elem_of_app.
        -- specialize (IHle i Hi). lia.
        -- injection Hi as ->. lia.
      * destruct (decide (maximumIndexOf indices < j)).
        -- right. rewrite Z.max_r by lia. apply elem_of_app. right. by apply list_elem_of_singleton.
        -- rewrite Z.max_l by lia. destruct IHin as [? | ?]; [by left | right].
           apply elem_of_app. by left.
    + split_and!; [done | |].
      * intros i [Hi | Hi%list_elem_of_singleton]%elem_of_app; [by apply IHle | done].
      * destruct IHin as [? | ?]; [by left | right]. apply elem_of_app. by left.
Qed.

End MaximumIndex.

(** X10: for a [TRIANGLES] geometry with an index list,
    [reorderForPostVertexCache] hands [Tipsify.tipsify] the index list and its
    greatest index, never less than 0: no index of the list exceeds that
    maximum, which is an index of the list unless it is 0. [undefined] entries
    of the list do not count. *)
Theorem reorderForPostVertexCache_maximum_index `{Imports} (g : Geometry)
    (indices : list (option Z)) (cacheCapacity : option Z) :
  indexList g = Some indices → primitiveType g = TRIANGLES →
  ∃ maximumIndex,
    reorderForPostVertexCache g cacheCapacity
    = (reordered ← Tipsify_tipsify indices maximumIndex cacheCapacity;
       Return (withIndexList g (Some reordered)))
    ∧ 0 ≤ maximumIndex
    ∧ (∀ i, Some i ∈ indices → i ≤ maximumIndex)
    ∧ (maximumIndex = 0 ∨ Some maximumIndex ∈ indices).
Proof.
  intros Hindex Htype. exists (maximumIndexOf indices).
  split; [| apply maximumIndexOf_spec].
  unfold reorderForPostVertexCache. rewrite Hindex. by rewrite decide_True.
Qed.

Lemma reorderForPostVertexCache_maximum_index_witness :
  ∃ maximumIndex,
    reorderForPostVertexCache Example.square None
    = (reordered ← Tipsify_tipsify [Some 0; Some 1; Some 2; Some 0; Some 2; Some 3]
                                   maximumIndex None;
       Return (withIndexList Example.square (Some reordered)))
    ∧ 0 ≤ maximumIndex
    ∧ (∀ i, Some i ∈ [Some 0; Some 1; Some 2; Some 0; Some 2; Some 3] → i ≤ maximumIndex)
    ∧ (maximumIndex = 0
       ∨ Some maximumIndex ∈ [Some 0; Some 1; Some 2; Some 0; Some 2; Some 3]).
Proof.
  apply (reorderForPostVertexCache_maximum_index Example.square); reflexivity.
Defined.

(** ** fitToUnsignedShortIndices: the corners of the split geometries *)

Section GatheredFacts.
Context `{Imports}.
Implicit Types (attrs dest : list (string * GeometryAttribute)) (keys : list (option Z)).

Lemma bind_snoc {B C : Type} (F : B → list C) (ks : list B) (k : B) :
  (ks ++ [k]) ≫= F = (ks ≫= F) ++ F k.
Proof. rewrite bind_app. f_equal. simpl. apply app_nil_r. Qed.

Lemma gathered_app attrs1 attrs2 keys :
  gathered (attrs1 ++ attrs2) keys = gathered attrs1 keys ++ gathered attrs2 keys.
Proof. unfold gathered. apply omap_app. Qed.

Lemma gathered_names attrs keys name :
  name ∈ (gathered attrs keys).*1 → name ∈ attrs.*1.
Proof.
  unfold gathered. induction attrs as [| [n a] attrs IH]; simpl; [done |].
  destruct (values a); simpl.
  - rewrite !elem_of_cons. intros [? | ?]; [by left | right; by apply IH].
  - rewrite elem_of_cons. intros ?. right. by apply IH.
Qed.

Lemma gathered_names_keys attrs keys keys' :
  (gathered attrs keys).*1 = (gathered attrs keys').*1.
Proof.
  unfold gathered. induction attrs as [| [n a] attrs IH]; simpl; [done |].
  destruct (values a); simpl; [by f_equal | done].
Qed.

Lemma copyAttributesDescriptions_gathered attrs :
  NoDup attrs.*1 → copyAttributesDescriptions attrs = gathered attrs [].
Proof.
  unfold copyAttributesDescriptions.
  induction attrs as [| p attrs IH] using rev_ind; intros Hnodup; [done |].
  rewrite fmap_app in Hnodup. apply NoDup_app in Hnodup as (Hnodup & Hfresh & _).
  rewrite foldl_snoc, IH, gathered_app by done.
  assert (Hp : gathered [p] []
               = match values p.2 with
                 | Some _ => [(p.1, mkGeometryAttribute (componentDatatype p.2)
                                      (componentsPerAttribute p.2) (normalize p.2) (Some []))]
                 | None => []
                 end).
  { unfold gathered. simpl. by destruct (values p.2). }
  rewrite Hp. destruct (values p.2).
  - apply setAttribute_names_new. intros Hin%gathered_names.
    apply (Hfresh p.1 Hin). by apply list_elem_of_singleton.
  - by rewrite app_nil_r.
Qed.

(** A push into the attribute [name], which is the first of that name. *)
Lemma pushValue_middle name v (b : GeometryAttribute) vsb pre post :
  name ∉ pre.*1 → values b = Some vsb →
  pushValue name v (pre ++ (name, b) :: post)
  = Return (pre ++ (name, withValues b (Some (vsb ++ [v]))) :: post).
Proof.
  intros Hpre Hb. induction pre as [| [n a] pre IH]; simpl.
  - by rewrite decide_True, Hb.
  - simpl in Hpre. rewrite not_elem_of_cons in Hpre. destruct Hpre as [Hn Hpre].
    rewrite decide_False by done. rewrite IH by done. done.
Qed.

Lemma pushValues_middle name (f : Z → option float) (b : GeometryAttribute) vsb pre post
    (ks : list Z) :
  name ∉ pre.*1 → values b = Some vsb →
  foldM (λ d k, pushValue name (f k) d) (pre ++ (name, b) :: post) ks
  = Return (pre ++ (name, withValues b (Some (vsb ++ (f <$> ks)))) :: post).
Proof.
  intros Hpre. revert b vsb. induction ks as [| k ks IH]; intros b vsb Hb; simpl.
  - rewrite app_nil_r. destruct b. simpl in Hb. by subst.
  - rewrite (pushValue_middle name (f k) b vsb) by done. simpl.
    rewrite (IH _ (vsb ++ [f k])) by done. do 3 f_equal.
    unfold withValues. simpl. by rewrite <- app_assoc.
Qed.

Lemma copyVertex_gathered_from (processed todo : list (string * GeometryAttribute)) keys x :
  NoDup (processed ++ todo).*1 →
  foldM (λ dest p,
           match values p.2 with
           | Some vs =>
               let c := Z.of_nat (componentsPerAttribute p.2) in
               foldM (λ d k, pushValue p.1 (componentOf vs x c k) d) dest (range 0 c)
           | None => Return dest
           end)
        (gathered processed (keys ++ [x]) ++ gathered todo keys) todo
  = Return (gathered processed (keys ++ [x]) ++ gathered todo (keys ++ [x])).
Proof.
  revert processed. induction todo as [| [name a] todo IH]; intros processed Hnodup; [done |].
  assert (Hnodup' : NoDup ((processed ++ [(name, a)]) ++ todo).*1) by by rewrite <- app_assoc.
  specialize (IH (processed ++ [(name, a)]) Hnodup').
  rewrite gathered_app in IH. rewrite <- !app_assoc in IH.
  cbn [foldM snd fst]. destruct (values a) as [vs |] eqn:Hvs.
  - assert (Hone : ∀ keys', gathered [(name, a)] keys'
              = [(name, mkGeometryAttribute (componentDatatype a) (componentsPerAttribute a)
                          (normalize a)
                          (Some (keys' ≫= vertexOf vs (componentsPerAttribute a))))]).
    { intros keys'. unfold gathered. simpl. by rewrite Hvs. }
    change ((name, a) :: todo) with ([(name, a)] ++ todo).
    rewrite !(gathered_app [(name, a)]). rewrite !Hone in *. cbv zeta. simpl app.
    rewrite (pushValues_middle name _ _ (keys ≫= vertexOf vs (componentsPerAttribute a))).
    + cbn [JS.bind]. rewrite bind_snoc in IH |- *.
      unfold withValues. simpl. exact IH.
    + intros Hin%gathered_names. rewrite fmap_app in Hnodup.
      apply NoDup_app in Hnodup as (_ & Hfresh & _). apply (Hfresh name Hin). by left.
    + done.
  - assert (Hone : ∀ keys', gathered [(name, a)] keys' = []).
    { intros keys'. unfold gathered. simpl. by rewrite Hvs. }
    change ((name, a) :: todo) with ([(name, a)] ++ todo).
    rewrite !(gathered_app [(name, a)]). rewrite !Hone in *. simpl. apply IH.
Qed.

Lemma copyVertex_gathered attrs keys x :
  NoDup attrs.*1 →
  copyVertex (gathered attrs keys) attrs x = Return (gathered attrs (keys ++ [x])).
Proof. intros Hnodup. apply (copyVertex_gathered_from [] attrs keys x Hnodup). Qed.

End GatheredFacts.

Section CornersOfGathered.
Context `{Imports}.
Implicit Types (attrs : list (string * GeometryAttribute)) (keys : list (option Z)).

Lemma range_app (a b c : Z) : a ≤ b ≤ c → range a b ++ range b c = range a c.
Proof.
  intros Habc. unfold range. replace (c - a) with ((b - a) + (c - b)) by lia.
  rewrite seqZ_app by lia. do 2 f_equal. lia.
Qed.

(** Element [k] of block [i] in a concatenation of blocks of one length. *)
Lemma lookup_bind_block {B C : Type} (F : B → list C) (m : nat) (ks : list B)
    (i k : nat) (x : B) :
  (∀ y, length (F y) = m) → ks !! i = Some x → (k < m)%nat →
  (ks ≫= F) !! (i * m + k)%nat = F x !! k.
Proof.
  intros HF. revert i. induction ks as [| y ks IH]; intros i Hi Hk; [done |].
  rewrite bind_cons. destruct i as [| i]; simpl in Hi.
  - injection Hi as ->. simpl. by rewrite lookup_app_l by (rewrite HF; lia).
  - rewrite lookup_app_r by (rewrite HF; lia). rewrite HF.
    replace (S i * m + k - m)%nat with (i * m + k)%nat by lia. by apply IH.
Qed.

Lemma length_vertexOf vs (c : nat) index : length (vertexOf vs c index) = c.
Proof. unfold vertexOf, range. rewrite length_fmap, length_seqZ. lia. Qed.

Lemma lookup_vertexOf vs (c : nat) index (k : Z) :
  0 ≤ k < Z.of_nat c →
  vertexOf vs c index !! Z.to_nat k = Some (componentOf vs index (Z.of_nat c) k).
Proof.
  intros Hk. unfold vertexOf, range. rewrite list_lookup_fmap, lookup_seqZ_lt by lia.
  simpl. do 2 f_equal. lia.
Qed.

Lemma vertexOf_gathered vs (c : nat) keys (i : nat) x :
  keys !! i = Some x →
  vertexOf (keys ≫= vertexOf vs c) c (Some (Z.of_nat i)) = vertexOf vs c x.
Proof.
  intros Hi. unfold vertexOf at 1 3. apply list_fmap_ext. intros n k Hk.
  apply list_elem_of_lookup_2, elem_of_range in Hk.
  unfold componentOf at 1. simpl. rewrite get_nonneg by lia.
  replace (Z.to_nat (Z.of_nat i * Z.of_nat c + k)) with (i * c + Z.to_nat k)%nat by lia.
  rewrite (lookup_bind_block _ c _ _ _ x) by (try apply length_vertexOf; try done; lia).
  by rewrite lookup_vertexOf by lia.
Qed.

Lemma cornerOf_gathered attrs keys (i : nat) x :
  keys !! i = Some x →
  cornerOf (gathered attrs keys) (Some (Z.of_nat i)) = cornerOf attrs x.
Proof.
  intros Hi. unfold cornerOf, gathered.
  induction attrs as [| [name a] attrs IH]; [done |]. cbn [omap list_omap fst snd].
  destruct (values a) as [vs |]; cbn [fmap option_fmap option_map]; [| done].
  cbn [omap list_omap fst snd values componentsPerAttribute fmap option_fmap option_map].
  rewrite IH. do 2 f_equal. by apply vertexOf_gathered.
Qed.

(** The corners that the indices of the geometry under construction draw. *)
Lemma cornerOf_indices attrs keys (current newIndices : list (option Z)) :
  Forall2 (λ x v, ∃ i, v = Some i ∧ 0 ≤ i ∧ keys !! Z.to_nat i = Some x) current newIndices →
  cornerOf (gathered attrs keys) <$> newIndices = cornerOf attrs <$> current.
Proof.
  induction 1 as [| x v current newIndices (i & -> & Hi & Hkey) _ IH]; [done |].
  rewrite !fmap_cons, IH. f_equal.
  rewrite <- (Z2Nat.id i) by done. by apply cornerOf_gathered.
Qed.

End CornersOfGathered.

Section SplitCornersLoop.
Context `{Imports}.
Variable sixtyFourK indicesPerPrimitive : Z.
Variable g : Geometry.
Variable originalIndices : list (option Z).
Hypothesis primitive_size : 0 < indicesPerPrimitive.
Hypothesis names_distinct : NoDup (attributes g).*1.

Lemma splitIndex_corners j k flushed current keys s :
  SplitCorners g flushed current keys s →
  ∃ s' keys', splitIndex g originalIndices j s k = Return s'
    ∧ SplitCorners g flushed (current ++ [get originalIndices (Some (j + k))]) keys' s'.
Proof.
  intros [Hflushed Htypes Hnodup Hcurrent Hmap Hattrs Hindices].
  unfold splitIndex. set (x := get originalIndices (Some (j + k))).
  destruct (oldToNewIndex s !! x) as [i |] eqn:Hx.
  - exists (mkSplit (oldToNewIndex s) (newIndices s ++ [Some i]) (currentIndex s)
                    (newAttributes s) (geometries s)), keys.
    split; [done |]. split; simpl; try done.
    apply Forall2_app; [done |]. constructor; [| done].
    exists i. split; [done |]. by apply Hmap.
  - rewrite Hattrs, copyVertex_gathered by done.
    unfold mbind, result_bind. cbn [JS.bind].
    assert (Hfresh : x ∉ keys).
    { intros [n Hn]%list_elem_of_lookup. assert (oldToNewIndex s !! x = Some (Z.of_nat n)).
      { apply Hmap. rewrite Nat2Z.id. split; [lia | done]. }
      congruence. }
    eexists _, (keys ++ [x]). split; [done |]. split; simpl; try done.
    + apply NoDup_app. split_and!; [done | | apply NoDup_singleton].
      intros y Hy ->%list_elem_of_singleton. done.
    + unfold len in *. rewrite length_app. simpl. lia.
    + intros y i. destruct (decide (x = y)) as [<- | Hne].
      * rewrite lookup_insert_eq. split.
        -- intros [= <-]. rewrite Hcurrent. unfold len. split; [lia |].
           rewrite Nat2Z.id. by rewrite lookup_app_r, Nat.sub_diag by lia.
        -- intros [Hi Hlookup]. f_equal. rewrite Hcurrent. unfold len.
           apply lookup_app_Some in Hlookup as [Hl | [Hge Hl]].
           ++ exfalso. apply Hfresh. by eapply list_elem_of_lookup_2.
           ++ apply lookup_lt_Some in Hl. simpl in Hl. lia.
      * rewrite lookup_insert_ne by done. rewrite Hmap. split.
        -- intros [Hi Hlookup]. split; [done |]. by apply lookup_app_l_Some.
        -- intros [Hi Hlookup]. split; [done |].
           apply lookup_app_Some in Hlookup as [? | [_ Hl]]; [done |].
           apply list_lookup_singleton_Some in Hl as [_ ?]. done.
    + apply Forall2_app.
      * eapply Forall2_impl; [exact Hindices |]. intros y v (i & -> & Hi & Hkey).
        exists i. split_and!; [done | done |]. by apply lookup_app_l_Some.
      * constructor; [| done]. exists (currentIndex s). rewrite Hcurrent. unfold len.
        split_and!; [done | lia |]. rewrite Nat2Z.id. by rewrite lookup_app_r, Nat.sub_diag by lia.
Qed.

Lemma splitIndices_corners j (n : nat) k flushed current keys s :
  SplitCorners g flushed current keys s →
  ∃ s' keys', foldM (splitIndex g originalIndices j) s (range k (k + Z.of_nat n)) = Return s'
    ∧ SplitCorners g flushed
        (current ++ (get originalIndices ∘ Some <$> range (j + k) (j + k + Z.of_nat n)))
        keys' s'.
Proof.
  revert k current keys s. induction n as [| n IH]; intros k current keys s Hinv.
  - rewrite !range_empty by lia. exists s, keys. simpl. by rewrite app_nil_r.
  - rewrite (range_cons k), (range_cons (j + k)) by lia. simpl.
    destruct (splitIndex_corners j k flushed current keys s Hinv) as (s1 & keys1 & Hs1 & Hinv1).
    rewrite Hs1. simpl.
    destruct (IH (k + 1) _ _ s1 Hinv1) as (s' & keys' & Hs' & Hinv').
    exists s', keys'. split.
    + rewrite <- Hs'. f_equal. f_equal. lia.
    + rewrite <- app_assoc in Hinv'. simpl in Hinv'.
      replace (j + (k + 1)) with (j + k + 1) in Hinv' by lia.
      replace (j + k + 1 + Z.of_nat n) with (j + k + Z.of_nat (S n)) in Hinv' by lia.
      done.
Qed.

Lemma splitPrimitive_corners (q : Z) flushed current keys s :
  SplitCorners g flushed current keys s → 0 ≤ q →
  flushed ++ current = get originalIndices ∘ Some <$> range 0 (q * indicesPerPrimitive) →
  ∃ s' flushed' current' keys',
    splitPrimitive sixtyFourK indicesPerPrimitive g originalIndices s (q * indicesPerPrimitive)
    = Return s'
    ∧ SplitCorners g flushed' current' keys' s'
    ∧ flushed' ++ current'
      = get originalIndices ∘ Some <$> range 0 ((q + 1) * indicesPerPrimitive).
Proof.
  intros Hinv Hq Hread. unfold splitPrimitive.
  destruct (splitIndices_corners (q * indicesPerPrimitive) (Z.to_nat indicesPerPrimitive) 0
              flushed current keys s Hinv) as (s1 & keys1 & Hs1 & Hinv1).
  rewrite Z2Nat.id in Hs1, Hinv1 by lia. rewrite Z.add_0_l in Hs1.
  rewrite Z.add_0_r in Hinv1. rewrite Hs1.
  unfold mbind, result_bind. cbn [JS.bind].
  set (current1 := current ++ _) in Hinv1.
  assert (Hread1 : flushed ++ current1
                   = get originalIndices ∘ Some <$> range 0 ((q + 1) * indicesPerPrimitive)).
  { unfold current1. rewrite app_assoc, Hread, <- fmap_app. f_equal.
    rewrite range_app by nia. f_equal. f_equal. lia. }
  case_decide.
  - destruct Hinv1 as [Hflushed Htypes Hnodup Hcurrent Hmap Hattrs Hindices].
    eexists _, (flushed ++ current1), [], []. split; [done |]. split.
    + split; simpl.
      * rewrite fmap_app, concat_app, Hflushed. simpl. rewrite app_nil_r, fmap_app. f_equal.
        unfold corners. simpl. rewrite Hattrs. by eapply cornerOf_indices.
      * apply Forall_app. split; [done |]. apply Forall_singleton. simpl.
        split_and!; [done | done |]. rewrite Hattrs. apply gathered_names_keys.
      * apply NoDup_nil_2.
      * done.
      * intros x i. rewrite lookup_empty. split; [done | by intros [_ ?]].
      * by apply copyAttributesDescriptions_gathered.
      * done.
    + by rewrite app_nil_r.
  - eauto 10.
Qed.

Lemma splitStart_corners :
  SplitCorners g [] [] []
    (mkSplit ∅ [] 0 (copyAttributesDescriptions (attributes g)) []).
Proof.
  split; simpl; try done.
  - apply NoDup_nil_2.
  - intros x i. rewrite lookup_empty. split; [done | by intros [_ ?]].
  - by apply copyAttributesDescriptions_gathered.
Qed.

Lemma splitPrimitives_corners (n : nat) :
  ∃ s flushed current keys,
    foldM (splitPrimitive sixtyFourK indicesPerPrimitive g originalIndices)
          (mkSplit ∅ [] 0 (copyAttributesDescriptions (attributes g)) [])
          ((λ q, q * indicesPerPrimitive) <$> range 0 (Z.of_nat n)) = Return s
    ∧ SplitCorners g flushed current keys s
    ∧ flushed ++ current
      = get originalIndices ∘ Some <$> range 0 (Z.of_nat n * indicesPerPrimitive).
Proof.
  induction n as [| n (s & flushed & current & keys & Hs & Hinv & Hread)].
  - eexists _, [], [], []. split; [done |]. split; [apply splitStart_corners | done].
  - replace (Z.of_nat (S n)) with (Z.of_nat n + 1) by lia.
    rewrite range_snoc, fmap_app, foldM_app, Hs by lia. simpl.
    destruct (splitPrimitive_corners (Z.of_nat n) flushed current keys s Hinv ltac:(lia) Hread)
      as (s' & flushed' & current' & keys' & Hs' & Hinv' & Hread').
    rewrite Hs'. simpl. eauto 10.
Qed.

(** The split of an index list of whole primitives draws the corners of the
    geometry, in their order. *)
Lemma split_corners :
  len originalIndices `mod` indicesPerPrimitive = 0 →
  ∃ gs, split sixtyFourK indicesPerPrimitive g originalIndices = Return gs
    ∧ concat (corners <$> gs) = cornerOf (attributes g) <$> originalIndices
    ∧ Forall (λ g', primitiveType g' = primitiveType g ∧ boundingSphere g' = None
                    ∧ (attributes g').*1 = (gathered (attributes g) []).*1) gs.
Proof.
  intros Hmod. unfold split, primitiveStarts.
  set (Q := (len originalIndices + indicesPerPrimitive - 1) `div` indicesPerPrimitive).
  assert (HQ : Q * indicesPerPrimitive = len originalIndices).
  { unfold Q. pose proof (Z.div_mod (len originalIndices) indicesPerPrimitive ltac:(lia)) as Hdm.
    rewrite Hmod, Z.add_0_r in Hdm.
    replace (len originalIndices + indicesPerPrimitive - 1)
      with ((indicesPerPrimitive - 1) + len originalIndices `div` indicesPerPrimitive
                                        * indicesPerPrimitive) by lia.
    rewrite Z.div_add by lia. rewrite Z.div_small by lia. lia. }
  assert (HQ0 : 0 ≤ Q) by (apply Z.div_pos; unfold len; lia).
  destruct (splitPrimitives_corners (Z.to_nat Q)) as (s & flushed & current & keys & Hs & Hinv & Hread).
  rewrite Z2Nat.id in Hs, Hread by done. rewrite Hs.
  unfold mbind, result_bind. cbn [JS.bind].
  rewrite HQ in Hread.
  assert (Hall : get originalIndices ∘ Some <$> range 0 (len originalIndices) = originalIndices).
  { apply list_eq_same_length with (length originalIndices).
    - done.
    - unfold range, len. rewrite length_fmap, length_seqZ. lia.
    - intros n v v' Hn. unfold range. rewrite list_lookup_fmap, lookup_seqZ_lt by (unfold len; lia).
      simpl. rewrite get_nonneg by lia. replace (Z.to_nat (0 + Z.of_nat n)) with n by lia.
      intros [= <-] Hv'. by rewrite Hv'. }
  rewrite Hall in Hread.
  destruct Hinv as [Hflushed Htypes Hnodup Hcurrent Hmap Hattrs Hindices].
  case_decide as Hlast.
  - eexists. split; [done |]. split.
    + rewrite fmap_app, concat_app, Hflushed. simpl. rewrite app_nil_r.
      rewrite <- Hread, fmap_app. f_equal.
      unfold corners. simpl. rewrite Hattrs. by eapply cornerOf_indices.
    + apply Forall_app. split; [done |]. apply Forall_singleton. simpl.
      split_and!; [done | done |]. rewrite Hattrs. apply gathered_names_keys.
  - exists (geometries s). split; [done |]. split; [| done].
    assert (Hnil : newIndices s = []).
    { destruct (newIndices s); [done |]. unfold len in Hlast. simpl in Hlast. lia. }
    rewrite Hnil in Hindices. apply Forall2_nil_inv_r in Hindices. subst current.
    rewrite app_nil_r in Hread. by rewrite Hflushed, Hread.
Qed.

End SplitCornersLoop.

(** X11: [fitToUnsignedShortIndices] does not change what is drawn. For an
    index list of whole points, lines or triangles over attributes of distinct
    names, the corners fetched through the returned geometries, one geometry
    after the other, are the corners fetched through the argument; every
    returned geometry has the primitive type of the argument; and a geometry of
    at most 65536 vertices is returned alone, as it is. *)
Theorem fitToUnsignedShortIndices_preserves_corners `{Imports} (g : Geometry)
    (indices : list (option Z)) (n N : Z) :
  indexList g = Some indices →
  indicesPerPrimitiveOf (primitiveType g) = Some n →
  len indices `mod` n = 0 →
  NoDup (attributes g).*1 →
  computeNumberOfVertices g = Return N →
  ∃ gs, fitToUnsignedShortIndices g = Return gs
    ∧ concat (corners <$> gs) = corners g
    ∧ Forall (λ g', primitiveType g' = primitiveType g) gs
    ∧ (N ≤ 65536 → gs = [g]).
Proof.
  intros Hindex Hn Hmod Hnodup HN.
  unfold fitToUnsignedShortIndices. rewrite Hindex, Hn, HN.
  unfold mbind, result_bind. cbn [JS.bind]. change (64 * 1024) with 65536.
  case_decide as Hmany.
  - destruct (split_corners 65536 n g indices) as (gs & Hgs & Hcorners & Htypes); try done.
    { destruct (primitiveType g); simplify_eq/=; lia. }
    exists gs. split_and!; [done | | | lia].
    + unfold corners at 2. by rewrite Hindex.
    + eapply Forall_impl; [exact Htypes |]. by intros g' [? _].
  - exists [g]. split_and!; [done | | by apply Forall_singleton | done].
    simpl. by rewrite app_nil_r.
Qed.

Lemma fitToUnsignedShortIndices_preserves_corners_witness :
  ∃ gs, fitToUnsignedShortIndices Example.bigMesh = Return gs
    ∧ concat (corners <$> gs) = corners Example.bigMesh
    ∧ Forall (λ g', primitiveType g' = primitiveType Example.bigMesh) gs
    ∧ (70002 ≤ 65536 → gs = [Example.bigMesh]).
Proof.
  apply (fitToUnsignedShortIndices_preserves_corners Example.bigMesh
           (Some <$> range 0 70002) 3 70002).
  - reflexivity.
  - reflexivity.
  - unfold len, range. rewrite length_fmap, length_seqZ. reflexivity.
  - apply NoDup_singleton.
  - unfold computeNumberOfVertices, Example.bigMesh, attributes.
    cbn [foldM]. unfold countStep at 1. cbn [snd values].
    unfold attributeVertexCount. rewrite len_replicate by lia. reflexivity.
Defined.

(** ** combine over any number of instances *)

Section CombineAttributes.
Context `{Imports}.
Implicit Types (instances others : list GeometryInstance) (name : string).

Lemma inAllGeometries_Some name (a : GeometryAttribute) n others m :
  inAllGeometries name a n others = Return (Some m) →
  Forall (inInstance name a) others
  ∧ ∃ vss, Forall2 (valuesIn name) others vss ∧ m = n + len (concat vss).
Proof.
  revert n. induction others as [| instance others IH]; intros n; simpl.
  - intros [= <-]. split; [done |]. exists []. split; [done |]. unfold len. simpl. lia.
  - destruct (lookupAttribute name (attributes (geometry instance))) as [a' |] eqn:Ha';
      [| done].
    case_decide as Hsame; [done |].
    unfold valuesLength. destruct (values a') as [vs |] eqn:Hvs; [| done].
    unfold mbind, result_bind. cbn [JS.bind]. intros (Hall & vss & Hvss & ->)%IH.
    split.
    + constructor; [| done]. exists a'. split; [done |].
      unfold sameDescription. split_and!.
      * destruct (decide (componentDatatype a = componentDatatype a')); [done |].
        exfalso. apply Hsame. by left.
      * destruct (decide (componentsPerAttribute a = componentsPerAttribute a')); [done |].
        exfalso. apply Hsame. right. by left.
      * destruct (decide (normalize a = normalize a')); [done |].
        exfalso. apply Hsame. right. by right.
    + exists (vs :: vss). split.
      * constructor; [| done]. by exists a'.
      * unfold len. simpl. rewrite length_app. lia.
Qed.

Lemma inAllGeometries_None name (a : GeometryAttribute) n others :
  inAllGeometries name a n others = Return None → ¬ Forall (inInstance name a) others.
Proof.
  revert n. induction others as [| instance others IH]; intros n; simpl; [done |].
  destruct (lookupAttribute name (attributes (geometry instance))) as [a' |] eqn:Ha'.
  - case_decide as Hsame.
    + intros _ [(a'' & Ha'' & H1 & H2 & H3) _]%Forall_cons. simplify_eq.
      destruct Hsame as [? | [? | ?]]; done.
    + unfold valuesLength. destruct (values a'); [| done].
      unfold mbind, result_bind. cbn [JS.bind]. intros Hnone%IH [_ Hall]%Forall_cons. done.
  - intros _ [(a'' & Ha'' & _) _]%Forall_cons. congruence.
Qed.

Lemma omap_names (others : list GeometryInstance) (attrs : list (string * GeometryAttribute))
    name :
  name ∈ (omap (foundAttribute others) attrs).*1 → name ∈ attrs.*1.
Proof.
  induction attrs as [| p attrs IH]; simpl; [done |].
  destruct (foundAttribute others p) as [q |] eqn:Hq; simpl.
  - unfold foundAttribute in Hq. destruct (valuesLength p.2); [| done].
    destruct (inAllGeometries _ _ _ _) as [[n |] |]; [| done | done]. injection Hq as <-.
    simpl. rewrite !elem_of_cons. intros [? | ?]; [by left | right; by apply IH].
  - rewrite elem_of_cons. intros ?. right. by apply IH.
Qed.

Lemma findAttributes_closed (attrs : list (string * GeometryAttribute)) others found :
  NoDup attrs.*1 →
  foldM (λ attributesInAllGeometries p,
           numberOfComponents ← valuesLength p.2;
           found ← inAllGeometries p.1 p.2 numberOfComponents others;
           match found with
           | Some n =>
               Return (setAttribute p.1
                         (mkGeometryAttribute (componentDatatype p.2) (componentsPerAttribute p.2)
                            (normalize p.2)
                            (Some (createTypedArray (componentDatatype p.2) n)))
                         attributesInAllGeometries)
           | None => Return attributesInAllGeometries
           end)
        [] attrs = Return found →
  found = omap (foundAttribute others) attrs
  ∧ Forall (λ p, ∃ n0 r, valuesLength p.2 = Return n0
                         ∧ inAllGeometries p.1 p.2 n0 others = Return r) attrs.
Proof.
  revert found. induction attrs as [| p attrs IH] using rev_ind; intros found Hnodup.
  - simpl. by intros [= <-].
  - rewrite fmap_app in Hnodup. apply NoDup_app in Hnodup as (Hnodup & Hfresh & _).
    rewrite foldM_app. destruct (foldM _ [] attrs) as [found0 |] eqn:Hfound0; [| done].
    destruct (IH found0 Hnodup eq_refl) as [-> Hall]. cbn [JS.bind foldM].
    unfold mbind, result_bind.
    destruct (valuesLength p.2) as [n0 |] eqn:Hn0; [| done]. cbn [JS.bind].
    destruct (inAllGeometries p.1 p.2 n0 others) as [r |] eqn:Hr; [| done]. cbn [JS.bind].
    rewrite omap_app.
    assert (Hlast : omap (foundAttribute others) [p]
                    = match r with
                      | Some n =>
                          [(p.1, mkGeometryAttribute (componentDatatype p.2)
                                   (componentsPerAttribute p.2) (normalize p.2)
                                   (Some (createTypedArray (componentDatatype p.2) n)))]
                      | None => []
                      end).
    { simpl. unfold foundAttribute. rewrite Hn0, Hr. by destruct r. }
    rewrite Hlast.
    assert (Hp : p.1 ∉ (omap (foundAttribute others) attrs).*1).
    { intros Hin%omap_names. apply (Hfresh p.1 Hin). by apply list_elem_of_singleton. }
    destruct r as [n |].
    + intros [= <-]. split.
      * by apply setAttribute_names_new.
      * apply Forall_app. split; [done |]. apply Forall_singleton. eauto.
    + intros [= <-]. split.
      * by rewrite app_nil_r.
      * apply Forall_app. split; [done |]. apply Forall_singleton. eauto.
Qed.

End CombineAttributes.

Section CombineValues.
Context `{Imports}.
Implicit Types (instances others : list GeometryInstance) (name : string).

Lemma combineValues_from name datatype instances (vss : list (list (option float)))
    (pre post : list (option float)) :
  Forall2 (valuesIn name) instances vss →
  foldM (λ acc instance,
           match lookupAttribute name (attributes (geometry instance)) with
           | Some source =>
               match values source with
               | Some sourceValues => Return (copyValues datatype sourceValues acc)
               | None => Throw TypeError
               end
           | None => Throw TypeError
           end)
        (pre ++ replicate (length (concat vss)) (typedArrayInitial datatype) ++ post, len pre)
        instances
  = Return (pre ++ (typedArrayStore datatype <$> concat vss) ++ post,
            len pre + len (concat vss)).
Proof.
  intros Hvss. revert pre. induction Hvss as [| instance vs instances vss (a & Ha & Hvs) _ IH];
    intros pre.
  - simpl. do 2 f_equal. unfold len. simpl. lia.
  - cbn [foldM]. rewrite Ha, Hvs. cbn [JS.bind concat].
    rewrite length_app, replicate_add, <- app_assoc.
    rewrite (copyValues_spec datatype vs pre) by (done || by rewrite length_replicate).
    specialize (IH (pre ++ (typedArrayStore datatype <$> vs))).
    rewrite <- app_assoc in IH.
    replace (len (pre ++ (typedArrayStore datatype <$> vs))) with (len pre + len vs) in IH
      by (unfold len; rewrite length_app, length_fmap; lia).
    rewrite IH. rewrite fmap_app, <- !app_assoc. do 2 f_equal.
    unfold len. rewrite !length_app. lia.
Qed.

Lemma combineValues_all name (a : GeometryAttribute) instances vss :
  Forall2 (valuesIn name) instances vss →
  values a = Some (createTypedArray (componentDatatype a) (len (concat vss))) →
  combineValues name a instances
  = Return (withValues a (Some (typedArrayStore (componentDatatype a) <$> concat vss))).
Proof.
  intros Hvss Ha. unfold combineValues. rewrite Ha. unfold createTypedArray, len.
  rewrite Nat2Z.id.
  pose proof (combineValues_from name (componentDatatype a) instances vss [] [] Hvss) as Hfold.
  rewrite !app_nil_r in Hfold. simpl in Hfold. change (len []) with 0 in Hfold.
  rewrite Hfold. unfold mbind, result_bind. cbn [JS.bind fst]. done.
Qed.

End CombineValues.

Section CombineInversion.
Context `{Imports}.
Implicit Types (instances others : list GeometryInstance) (name : string).

Lemma combine_inv instance0 others g :
  others ≠ [] → combine (instance0 :: others) = Return g →
  forallb (λ instance, Matrix4_equals (modelMatrix instance) (modelMatrix instance0)) others
  = true
  ∧ ∃ found combined lists,
      findAttributesInAllGeometries instance0 others = Return found
      ∧ foldM (λ attrs p,
                 a ← combineValues p.1 p.2 (instance0 :: others);
                 Return (attrs ++ [(p.1, a)]))
              [] found = Return combined
      ∧ combinedIndexLists (instance0 :: others) = Return lists
      ∧ g = mkGeometry combined (head lists) (primitiveType (geometry instance0))
                       (combineBoundingSpheres None (instance0 :: others)).
Proof.
  intros Hothers. unfold combine. destruct others as [| instance1 others]; [done |].
  cbv beta iota. destruct (forallb _ _); [| done].
  unfold mbind, result_bind.
  destruct (findAttributesInAllGeometries _ _) as [found |] eqn:Hfound; [| done].
  cbn [JS.bind].
  destruct (foldM _ [] found) as [combined |] eqn:Hcombined; [| done]. cbn [JS.bind].
  destruct (combinedIndexLists _) as [lists |] eqn:Hlists; [| done]. cbn [JS.bind].
  intros [= <-]. split; [done |]. by exists found, combined, lists.
Qed.

Lemma combined_closed instances (found acc combined : list (string * GeometryAttribute)) :
  foldM (λ attrs p,
           a ← combineValues p.1 p.2 instances;
           Return (attrs ++ [(p.1, a)]))
        acc found = Return combined →
  ∃ new, combined = acc ++ new
         ∧ Forall2 (λ p q, q.1 = p.1 ∧ combineValues p.1 p.2 instances = Return q.2) found new.
Proof.
  revert acc. induction found as [| p found IH]; intros acc; simpl.
  - intros [= <-]. exists []. by rewrite app_nil_r.
  - unfold mbind, result_bind.
    destruct (combineValues p.1 p.2 instances) as [a |] eqn:Ha; [| done]. cbn [JS.bind].
    intros (new & -> & Hnew)%IH. exists ((p.1, a) :: new). split.
    + by rewrite <- app_assoc.
    + by constructor.
Qed.

Lemma omap_names_sublist (others : list GeometryInstance)
    (attrs : list (string * GeometryAttribute)) :
  (omap (foundAttribute others) attrs).*1 `sublist_of` attrs.*1.
Proof.
  induction attrs as [| p attrs IH]; simpl; [done |].
  destruct (foundAttribute others p) as [q |] eqn:Hq; simpl.
  - unfold foundAttribute in Hq. destruct (valuesLength p.2); [| done].
    destruct (inAllGeometries _ _ _ _) as [[n |] |]; [| done | done]. injection Hq as <-.
    simpl. by apply sublist_skip.
  - by apply sublist_cons.
Qed.

Lemma Forall2_names (P : string * GeometryAttribute → string * GeometryAttribute → Prop)
    (found new : list (string * GeometryAttribute)) :
  Forall2 (λ p q, q.1 = p.1 ∧ P p q) found new → new.*1 = found.*1.
Proof.
  induction 1 as [| p q found new [Hq _] _ IH]; [done |].
  rewrite !fmap_cons. by rewrite Hq, IH.
Qed.

(** The attributes of the combined geometry. *)
Lemma combine_attributes instance0 others g :
  others ≠ [] → NoDup (attributes (geometry instance0)).*1 →
  combine (instance0 :: others) = Return g →
  (∀ name a, lookupAttribute name (attributes g) = Some a →
     ∃ a0 vss, lookupAttribute name (attributes (geometry instance0)) = Some a0
       ∧ sameDescription a0 a
       ∧ Forall (inInstance name a0) others
       ∧ Forall2 (valuesIn name) (instance0 :: others) vss
       ∧ values a = Some (typedArrayStore (componentDatatype a) <$> concat vss))
  ∧ (∀ name a0, lookupAttribute name (attributes (geometry instance0)) = Some a0 →
       Forall (inInstance name a0) others → is_Some (lookupAttribute name (attributes g)))
  ∧ (attributes g).*1 `sublist_of` (attributes (geometry instance0)).*1.
Proof.
  intros Hothers Hnodup (_ & found & combined & lists & Hfound & Hcombined & _ & ->)%combine_inv;
    [| done].
  unfold findAttributesInAllGeometries in Hfound.
  apply findAttributes_closed in Hfound as [-> Hreturned]; [| done].
  apply combined_closed in Hcombined as (new & -> & Hnew). simpl in Hnew |- *.
  assert (Hnames : new.*1 = (omap (foundAttribute others) (attributes (geometry instance0))).*1).
  { eapply Forall2_names, Hnew. }
  split_and!.
  - intros name a Ha%lookupAttribute_elem_of.
    apply list_elem_of_lookup in Ha as [k Hk].
    destruct (Forall2_lookup_r _ _ _ _ _ Hnew Hk) as (p & Hp & Hname & Hvalues).
    simpl in Hname, Hvalues. apply list_elem_of_lookup_2, list_elem_of_omap in Hp
      as ([name0 a0] & Hin & Hp).
    unfold foundAttribute in Hp. simpl in Hp. unfold valuesLength in Hp.
    destruct (values a0) as [vs0 |] eqn:Hvs0; [| done].
    destruct (inAllGeometries name0 a0 (len vs0) others) as [[n |] |] eqn:Hn; [| done | done].
    injection Hp as <-. simpl in Hname, Hvalues. subst name0.
    apply inAllGeometries_Some in Hn as (Hall & vss & Hvss & ->).
    pose proof (lookupAttribute_NoDup _ _ _ Hnodup Hin) as Hlookup.
    exists a0, (vs0 :: vss).
    assert (Hvss' : Forall2 (valuesIn name) (instance0 :: others) (vs0 :: vss)).
    { constructor; [| done]. by exists a0. }
    rewrite (combineValues_all name _ _ (vs0 :: vss) Hvss') in Hvalues.
    + injection Hvalues as <-. by split_and!.
    + simpl. do 3 f_equal. unfold len. simpl. rewrite length_app. lia.
  - intros name a0 Ha0%lookupAttribute_elem_of Hall.
    rewrite Forall_forall in Hreturned.
    destruct (Hreturned _ Ha0) as (n0 & r & Hn0 & Hr). simpl in Hn0, Hr.
    destruct r as [n |]; [| by apply inAllGeometries_None in Hr].
    apply lookupAttribute_is_Some. rewrite Hnames.
    apply list_elem_of_fmap. eexists (name, _). split; [done |].
    apply list_elem_of_omap. exists (name, a0). split; [done |].
    unfold foundAttribute. simpl. by rewrite Hn0, Hr.
  - rewrite Hnames. apply omap_names_sublist.
Qed.

End CombineInversion.

Section IntegralNumbers.

Lemma integral_ofZ (z : Z) : integral (Number.ofZ z) z.
Proof. eexists. split; [done |]. simpl. lia. Qed.

Lemma integral_add (a b : Number.number) (z w : Z) :
  integral a z → integral b w → integral (Number.add a b) (z + w).
Proof.
  intros (p & -> & Hp) (q & -> & Hq). eexists. split; [done |].
  unfold Qplus. cbn [Qnum Qden]. rewrite Hp, Hq. lia.
Qed.

Lemma integral_divide (c : nat) (n : Z) :
  c ≠ 0%nat → integral (Number.divide (Z.of_nat c * n) c) n.
Proof.
  intros Hc. destruct c as [| c]; [done |]. eexists. split; [done |].
  cbn [Qnum Qden]. set (p := Pos.of_nat (S c)).
  assert (Hp : Z.pos p = Z.of_nat (S c)) by (unfold p; lia). rewrite Hp. lia.
Qed.

Lemma toUint_integral (bits : Z) (a : Number.number) (z : Z) :
  integral a z → Number.toUint bits a = z `mod` 2 ^ bits.
Proof.
  intros (q & -> & Hq). unfold Number.toUint. rewrite Hq. by rewrite Z.quot_mul by lia.
Qed.

End IntegralNumbers.

Section CombineIndexLists.
Context `{Imports}.
Implicit Types (instances : list GeometryInstance) (parts : list (Z * list Z)).

Lemma len_parts_cons (k : Z) (l : list Z) parts :
  len (concat ((k, l) :: parts).*2) = len l + len (concat parts.*2).
Proof. rewrite fmap_cons. cbn [snd concat]. unfold len. rewrite length_app. lia. Qed.

Lemma len_fmap {A B : Type} (f : A → B) (l : list A) : len (f <$> l) = len l.
Proof. unfold len. by rewrite length_fmap. Qed.

Lemma len_app {A : Type} (l k : list A) : len (l ++ k) = len l + len k.
Proof. unfold len. rewrite length_app. lia. Qed.

Lemma len_shifted bits offset parts : len (shifted bits offset parts) = len (concat parts.*2).
Proof.
  revert offset. induction parts as [| [n l] parts IH]; intros offset; [done |].
  cbn [shifted]. rewrite fmap_cons. cbn [snd concat]. specialize (IH (offset + n)).
  unfold len in *. rewrite !length_app, length_fmap. lia.
Qed.

Lemma countIndices_from type0 instances parts (n : Z) :
  Forall2 indexedPart instances parts →
  foldM (λ numberOfIndices instance,
           match indexList (geometry instance) with
           | None => Throw TypeError
           | Some indices =>
               Return (setType type0
                         (match lookupType type0 numberOfIndices with
                          | Some n => n + len indices
                          | None => len indices
                          end)
                         numberOfIndices)
           end)
        [(type0, n)] instances
  = Return [(type0, n + len (concat parts.*2))].
Proof.
  intros Hparts. revert n.
  induction Hparts as [| instance [k l] instances parts [Hl _] _ IH]; intros n.
  - simpl. do 3 f_equal. unfold len. simpl. lia.
  - cbn [foldM]. simpl in Hl. rewrite Hl. cbn [JS.bind lookupType setType].
    rewrite !decide_True by done. rewrite IH. do 3 f_equal.
    rewrite len_parts_cons, len_fmap. lia.
Qed.

Lemma countIndices_all type0 instances parts :
  instances ≠ [] → Forall2 indexedPart instances parts →
  countIndices type0 instances = Return [(type0, len (concat parts.*2))].
Proof.
  intros Hne Hparts. unfold countIndices.
  destruct Hparts as [| instance [k l] instances parts [Hl _] Hparts]; [done |].
  cbn [foldM]. simpl in Hl. rewrite Hl. cbn [JS.bind lookupType setType].
  rewrite (countIndices_from type0 instances parts _ Hparts). do 3 f_equal.
  unfold undefined. rewrite len_parts_cons, len_fmap. lia.
Qed.

Lemma combineIndices_from type0 instances parts bits (pre : list (option Z))
    (offset : Number.number) (z : Z) :
  Forall2 indexedPart instances parts → integral offset z →
  ∃ offset',
    foldM (λ '(buckets, offset) instance,
             match indexList (geometry instance), lookupType type0 buckets with
             | Some sourceValues, Some b =>
                 let buckets' := setType type0 (copyIndices offset sourceValues b) buckets in
                 count ← firstAttributeVertexCount (attributes (geometry instance));
                 Return (buckets', default offset (Number.add offset <$> count))
             | _, _ => Throw TypeError
             end)
          ([(type0, mkIndexBucket bits
                      (pre ++ replicate (length (concat parts.*2)) (Some 0)) (len pre))],
           offset)
          instances
    = Return ([(type0, mkIndexBucket bits (pre ++ (Some <$> shifted bits z parts))
                                     (len pre + len (concat parts.*2)))],
              offset').
Proof.
  intros Hparts.
  match goal with |- context [foldM ?f _ _] => set (step := f) end.
  revert pre offset z.
  induction Hparts as [| instance [k l] instances parts [Hl Hfirst] _ IH];
    intros pre offset z Hoffset.
  - exists offset. simpl. rewrite !app_nil_r. do 5 f_equal.
    unfold len. simpl. lia.
  - destruct Hfirst as (name & a & vs & rest & Hattrs & Hvs & Hc & Hlen).
    simpl in Hl, Hlen.
    assert (Hoffset' : integral (Number.add offset
                                   (Number.divide (Z.of_nat (componentsPerAttribute a) * k)
                                                  (componentsPerAttribute a))) (z + k))
      by (apply integral_add; [done | by apply integral_divide]).
    assert (Hstep :
      step ([(type0, mkIndexBucket bits
                       (pre ++ replicate (length (concat ((k, l) :: parts).*2)) (Some 0))
                       (len pre))], offset) instance
      = Return ([(type0, mkIndexBucket bits
                           ((pre ++ ((λ i, Some ((z + i) `mod` 2 ^ bits)) <$> l))
                              ++ replicate (length (concat parts.*2)) (Some 0))
                           (len (pre ++ ((λ i, Some ((z + i) `mod` 2 ^ bits)) <$> l))))],
                Number.add offset
                  (Number.divide (Z.of_nat (componentsPerAttribute a) * k)
                                 (componentsPerAttribute a)))).
    { unfold step. rewrite Hl. cbn [lookupType].
      rewrite decide_True by done. cbv zeta. cbn [setType]. rewrite decide_True by done.
      rewrite Hattrs. unfold firstAttributeVertexCount, valuesLength. rewrite Hvs.
      unfold mbind, result_bind. cbn [JS.bind fmap option_fmap option_map default].
      rewrite fmap_cons. cbn [concat snd]. rewrite length_app, replicate_add.
      rewrite (copyIndices_spec offset (Some <$> l) pre)
        by (done || by rewrite length_replicate, length_fmap).
      rewrite Hlen. unfold id.
      assert (Hstored : (λ v, Some (Number.toUint bits (Number.addValue offset v)))
                          <$> (Some <$> l)
                        = (λ i, Some ((z + i) `mod` 2 ^ bits)) <$> l).
      { rewrite <- list_fmap_compose. apply list_fmap_ext. intros n i _. simpl. f_equal.
        apply toUint_integral. unfold Number.addValue.
        apply integral_add; [done | apply integral_ofZ]. }
      rewrite Hstored, len_app, !len_fmap, <- app_assoc. done. }
    cbn [foldM]. rewrite Hstep. cbn [JS.bind].
    destruct (IH (pre ++ ((λ i, Some ((z + i) `mod` 2 ^ bits)) <$> l)) _ _ Hoffset')
      as (offset' & Hfold).
    exists offset'. rewrite Hfold. cbn [shifted].
    rewrite fmap_app, <- list_fmap_compose, <- app_assoc.
    rewrite len_parts_cons, len_app, len_fmap. do 5 f_equal. lia.
Qed.

Lemma combinedIndexLists_all instances parts :
  instances ≠ [] → Forall2 indexedPart instances parts →
  combinedIndexLists instances
  = Return [Some <$> shifted (if decide (len (concat parts.*2) < 60 * 1024) then 16 else 32)
                             0 parts].
Proof.
  intros Hne Hparts. unfold combinedIndexLists.
  destruct instances as [| instance0 instances]; [done |].
  rewrite (countIndices_all _ _ parts) by done.
  unfold mbind, result_bind. cbn [JS.bind]. unfold allocateIndexLists.
  cbn [foldl fst snd setType app].
  set (bits := if decide (len (concat parts.*2) < 60 * 1024) then 16 else 32).
  unfold combineIndices.
  destruct (combineIndices_from (primitiveType (geometry instance0)) _ parts bits []
              (Number.ofZ 0) 0 Hparts (integral_ofZ 0)) as (offset' & Hfold).
  cbn [app] in Hfold. change (len (@nil (option Z))) with 0 in Hfold.
  rewrite Z.add_0_l in Hfold.
  unfold len. rewrite Nat2Z.id. rewrite Hfold. unfold mbind, result_bind.
  cbn [JS.bind fst omap list_omap].
  cbn [lookupType]. rewrite decide_True by done. done.
Qed.

End CombineIndexLists.

Section CombineBoundingSpheres.
Context `{Imports}.
Implicit Types (instances : list GeometryInstance) (spheres : list BoundingSphere).




End CombineBoundingSpheres.

Section CombineErrors.
Context `{Imports}.
Implicit Types (instances others : list GeometryInstance) (name : string).

Lemma forallb_true {B : Type} (f : B → bool) (l : list B) :
  forallb f l = true ↔ Forall (λ x, f x = true) l.
Proof.
  induction l as [| x l IH]; simpl; [by split |].
  rewrite Forall_cons, andb_true_iff, IH. done.
Qed.

Lemma foldM_throws {S B : Type} (f : S → B → result S) (only : Error → Prop) (l : list B) :
  (∀ s x e, f s x = Throw e → only e) → ∀ s e, foldM f s l = Throw e → only e.
Proof.
  intros Hf. induction l as [| x l IH]; intros s e; simpl; [done |].
  destruct (f s x) as [s' |] eqn:Hfx; simpl; [apply IH |]. intros [= <-]. by eapply Hf.
Qed.

Lemma inAllGeometries_throws name (a : GeometryAttribute) n others e :
  inAllGeometries name a n others = Throw e → e = TypeError.
Proof.
  revert n. induction others as [| instance others IH]; intros n; simpl; [done |].
  destruct (lookupAttribute name (attributes (geometry instance))) as [a' |]; [| done].
  case_decide; [done |]. unfold valuesLength. destruct (values a'); simpl.
  - apply IH.
  - by intros [= <-].
Qed.

Lemma findAttributes_throws instance0 others e :
  findAttributesInAllGeometries instance0 others = Throw e → e = TypeError.
Proof.
  unfold findAttributesInAllGeometries. apply (foldM_throws _ (λ e, e = TypeError)).
  intros found p e'.
  unfold mbind, result_bind, valuesLength. destruct (values p.2); simpl.
  - destruct (inAllGeometries _ _ _ _) as [[n |] |] eqn:Hin; simpl; [done | done |].
    intros [= <-]. by eapply inAllGeometries_throws.
  - by intros [= <-].
Qed.

Lemma combineValues_throws name (a : GeometryAttribute) instances e :
  combineValues name a instances = Throw e → e = TypeError.
Proof.
  unfold combineValues. destruct (values a); [| by intros [= <-]].
  unfold mbind, result_bind. destruct (foldM _ _ instances) as [r |] eqn:Hfold; [done |].
  simpl. intros [= <-]. revert Hfold. apply (foldM_throws _ (λ e, e = TypeError)).
  intros acc instance e'.
  destruct (lookupAttribute _ _) as [source |]; [| by intros [= <-]].
  destruct (values source); [done | by intros [= <-]].
Qed.

Lemma countIndices_missing type0 instances :
  Exists (λ instance, indexList (geometry instance) = None) instances →
  countIndices type0 instances = Throw TypeError.
Proof.
  unfold countIndices. generalize (@nil (PrimitiveType * Z)).
  intros acc Hmissing. revert acc.
  induction Hmissing as [instance instances Hnone | instance instances _ IH]; intros acc;
    simpl.
  - by rewrite Hnone.
  - destruct (indexList (geometry instance)); [apply IH | done].
Qed.

End CombineErrors.

(** X12: the geometry that [combine] returns for two or more instances has
    exactly the attributes of the first instance that every other instance
    has too, with the same datatype, component count and normalization flag;
    each carries that description, and they come in the order of the first
    instance. *)
Theorem combine_shared_attributes `{Imports} (instance0 : GeometryInstance)
    (others : list GeometryInstance) (g : Geometry) :
  others ≠ [] → NoDup (attributes (geometry instance0)).*1 →
  combine (instance0 :: others) = Return g →
  (∀ name, is_Some (lookupAttribute name (attributes g))
           ↔ ∃ a0, lookupAttribute name (attributes (geometry instance0)) = Some a0
                   ∧ Forall (inInstance name a0) others)
  ∧ (∀ name a, lookupAttribute name (attributes g) = Some a →
       ∃ a0, lookupAttribute name (attributes (geometry instance0)) = Some a0
             ∧ sameDescription a0 a)
  ∧ (attributes g).*1 `sublist_of` (attributes (geometry instance0)).*1.
Proof.
  intros Hothers Hnodup Hg.
  destruct (combine_attributes instance0 others g Hothers Hnodup Hg) as (Hin & Hall & Hsub).
  split_and!; [| | done].
  - intros name. split.
    + intros [a Ha]. destruct (Hin name a Ha) as (a0 & vss & ? & ? & ? & _). eauto.
    + intros (a0 & Ha0 & Hshared). by eapply Hall.
  - intros name a Ha. destruct (Hin name a Ha) as (a0 & vss & ? & ? & _). eauto.
Qed.

Lemma combine_shared_attributes_witness :
  ∃ a0, lookupAttribute "position" (attributes Example.triangle) = Some a0
        ∧ Forall (inInstance "position" a0) [mkGeometryInstance Example.square []].
Proof.
  apply (proj1 (combine_shared_attributes (mkGeometryInstance Example.triangle [])
                  [mkGeometryInstance Example.square []] _ ltac:(done)
                  ltac:(apply NoDup_singleton) eq_refl)).
  eexists. reflexivity.
Defined.

(** X13: every attribute of the geometry that [combine] returns holds the
    values of that attribute of all the instances, in the order of the
    instances, as stored in a typed array of the attribute's datatype. *)
Theorem combine_concatenates_values `{Imports} (instance0 : GeometryInstance)
    (others : list GeometryInstance) (g : Geometry) (name : string) (a : GeometryAttribute) :
  others ≠ [] → NoDup (attributes (geometry instance0)).*1 →
  combine (instance0 :: others) = Return g →
  lookupAttribute name (attributes g) = Some a →
  ∃ vss, Forall2 (valuesIn name) (instance0 :: others) vss
         ∧ values a = Some (typedArrayStore (componentDatatype a) <$> concat vss).
Proof.
  intros Hothers Hnodup Hg Ha.
  destruct (combine_attributes instance0 others g Hothers Hnodup Hg) as (Hin & _).
  destruct (Hin name a Ha) as (a0 & vss & _ & _ & _ & ? & ?). eauto.
Qed.

(** X14: when every instance has an index list of numbers and a first
    attribute that fixes its number of vertices, the index list that
    [combine] returns is the index lists of the instances one after the
    other, each index raised by the number of vertices of the instances
    before it. The indices are stored in 16 bits when there are fewer than
    61440 of them in all and in 32 bits otherwise, so a raised index wraps
    around modulo 2^16 or 2^32. *)
Theorem combine_offsets_indices `{Imports} (instances : list GeometryInstance)
    (parts : list (Z * list Z)) (g : Geometry) :
  (2 ≤ length instances)%nat →
  Forall2 indexedPart instances parts →
  combine instances = Return g →
  indexList g
  = Some (Some <$> shifted (if decide (len (concat parts.*2) < 61440) then 16 else 32)
                           0 parts).
Proof.
  intros Hlen Hparts Hg. destruct instances as [| instance0 others]; [simpl in Hlen; lia |].
  assert (Hothers : others ≠ []) by (destruct others; [simpl in Hlen; lia | done]).
  apply combine_inv in Hg as (_ & found & combined & lists & _ & _ & Hlists & ->); [| done].
  rewrite (combinedIndexLists_all _ parts) in Hlists by done. by injection Hlists as <-.
Qed.


(** X16: [combine] needs an index list in every instance. With two or more
    instances of one model matrix, an instance without index list makes the
    call throw a [TypeError] (the read of [indexList.length]), whatever the
    attributes are. *)
Theorem combine_requires_index_lists `{Imports} (instance0 : GeometryInstance)
    (others : list GeometryInstance) :
  others ≠ [] →
  Forall (λ instance, Matrix4_equals (modelMatrix instance) (modelMatrix instance0) = true)
         others →
  Exists (λ instance, indexList (geometry instance) = None) (instance0 :: others) →
  combine (instance0 :: others) = Throw TypeError.
Proof.
  intros Hothers Hmatrices Hmissing. unfold combine.
  destruct others as [| instance1 others]; [done |]. cbv beta iota.
  assert (Hforallb : forallb (λ instance, Matrix4_equals (modelMatrix instance)
                                            (modelMatrix instance0))
                             (instance1 :: others) = true).
  { by apply forallb_true. }
  rewrite Hforallb. unfold mbind, result_bind.
  destruct (findAttributesInAllGeometries _ _) as [found |] eqn:Hfound; cbn [JS.bind].
  - destruct (foldM _ [] found) as [combined |] eqn:Hcombined; cbn [JS.bind].
    + unfold combinedIndexLists. by rewrite countIndices_missing.
    + f_equal. revert Hcombined. apply (foldM_throws _ (λ e, e = TypeError)).
      intros attrs p e'.
      destruct (combineValues p.1 p.2 _) eqn:Hvalues; simpl; [done |].
      intros [= <-]. by eapply combineValues_throws.
  - f_equal. by eapply findAttributes_throws.
Qed.

(** X17: the input checks of [combine]. An empty array of instances throws
    a [DeveloperError]; a single instance gives back its own geometry, with no
    check and no copy; and an instance whose model matrix differs from that
    of the first throws a [DeveloperError], whatever the geometries are. *)
Theorem combine_input_checks `{Imports} :
  combine []
  = Throw (DeveloperError "instances is required and must have length greater than zero.")
  ∧ (∀ instance, combine [instance] = Return (geometry instance))
  ∧ (∀ instance0 others,
       Exists (λ instance, Matrix4_equals (modelMatrix instance) (modelMatrix instance0) = false)
              others →
       combine (instance0 :: others)
       = Throw (DeveloperError "All instances must have the same modelMatrix.")).
Proof.
  split_and!; [done | done |].
  intros instance0 others Hdiffers. unfold combine.
  destruct others as [| instance1 others]; [by apply Exists_nil in Hdiffers |].
  cbv beta iota.
  assert (Hforallb : forallb (λ instance, Matrix4_equals (modelMatrix instance)
                                            (modelMatrix instance0))
                             (instance1 :: others) = false).
  { apply not_true_is_false. intros Hall%forallb_true. rewrite Forall_forall in Hall.
    apply Exists_exists in Hdiffers as (instance & Hin & Hfalse).
    specialize (Hall instance Hin). congruence. }
  by rewrite Hforallb.
Qed.

(** ** computeNormal: indices that name no vertex, and what is left alone *)

Section NormalErrors.
Context `{Imports}.
Variable vertices : list (option float).
Variable indices : list (option Z).

Lemma getObject_Return {A : Type} (a : list (option A)) (k : option Z) (o : A) :
  getObject a k = Return o → validIndex (len a) k.
Proof.
  unfold getObject. destruct (get a k) as [o' |] eqn:Hget; [| done]. intros _.
  destruct k as [i |]; [| done]. exists i. split; [done |].
  destruct (decide (0 ≤ i < len a)) as [| Hout]; [done |]. exfalso.
  destruct (decide (i < 0)); [by rewrite get_negative in Hget |].
  by rewrite get_outside in Hget by lia.
Qed.

Lemma updateObject_Return {A : Type} (a a' : list (option A)) (k : option Z) (f : A → A) :
  updateObject a k f = Return a' → validIndex (len a) k ∧ len a' = len a.
Proof.
  unfold updateObject, mbind, result_bind.
  destruct (getObject a k) as [o |] eqn:Ho; [| done]. cbn [JS.bind]. intros [= <-].
  pose proof (getObject_Return _ _ _ Ho) as Hk. split; [done |].
  destruct Hk as (i & -> & Hi). simpl. rewrite len_set by lia. lia.
Qed.

Lemma updateObject_throws {A : Type} (a : list (option A)) (k : option Z) (f : A → A) e :
  updateObject a k f = Throw e → e = TypeError.
Proof.
  unfold updateObject, getObject, mbind, result_bind. destruct (get a k); [done |].
  by intros [= <-].
Qed.

Lemma faceStep_Return s j s' :
  faceStep vertices indices s j = Return s' →
  len s'.1 = len s.1
  ∧ ∀ c, 0 ≤ c < 3 → validIndex (len s.1) (get indices (Some (3 * j + c))).
Proof.
  unfold faceStep, mbind, result_bind. cbv zeta.
  destruct (updateObject s.1 _ _) as [n0 |] eqn:H0; [| done]. cbn [JS.bind].
  destruct (updateObject n0 _ _) as [n1 |] eqn:H1; [| done]. cbn [JS.bind].
  destruct (updateObject n1 _ _) as [n2 |] eqn:H2; [| done]. cbn [JS.bind].
  intros [= <-]. cbn [fst].
  apply updateObject_Return in H0 as [Hv0 Hl0], H1 as [Hv1 Hl1], H2 as [Hv2 Hl2].
  split; [congruence |]. intros c Hc.
  assert (c = 0 ∨ c = 1 ∨ c = 2) as [-> | [-> | ->]] by lia.
  - by rewrite Z.add_0_r.
  - by rewrite <- Hl0.
  - by rewrite <- Hl0, <- Hl1.
Qed.

Lemma faceStep_throws s j e : faceStep vertices indices s j = Throw e → e = TypeError.
Proof.
  unfold faceStep, mbind, result_bind. cbv zeta.
  destruct (updateObject s.1 _ _) as [n0 |] eqn:H0; cbn [JS.bind];
    [| intros [= <-]; by eapply updateObject_throws].
  destruct (updateObject n0 _ _) as [n1 |] eqn:H1; cbn [JS.bind];
    [| intros [= <-]; by eapply updateObject_throws].
  destruct (updateObject n1 _ _) as [n2 |] eqn:H2; cbn [JS.bind];
    [done | intros [= <-]; by eapply updateObject_throws].
Qed.

Lemma faceLoop_Return (m : nat) s0 s :
  foldM (faceStep vertices indices) s0 (range 0 (Z.of_nat m)) = Return s →
  len s.1 = len s0.1
  ∧ ∀ p, 0 ≤ p < 3 * Z.of_nat m → validIndex (len s0.1) (get indices (Some p)).
Proof.
  revert s. induction m as [| m IH]; intros s.
  - simpl. intros [= <-]. split; [done |]. intros p Hp. lia.
  - replace (Z.of_nat (S m)) with (Z.of_nat m + 1) by lia.
    rewrite range_snoc, foldM_app by lia.
    destruct (foldM _ s0 (range 0 (Z.of_nat m))) as [s1 |]; [| done]. cbn [JS.bind foldM].
    destruct (IH s1 eq_refl) as [Hlen Hvalid].
    destruct (faceStep vertices indices s1 (Z.of_nat m)) as [s2 |] eqn:Hstep; [| done].
    cbn [JS.bind]. intros [= <-]. apply faceStep_Return in Hstep as [Hlen2 Hvalid2].
    split; [congruence |]. intros p Hp.
    destruct (decide (p < 3 * Z.of_nat m)) as [| Hge]; [apply Hvalid; lia |].
    rewrite <- Hlen. replace p with (3 * Z.of_nat m + (p - 3 * Z.of_nat m)) by lia.
    apply Hvalid2. lia.
Qed.

Lemma computeNormals_invalid_index normalValues :
  len indices `mod` 3 = 0 →
  Exists (λ v, ¬ validIndex (len vertices `div` 3) v) indices →
  computeNormals vertices indices normalValues = Throw TypeError.
Proof.
  intros Hmod Hbad. unfold computeNormals. cbv zeta.
  set (N := len vertices `div` 3).
  assert (HN : 0 ≤ N) by (apply Z.div_pos; unfold len; lia).
  set (m := len indices `div` 3).
  assert (Hm : 0 ≤ m) by (apply Z.div_pos; unfold len; lia).
  assert (H3m : len indices = 3 * m).
  { unfold m. pose proof (Z.div_mod (len indices) 3 ltac:(lia)). lia. }
  destruct (foldM (faceStep vertices indices) _ (range 0 m)) as [s1 |] eqn:Hloop.
  - exfalso. rewrite <- (Z2Nat.id m) in Hloop by done.
    apply faceLoop_Return in Hloop as [_ Hvalid]. cbn [fst] in Hvalid.
    rewrite len_replicate in Hvalid by done.
    apply Exists_exists in Hbad as (v & Hin & Hv). apply Hv.
    apply elem_of_get in Hin as (p & Hp & <-). apply Hvalid. lia.
  - unfold mbind, result_bind. cbn [JS.bind]. f_equal. revert Hloop.
    apply (foldM_throws _ (λ e, e = TypeError)). intros s j e'. apply faceStep_throws.
Qed.

End NormalErrors.

Section NormalLengths.
Context `{Imports}.

Lemma normalStep_len npv npt ni vs0 (i : Z) r :
  0 ≤ i → normalStep npv npt ni (Some vs0) i = Return r →
  ∃ vs, r = Some vs ∧ len vs = Z.max (len vs0) (i * 3 + 3).
Proof.
  intros Hi. unfold normalStep, mbind, result_bind. cbv zeta.
  destruct (getObject npv (Some i)) as [d |]; [| done]. cbn [JS.bind].
  destruct (vertexNormal npt ni d) as [normal |]; [| done]. cbn [JS.bind].
  intros [= <-]. eexists. split; [done |]. rewrite !len_set by lia. lia.
Qed.

Lemma normalLoop_len npv npt ni vs0 (n : nat) r :
  foldM (normalStep npv npt ni) (Some vs0) (range 0 (Z.of_nat n)) = Return r →
  ∃ vs, r = Some vs ∧ len vs = Z.max (len vs0) (Z.of_nat n * 3).
Proof.
  revert r. induction n as [| n IH]; intros r.
  - simpl. intros [= <-]. exists vs0. split; [done |]. unfold len. lia.
  - replace (Z.of_nat (S n)) with (Z.of_nat n + 1) by lia.
    rewrite range_snoc, foldM_app by lia.
    destruct (foldM _ (Some vs0) (range 0 (Z.of_nat n))) as [r1 |]; [| done].
    destruct (IH r1 eq_refl) as (vs1 & -> & Hlen1). cbn [JS.bind foldM].
    destruct (normalStep npv npt ni (Some vs1) (Z.of_nat n)) as [r2 |] eqn:Hstep; [| done].
    cbn [JS.bind]. intros [= <-].
    apply normalStep_len in Hstep as (vs & -> & Hlen); [| lia].
    exists vs. split; [done |]. lia.
Qed.

Lemma computeNormals_len vertices indices vs0 r :
  computeNormals vertices indices (Some vs0) = Return r →
  ∃ vs, r = Some vs ∧ len vs = Z.max (len vs0) (len vertices `div` 3 * 3).
Proof.
  unfold computeNormals, mbind, result_bind. cbv zeta.
  destruct (foldM (faceStep vertices indices) _ _) as [s1 |]; [| done]. cbn [JS.bind].
  destruct (foldM offsetStep _ _) as [s2 |]; [| done]. cbn [JS.bind].
  destruct (foldM (indexStep indices) _ _) as [s3 |]; [| done]. cbn [JS.bind].
  assert (HN : 0 ≤ len vertices `div` 3) by (apply Z.div_pos; unfold len; lia).
  rewrite <- (Z2Nat.id (len vertices `div` 3)) at 1 by done.
  intros (vs & -> & Hlen)%normalLoop_len. exists vs. split; [done |]. lia.
Qed.

End NormalLengths.

(** X18: [computeNormal] does not check the indices. On a [TRIANGLES]
    geometry with a well-formed position and an index list of whole triangles
    in which some index is [undefined] or names no vertex, the call throws a
    [TypeError] (a property of an [undefined] array element is read or
    written), not a [DeveloperError]. *)
Theorem computeNormal_index_out_of_range `{Imports} (g : Geometry)
    (position : GeometryAttribute) (vertices : list (option float))
    (indices : list (option Z)) :
  lookupAttribute "position" (attributes g) = Some position →
  values position = Some vertices →
  componentsPerAttribute position = 3%nat →
  len vertices `mod` 3 = 0 →
  primitiveType g = TRIANGLES →
  indexList g = Some indices →
  2 ≤ len indices → len indices `mod` 3 = 0 →
  Exists (λ v, ¬ validIndex (len vertices `div` 3) v) indices →
  computeNormal g = Throw TypeError.
Proof.
  intros Hpos Hvalues Hc Hmod Htype Hindex Hlen2 Hlen3 Hbad.
  unfold computeNormal. rewrite Hpos, Hvalues, Hindex.
  rewrite decide_False by (intros [? | ?]; done).
  rewrite decide_False by (intros [? | [? | ?]]; (done || lia)).
  cbv zeta. by rewrite computeNormals_invalid_index.
Qed.

Lemma computeNormal_index_out_of_range_witness :
  computeNormal (withIndexList Example.triangle (Some [Some 0; Some 1; Some 3]))
  = Throw TypeError.
Proof.
  apply (computeNormal_index_out_of_range
           (withIndexList Example.triangle (Some [Some 0; Some 1; Some 3]))
           Example.trianglePosition (default [] (values Example.trianglePosition))
           [Some 0; Some 1; Some 3]).
  - reflexivity.
  - reflexivity.
  - reflexivity.
  - reflexivity.
  - reflexivity.
  - reflexivity.
  - unfold len. simpl. lia.
  - reflexivity.
  - apply Exists_cons_tl, Exists_cons_tl, Exists_cons_hd.
    intros (i & [= <-] & Hi). change (0 ≤ 3 < 3) in Hi. lia.
Defined.

(** X19: whenever [computeNormal] returns, the index list, the primitive
    type, the bounding sphere and every attribute other than [normal] are
    those of the argument. A normal attribute that was there keeps its
    datatype, component count and normalization flag; one that is created for
    a list of whole triangles is a [FLOAT] attribute of 3 components with as
    many values as the position has. *)
Theorem computeNormal_changes_only_normal `{Imports} (g g' : Geometry) :
  computeNormal g = Return g' →
  indexList g' = indexList g
  ∧ primitiveType g' = primitiveType g
  ∧ boundingSphere g' = boundingSphere g
  ∧ (∀ name, name ≠ "normal"%string →
             lookupAttribute name (attributes g') = lookupAttribute name (attributes g))
  ∧ (∀ normal, lookupAttribute "normal" (attributes g) = Some normal →
       ∃ normal', lookupAttribute "normal" (attributes g') = Some normal'
                  ∧ sameDescription normal normal')
  ∧ (∀ indices, primitiveType g = TRIANGLES → indexList g = Some indices →
       2 ≤ len indices → len indices `mod` 3 = 0 →
       lookupAttribute "normal" (attributes g) = None →
       ∃ position vertices normal' normals,
         lookupAttribute "position" (attributes g) = Some position
         ∧ values position = Some vertices
         ∧ lookupAttribute "normal" (attributes g') = Some normal'
         ∧ componentDatatype normal' = FLOAT
         ∧ componentsPerAttribute normal' = 3%nat
         ∧ values normal' = Some normals
         ∧ len normals = len vertices).
Proof.
  unfold computeNormal.
  destruct (lookupAttribute "position" (attributes g)) as [position |] eqn:Hpos; [| done].
  destruct (values position) as [vertices |] eqn:Hvalues; [| done].
  case_decide as Hbad; [done |].
  assert (Hmod : len vertices `mod` 3 = 0).
  { destruct (decide (len vertices `mod` 3 = 0)); [done |]. exfalso. apply Hbad. by right. }
  destruct (indexList g) as [indices |] eqn:Hindex.
  2: { intros [= <-]. rewrite Hindex. split_and!; try done.
       intros normal Hnormal. exists normal. by rewrite Hnormal. }
  case_decide as Hskip.
  { intros [= <-]. rewrite Hindex. split_and!; try done.
    - intros normal Hnormal. exists normal. by rewrite Hnormal.
    - intros indices' Htype [= <-] Hlen2 Hlen3. exfalso.
      destruct Hskip as [? | [? | ?]]; (done || lia). }
  cbv zeta. unfold mbind, result_bind.
  set (normal := match lookupAttribute "normal" (attributes g) with
                 | Some normal => normal
                 | None => _
                 end).
  destruct (computeNormals vertices indices (values normal)) as [normalValues |] eqn:Hnormals;
    [| done].
  cbn [JS.bind]. intros [= <-]. cbn [attributes indexList primitiveType boundingSphere withAttributes].
  split_and!; try done.
  - intros name Hname. rewrite lookupAttribute_setAttribute. by rewrite decide_False.
  - intros normal0 Hnormal0. rewrite lookupAttribute_setAttribute, decide_True by done.
    eexists. split; [done |]. unfold normal. rewrite Hnormal0. done.
  - intros indices' Htype [= <-] Hlen2 Hlen3 Hnone.
    rewrite lookupAttribute_setAttribute, decide_True by done.
    unfold normal in *. rewrite Hnone in *. cbn [values] in Hnormals.
    apply computeNormals_len in Hnormals as (normals & -> & Hlen).
    exists position, vertices. eexists _, normals. split_and!; try done.
    assert (HN : 0 ≤ len vertices `div` 3) by (apply Z.div_pos; unfold len; lia).
    rewrite len_replicate in Hlen by lia.
    pose proof (Z.div_mod (len vertices) 3 ltac:(lia)). lia.
Qed.

Lemma computeNormal_changes_only_normal_witness :
  ∃ g', computeNormal Example.square = Return g'
        ∧ indexList g' = indexList Example.square.
Proof.
  eexists. split; [vm_compute; reflexivity |].
  apply (computeNormal_changes_only_normal Example.square). vm_compute. reflexivity.
Defined.

(** ** encodeAttribute *)

Section EncodeAttributeFacts.
Context `{Imports} `{EncodedCartesian3}.
Implicit Types (attrs : list (string * GeometryAttribute)) (name : string).

Lemma lookupAttribute_deleteAttribute name attrs n :
  lookupAttribute n (deleteAttribute name attrs)
  = if decide (name = n) then None else lookupAttribute n attrs.
Proof.
  unfold deleteAttribute. induction attrs as [| [m b] attrs IH]; simpl.
  - by case_decide.
  - rewrite filter_cons. simpl. destruct (decide (m ≠ name)) as [Hm | Hm]; simpl.
    + rewrite IH. destruct (decide (m = n)) as [-> | ?]; [| done].
      by rewrite decide_False by done.
    + apply dec_stable in Hm. subst m. rewrite IH.
      destruct (decide (name = n)); done.
Qed.

Lemma encodeLoop_len values (n : nat) s0 s :
  Z.of_nat n ≤ len s0.1.2 → Z.of_nat n ≤ len s0.2 →
  foldM (encodeStep values) s0 (range 0 (Z.of_nat n)) = Return s →
  len s.1.2 = len s0.1.2 ∧ len s.2 = len s0.2.
Proof.
  intros Hhigh Hlow. revert s. induction n as [| n IH]; intros s.
  - simpl. by intros [= <-].
  - replace (Z.of_nat (S n)) with (Z.of_nat n + 1) by lia.
    rewrite range_snoc, foldM_app by lia.
    destruct (foldM _ s0 (range 0 (Z.of_nat n))) as [s1 |]; [| done].
    destruct (IH ltac:(lia) ltac:(lia) s1 eq_refl) as [Hlen1 Hlen2]. cbn [JS.bind foldM].
    unfold encodeStep at 1, mbind, result_bind.
    destruct (EncodedCartesian3_encode _ _) as [encoded |]; [| done]. cbn [JS.bind].
    intros [= <-]. cbn [fst snd]. rewrite !len_set by lia. lia.
Qed.

Lemma encodeLoop_throws values (l : list Z) s0 e :
  foldM (encodeStep values) s0 l = Throw e →
  ∃ v encodedResult, EncodedCartesian3_encode v encodedResult = Throw e.
Proof.
  revert s0 e. apply (foldM_throws _ (λ e, ∃ v r, EncodedCartesian3_encode v r = Throw e)).
  intros s i e'. unfold encodeStep, mbind, result_bind.
  destruct (EncodedCartesian3_encode _ _) eqn:Hencode; [done |]. simpl. intros [= <-]. eauto.
Qed.

End EncodeAttributeFacts.

(** X20: when [encodeAttribute] returns, the encoded attribute (by default
    [position]) is gone, and the geometry has a low and a high attribute (by
    default [positionLow] and [positionHigh]) of datatype [FLOAT], with the
    component count of the encoded attribute and as many values as it had;
    every other attribute, the index list, the primitive type and the
    bounding sphere are unchanged. (The low attribute is there when its name
    is not that of the encoded attribute, the high attribute when its name is
    neither that one nor the name of the low attribute: the code writes the
    high attribute, then the low one, then deletes the encoded one.) *)
Theorem encodeAttribute_replaces `{Imports} `{EncodedCartesian3} (g g' : Geometry)
    (attributeName attributeHighName attributeLowName : option string)
    (encodedResult encodedResult' : option float * option float)
    (attribute : GeometryAttribute) (vs : list (option float)) :
  let name := default "position"%string attributeName in
  let highName := default "positionHigh"%string attributeHighName in
  let lowName := default "positionLow"%string attributeLowName in
  lookupAttribute name (attributes g) = Some attribute →
  values attribute = Some vs →
  encodeAttribute g attributeName attributeHighName attributeLowName encodedResult
  = Return (g', encodedResult') →
  lookupAttribute name (attributes g') = None
  ∧ (lowName ≠ name →
     ∃ low lowValues, lookupAttribute lowName (attributes g') = Some low
       ∧ componentDatatype low = FLOAT
       ∧ componentsPerAttribute low = componentsPerAttribute attribute
       ∧ values low = Some lowValues ∧ len lowValues = len vs)
  ∧ (highName ≠ name → highName ≠ lowName →
     ∃ high highValues, lookupAttribute highName (attributes g') = Some high
       ∧ componentDatatype high = FLOAT
       ∧ componentsPerAttribute high = componentsPerAttribute attribute
       ∧ values high = Some highValues ∧ len highValues = len vs)
  ∧ (∀ other, other ≠ name → other ≠ highName → other ≠ lowName →
              lookupAttribute other (attributes g') = lookupAttribute other (attributes g))
  ∧ indexList g' = indexList g
  ∧ primitiveType g' = primitiveType g
  ∧ boundingSphere g' = boundingSphere g.
Proof.
  intros name highName lowName Hattribute Hvs. unfold encodeAttribute. cbv zeta.
  fold name highName lowName. rewrite Hattribute, Hvs.
  case_decide as Hfloat; [done |].
  unfold mbind, result_bind.
  destruct (foldM (encodeStep vs) _ _) as [s |] eqn:Hloop; [| done]. cbn [JS.bind].
  intros [= <- <-]. cbn [attributes indexList primitiveType boundingSphere withAttributes].
  rewrite <- (Z2Nat.id (len vs)) in Hloop at 3 by (unfold len; lia).
  apply encodeLoop_len in Hloop as [Hhigh Hlow];
    [| cbn [fst snd]; rewrite len_replicate; unfold len; lia
     | cbn [fst snd]; rewrite len_replicate; unfold len; lia].
  cbn [fst snd] in Hhigh, Hlow. rewrite len_replicate in Hhigh, Hlow by (unfold len; lia).
  split_and!; try done.
  - rewrite lookupAttribute_deleteAttribute. by rewrite decide_True.
  - intros Hlow_name. rewrite lookupAttribute_deleteAttribute, decide_False by done.
    rewrite lookupAttribute_setAttribute, decide_True by done.
    eexists _, _. split_and!; done.
  - intros Hhigh_name Hhigh_low.
    rewrite lookupAttribute_deleteAttribute, decide_False by done.
    rewrite lookupAttribute_setAttribute, decide_False by done.
    rewrite lookupAttribute_setAttribute, decide_True by done.
    eexists _, _. split_and!; done.
  - intros other Hname Hhigh_name Hlow_name.
    rewrite lookupAttribute_deleteAttribute, decide_False by done.
    rewrite !lookupAttribute_setAttribute, !decide_False by done. done.
Qed.

(** X21: called with a geometry, [encodeAttribute] fails in four ways only:
    with a [DeveloperError] that names the attribute when the geometry does
    not have it; with a [DeveloperError] when its datatype is not [FLOAT];
    with a [TypeError] when a [FLOAT] attribute has no values; and with
    whatever [EncodedCartesian3.encode] throws. *)
Theorem encodeAttribute_errors `{Imports} `{EncodedCartesian3} (g : Geometry)
    (attributeName attributeHighName attributeLowName : option string)
    (encodedResult : option float * option float) (e : Error) :
  let name := default "position"%string attributeName in
  encodeAttribute g attributeName attributeHighName attributeLowName encodedResult = Throw e →
  (lookupAttribute name (attributes g) = None
   ∧ e = DeveloperError ("geometry must have attribute matching the attributeName argument: "
                         +:+ name +:+ "."))
  ∨ (∃ attribute, lookupAttribute name (attributes g) = Some attribute
       ∧ ((componentDatatype attribute ≠ FLOAT
           ∧ e = DeveloperError
                   "The attribute componentDatatype must be ComponentDatatype.FLOAT.")
          ∨ (componentDatatype attribute = FLOAT ∧ values attribute = None ∧ e = TypeError)
          ∨ (componentDatatype attribute = FLOAT
             ∧ ∃ v encoded, EncodedCartesian3_encode v encoded = Throw e))).
Proof.
  intros name. unfold encodeAttribute. cbv zeta. fold name.
  destruct (lookupAttribute name (attributes g)) as [attribute |]; [| intros [= <-]; by left].
  intros Hthrow. right. exists attribute. split; [done |]. revert Hthrow.
  case_decide as Hfloat; [intros [= <-]; by left |].
  destruct (values attribute) as [vs |]; [| intros [= <-]; right; by left].
  unfold mbind, result_bind.
  destruct (foldM (encodeStep vs) _ _) as [s |] eqn:Hloop; [done |]. cbn [JS.bind].
  intros [= <-]. right. right. split; [done |]. by eapply encodeLoop_throws.
Qed.

(** ** projectTo2D *)

Section ProjectTo2DFacts.
Context `{Imports} `{Projecting}.

Lemma projectLoop_len projection ellipsoid vs (n : nat) out0 out :
  foldM (projectStep projection ellipsoid vs) out0 (range 0 (Z.of_nat n)) = Return out →
  len out = len out0 + 2 * Z.of_nat n.
Proof.
  revert out. induction n as [| n IH]; intros out.
  - simpl. intros [= <-]. lia.
  - replace (Z.of_nat (S n)) with (Z.of_nat n + 1) by lia.
    rewrite range_snoc, foldM_app by lia.
    destruct (foldM _ out0 (range 0 (Z.of_nat n))) as [out1 |]; [| done].
    specialize (IH out1 eq_refl). cbn [JS.bind foldM].
    unfold projectStep at 1, mbind, result_bind. cbv zeta.
    destruct (Ellipsoid_cartesianToCartographic _ _) as [lonLat |]; [| done]. cbn [JS.bind].
    destruct (Projection_project _ _) as [projected |]; [| done]. cbn [JS.bind].
    intros [= <-]. rewrite len_app. unfold len at 2. simpl. lia.
Qed.

Lemma projectTo2D_inv (g g' : Geometry) (projection : option Projection) :
  projectTo2D g projection = Return g' →
  (lookupAttribute "position" (attributes g) = None ∧ g' = g)
  ∨ ∃ position wgs84Positions projectedPositions,
      lookupAttribute "position" (attributes g) = Some position
      ∧ values position = Some wgs84Positions
      ∧ len projectedPositions = 2 * ((len wgs84Positions + 2) `div` 3)
      ∧ g' = withAttributes g
               (deleteAttribute "position"
                  (setAttribute "position2D"
                     (mkGeometryAttribute FLOAT 2 false (Some projectedPositions))
                     (setAttribute "position3D" position (attributes g)))).
Proof.
  unfold projectTo2D.
  destruct (lookupAttribute "position" (attributes g)) as [position |];
    [| intros [= <-]; by left].
  cbv zeta. unfold mbind, result_bind.
  destruct (Projection_getEllipsoid _) as [ellipsoid |]; [| done]. cbn [JS.bind].
  destruct (values position) as [vs |] eqn:Hvs; [| done].
  destruct (foldM _ _ _) as [projected |] eqn:Hloop; [| done]. cbn [JS.bind].
  intros [= <-]. right. exists position, vs, projected. split_and!; try done.
  assert (Hn : 0 ≤ (len vs + 2) `div` 3) by (apply Z.div_pos; unfold len; lia).
  rewrite <- (Z2Nat.id _ Hn) in Hloop. apply projectLoop_len in Hloop.
  rewrite Hloop. change (len []) with 0. lia.
Qed.

End ProjectTo2DFacts.

(** X22: when [projectTo2D] returns, a geometry without [position]
    attribute is returned as it is. Otherwise the position attribute is found
    under the name [position3D], untouched, and there is no [position]
    attribute any more; [position2D] is a [FLOAT] attribute of 2 components
    with two values for every started triple of position values; all other
    attributes, the index list, the primitive type and the bounding sphere
    are unchanged. A second call on the result changes nothing. *)
Theorem projectTo2D_renames_position `{Imports} `{Projecting} (g g' : Geometry)
    (projection : option Projection) :
  projectTo2D g projection = Return g' →
  (lookupAttribute "position" (attributes g) = None → g' = g)
  ∧ lookupAttribute "position" (attributes g') = None
  ∧ projectTo2D g' projection = Return g'
  ∧ (∀ position wgs84Positions,
       lookupAttribute "position" (attributes g) = Some position →
       values position = Some wgs84Positions →
       lookupAttribute "position3D" (attributes g') = Some position
       ∧ ∃ position2D projectedPositions,
           lookupAttribute "position2D" (attributes g') = Some position2D
           ∧ componentDatatype position2D = FLOAT
           ∧ componentsPerAttribute position2D = 2%nat
           ∧ values position2D = Some projectedPositions
           ∧ len projectedPositions = 2 * ((len wgs84Positions + 2) `div` 3))
  ∧ (∀ other, other ≠ "position"%string → other ≠ "position2D"%string →
              other ≠ "position3D"%string →
              lookupAttribute other (attributes g') = lookupAttribute other (attributes g))
  ∧ indexList g' = indexList g
  ∧ primitiveType g' = primitiveType g
  ∧ boundingSphere g' = boundingSphere g.
Proof.
  intros [[Hnone ->] | (position & vs & projected & Hposition & Hvs & Hlen & ->)]%projectTo2D_inv.
  - split_and!; try done.
    + unfold projectTo2D. by rewrite Hnone.
    + intros position vs Hposition. congruence.
  - cbn [attributes indexList primitiveType boundingSphere withAttributes].
    assert (Hgone : lookupAttribute "position"
                      (deleteAttribute "position"
                         (setAttribute "position2D"
                            (mkGeometryAttribute FLOAT 2 false (Some projected))
                            (setAttribute "position3D" position (attributes g)))) = None).
    { rewrite lookupAttribute_deleteAttribute. by rewrite decide_True. }
    split_and!; try done.
    + congruence.
    + unfold projectTo2D. cbn [attributes withAttributes]. by rewrite Hgone.
    + intros position' vs' Hposition' Hvs'. simplify_eq.
      rewrite !lookupAttribute_deleteAttribute, !decide_False by done. split.
      * rewrite lookupAttribute_setAttribute, decide_False by done.
        by rewrite lookupAttribute_setAttribute, decide_True by done.
      * rewrite lookupAttribute_setAttribute, decide_True by done.
        eexists _, projected. split_and!; done.
    + intros other Hother H2D H3D.
      rewrite lookupAttribute_deleteAttribute, decide_False by done.
      rewrite !lookupAttribute_setAttribute, !decide_False by done. done.
Qed.

(** ** computeTangentAndBinormal *)

Section TangentFacts.
Context `{Imports} `{TangentSpace}.

Lemma basisStep_len normals tan1 s (i : Z) s' :
  0 ≤ i → basisStep normals tan1 s i = Return s' →
  len s'.1 = Z.max (len s.1) (i * 3 + 3) ∧ len s'.2 = Z.max (len s.2) (i * 3 + 3).
Proof.
  intros Hi. unfold basisStep, mbind, result_bind. cbv zeta.
  destruct (Cartesian3_fromArray normals _) as [n |]; [| done]. cbn [JS.bind].
  destruct (Cartesian3_fromArray tan1 _) as [t |]; [| done]. cbn [JS.bind].
  intros [= <-]. cbn [fst snd]. rewrite !len_set by lia. lia.
Qed.

Lemma basisLoop_len normals tan1 (n : nat) s0 s :
  foldM (basisStep normals tan1) s0 (range 0 (Z.of_nat n)) = Return s →
  len s.1 = Z.max (len s0.1) (Z.of_nat n * 3) ∧ len s.2 = Z.max (len s0.2) (Z.of_nat n * 3).
Proof.
  revert s. induction n as [| n IH]; intros s.
  - simpl. intros [= <-]. unfold len. lia.
  - replace (Z.of_nat (S n)) with (Z.of_nat n + 1) by lia.
    rewrite range_snoc, foldM_app by lia.
    destruct (foldM _ s0 (range 0 (Z.of_nat n))) as [s1 |]; [| done].
    destruct (IH s1 eq_refl) as [Hlen1 Hlen2]. cbn [JS.bind foldM].
    destruct (basisStep normals tan1 s1 (Z.of_nat n)) as [s2 |] eqn:Hstep; [| done].
    cbn [JS.bind]. intros [= <-]. apply basisStep_len in Hstep as [Hl1 Hl2]; lia.
Qed.

Lemma computeTangents_len vertices normals st indices s :
  computeTangents vertices normals st indices = Return s →
  len s.1 = len vertices `div` 3 * 3 ∧ len s.2 = len vertices `div` 3 * 3.
Proof.
  unfold computeTangents. cbv zeta.
  assert (HN : 0 ≤ len vertices `div` 3) by (apply Z.div_pos; unfold len; lia).
  rewrite <- (Z2Nat.id (len vertices `div` 3)) at 4 by done.
  intros [Hl1 Hl2]%basisLoop_len. cbn [fst snd] in Hl1, Hl2.
  rewrite len_replicate in Hl1, Hl2 by lia. lia.
Qed.

Lemma checkedValues_Return attrs name components required shape vs :
  checkedValues attrs name components required shape = Return vs →
  ∃ a, lookupAttribute name attrs = Some a ∧ values a = Some vs
       ∧ componentsPerAttribute a = components
       ∧ len vs `mod` Z.of_nat components = 0.
Proof.
  unfold checkedValues.
  destruct (lookupAttribute name attrs) as [a |]; [| done].
  destruct (values a) as [vs' |] eqn:Hvs; [| done].
  case_decide as Hshape; [done |]. intros [= <-]. exists a.
  split_and!; [done | done | |].
  - destruct (decide (componentsPerAttribute a = components)); [done |].
    exfalso. apply Hshape. by left.
  - destruct (decide (len vs' `mod` Z.of_nat components = 0)); [done |].
    exfalso. apply Hshape. by right.
Qed.

Lemma lookupAttribute_setValues name vs attrs n :
  lookupAttribute n (setValues name vs attrs)
  = if decide (name = n)
    then Some (match lookupAttribute name attrs with
               | None => mkGeometryAttribute FLOAT 3 false (Some vs)
               | Some a => withValues a (Some vs)
               end)
    else lookupAttribute n attrs.
Proof.
  unfold setValues. destruct (lookupAttribute name attrs);
    by rewrite lookupAttribute_setAttribute.
Qed.

End TangentFacts.

(** X23: whenever [computeTangentAndBinormal] returns, the index list, the
    primitive type, the bounding sphere and every attribute other than
    [tangent] and [binormal] are those of the argument, and a tangent or
    binormal attribute that was there keeps its description. The geometry has
    a position with values, and for a [TRIANGLES] geometry with an index list
    of whole triangles the tangent and the binormal both hold as many values
    as the position; one that is created is a [FLOAT] attribute of 3
    components. *)
Theorem computeTangentAndBinormal_writes_only_tangent_and_binormal
    `{Imports} `{TangentSpace} (g g' : Geometry) :
  computeTangentAndBinormal g = Return g' →
  indexList g' = indexList g
  ∧ primitiveType g' = primitiveType g
  ∧ boundingSphere g' = boundingSphere g
  ∧ (∀ name, name ≠ "tangent"%string → name ≠ "binormal"%string →
             lookupAttribute name (attributes g') = lookupAttribute name (attributes g))
  ∧ (∀ name a, name = "tangent"%string ∨ name = "binormal"%string →
       lookupAttribute name (attributes g) = Some a →
       ∃ a', lookupAttribute name (attributes g') = Some a' ∧ sameDescription a a')
  ∧ (∃ position vertices, lookupAttribute "position" (attributes g) = Some position
       ∧ values position = Some vertices
       ∧ ∀ indices, primitiveType g = TRIANGLES → indexList g = Some indices →
           2 ≤ len indices → len indices `mod` 3 = 0 →
           ∀ name, name = "tangent"%string ∨ name = "binormal"%string →
             ∃ a' vs', lookupAttribute name (attributes g') = Some a'
               ∧ values a' = Some vs' ∧ len vs' = len vertices
               ∧ (lookupAttribute name (attributes g) = None →
                  componentDatatype a' = FLOAT ∧ componentsPerAttribute a' = 3%nat)).
Proof.
  unfold computeTangentAndBinormal, mbind, result_bind.
  destruct (checkedValues (attributes g) "position" _ _ _) as [vertices |] eqn:Hposition;
    [| done]. cbn [JS.bind].
  destruct (checkedValues (attributes g) "normal" _ _ _) as [normals |]; [| done].
  cbn [JS.bind].
  destruct (checkedValues (attributes g) "st" _ _ _) as [st |]; [| done]. cbn [JS.bind].
  apply checkedValues_Return in Hposition as (position & Hposition & Hvertices & _ & Hmod).
  assert (Hunchanged : ∀ name a, lookupAttribute name (attributes g) = Some a →
            ∃ a', lookupAttribute name (attributes g) = Some a' ∧ sameDescription a a').
  { intros name a Ha. by exists a. }
  destruct (indexList g) as [indices |] eqn:Hindex.
  2: { intros [= <-]. rewrite Hindex. split_and!; try done; [by eauto |].
       exists position, vertices. split_and!; done. }
  case_decide as Hskip.
  { intros [= <-]. rewrite Hindex. split_and!; try done; [by eauto |].
    exists position, vertices. split_and!; try done.
    intros indices' Htype [= <-] Hlen2 Hlen3. exfalso.
    destruct Hskip as [? | [? | ?]]; (done || lia). }
  destruct (computeTangents vertices normals st indices) as [s |] eqn:Hs; [| done].
  cbn [JS.bind]. intros [= <-].
  cbn [attributes indexList primitiveType boundingSphere withAttributes].
  apply computeTangents_len in Hs as [Hbinormal Htangent].
  assert (Hlen : len vertices `div` 3 * 3 = len vertices).
  { pose proof (Z.div_mod (len vertices) 3 ltac:(lia)). change (Z.of_nat 3) with 3 in Hmod. lia. }
  rewrite Hlen in Hbinormal, Htangent.
  split_and!; try done.
  - intros name Htangent_name Hbinormal_name.
    by rewrite !lookupAttribute_setValues, !decide_False by done.
  - intros name a [-> | ->] Ha.
    + rewrite lookupAttribute_setValues, decide_False by done.
      rewrite lookupAttribute_setValues, decide_True by done. rewrite Ha. by eexists.
    + rewrite lookupAttribute_setValues, decide_True by done.
      rewrite lookupAttribute_setValues, decide_False by done. rewrite Ha. by eexists.
  - exists position, vertices. split_and!; try done.
    intros indices' Htype [= <-] Hlen2 Hlen3 name [-> | ->].
    + rewrite lookupAttribute_setValues, decide_False by done.
      rewrite lookupAttribute_setValues, decide_True by done.
      destruct (lookupAttribute "tangent" (attributes g)) as [a |];
        eexists _, _; split_and!; done.
    + rewrite lookupAttribute_setValues, decide_True by done.
      rewrite lookupAttribute_setValues, decide_False by done.
      destruct (lookupAttribute "binormal" (attributes g)) as [a |];
        eexists _, _; split_and!; done.
Qed.

(** ** reorderForPreVertexCache on any index list *)

Section GeneralScan.
Context `{Imports}.
Implicit Types (indices : list (option Z)) (s : Scan).


Lemma referenced_in_range N indices : Forall (λ i, 0 ≤ i < N) (referenced N indices).
Proof.
  apply Forall_forall. intros i ([j |] & _ & Hv)%list_elem_of_omap; [| done].
  simpl in Hv. case_decide; [| done]. by injection Hv as <-.
Qed.




End GeneralScan.



Lemma createAttributeIndices_positions_witness :
  createAttributeIndices Example.quad !! "batchId"%string = Some 1.
Proof.
  apply (proj1 (createAttributeIndices_positions Example.quad
                  ltac:(repeat constructor; rewrite ?elem_of_cons, ?elem_of_nil; intuition discriminate))
               "batchId"%string 1).
  split; [lia | reflexivity].
Defined.

Lemma combine_concatenates_values_witness :
  ∃ vss, Forall2 (valuesIn "position") [Sample.triangleInstance; Sample.squareInstance] vss
         ∧ values (mkGeometryAttribute Example.DOUBLE 3 false
                     (Some (default [] (values Example.trianglePosition)
                            ++ default [] (values Example.squarePosition))))
           = Some (typedArrayStore Example.DOUBLE <$> concat vss).
Proof.
  apply (combine_concatenates_values Sample.triangleInstance [Sample.squareInstance] _
           "position" _ ltac:(done) ltac:(apply NoDup_singleton) eq_refl eq_refl).
Defined.

Lemma combine_offsets_indices_witness :
  ∃ g, combine [Sample.triangleInstance; Sample.squareInstance] = Return g
       ∧ indexList g
         = Some (Some <$> shifted 16 0 [(3, [0; 1; 2]); (4, [0; 1; 2; 0; 2; 3])]).
Proof.
  eexists. split; [reflexivity |].
  apply (combine_offsets_indices [Sample.triangleInstance; Sample.squareInstance]
           [(3, [0; 1; 2]); (4, [0; 1; 2; 0; 2; 3])]).
  - simpl. lia.
  - repeat constructor.
    + eexists _, _, _, _. split_and!; [reflexivity | reflexivity | discriminate | reflexivity].
    + eexists _, _, _, _. split_and!; [reflexivity | reflexivity | discriminate | reflexivity].
  - reflexivity.
Defined.


Lemma combine_requires_index_lists_witness :
  combine [Sample.triangleInstance;
           mkGeometryInstance (withIndexList Example.square None) []]
  = Throw TypeError.
Proof.
  apply (combine_requires_index_lists Sample.triangleInstance
           [mkGeometryInstance (withIndexList Example.square None) []]).
  - done.
  - repeat constructor.
  - apply Exists_cons_tl, Exists_cons_hd. reflexivity.
Defined.

Lemma encodeAttribute_replaces_witness :
  ∃ g', encodeAttribute Example.triangle None None None (None, None)
        = Return (g', (Some 0%float, Some 0%float))
        ∧ lookupAttribute "position" (attributes g') = None.
Proof.
  eexists. split; [reflexivity |].
  apply (encodeAttribute_replaces Example.triangle _ None None None (None, None)
           (Some 0%float, Some 0%float) Example.trianglePosition
           (default [] (values Example.trianglePosition))); reflexivity.
Defined.

Lemma encodeAttribute_errors_witness :
  (lookupAttribute "normal" (attributes Example.triangle) = None
   ∧ DeveloperError "geometry must have attribute matching the attributeName argument: normal."
     = DeveloperError ("geometry must have attribute matching the attributeName argument: "
                       +:+ "normal" +:+ "."))
  ∨ (∃ attribute, lookupAttribute "normal" (attributes Example.triangle) = Some attribute
       ∧ ((componentDatatype attribute ≠ FLOAT
           ∧ DeveloperError
               "geometry must have attribute matching the attributeName argument: normal."
             = DeveloperError
                 "The attribute componentDatatype must be ComponentDatatype.FLOAT.")
          ∨ (componentDatatype attribute = FLOAT ∧ values attribute = None
             ∧ DeveloperError
                 "geometry must have attribute matching the attributeName argument: normal."
               = TypeError)
          ∨ (componentDatatype attribute = FLOAT
             ∧ ∃ v encoded,
                 EncodedCartesian3_encode v encoded
                 = Throw (DeveloperError
                            "geometry must have attribute matching the attributeName argument: normal.")))).
Proof.
  apply (encodeAttribute_errors Example.triangle (Some "normal"%string) None None (None, None)).
  reflexivity.
Defined.

Lemma projectTo2D_renames_position_witness :
  ∃ g', projectTo2D Example.triangle None = Return g'
        ∧ lookupAttribute "position" (attributes g') = None.
Proof.
  eexists. split; [reflexivity |].
  apply (projectTo2D_renames_position Example.triangle _ None). reflexivity.
Defined.

Lemma computeTangentAndBinormal_writes_only_tangent_and_binormal_witness :
  ∃ g', computeTangentAndBinormal Sample.texturedTriangle = Return g'
        ∧ indexList g' = indexList Sample.texturedTriangle.
Proof.
  eexists. split; [vm_compute; reflexivity |].
  apply (computeTangentAndBinormal_writes_only_tangent_and_binormal Sample.texturedTriangle).
  vm_compute. reflexivity.
Defined.
